(** * Platform-chain executor, fee calculator, validator manager, gossip
      tracker, dynamic fees configuration and linked list: a shallow
      embedding of the Go sources, the properties the specification states
      about them and further properties read off the code.

    Conventions.
    - Go's [uint64] is a [Z] in [0, 2^64) with the wrap-around written out.
    - Go's [int] indices of the gossip tracker are [nat] (they are results of
      [len]); the caller-supplied [limit] is a [Z].
    - Go maps are stdpp [gmap]s; reading a missing key yields the zero value.
    - A Go function returning [(T, error)] returns [result T]. *)

From Stdlib Require Import ZArith NArith Lia List Bool.
From stdpp Require Import gmap list fin_maps sorting.

Local Open Scope Z_scope.

(** ** Errors and results *)

Inductive result (E A : Type) : Type :=
| Ok (a : A)
| Err (e : E).
Arguments Ok {E A} a.
Arguments Err {E A} e.

Definition bind {E A B} (r : result E A) (k : A -> result E B) : result E B :=
  match r with
  | Ok a => k a
  | Err e => Err e
  end.

Notation "'let*' x ':=' r 'in' k" := (bind r (fun x => k))
  (at level 10, x pattern, r at level 100, k at level 200).

(** ** 64-bit unsigned arithmetic *)

Definition MaxUint64 : Z := 2 ^ 64 - 1.

Definition wrap64 (x : Z) : Z := x mod 2 ^ 64.

Definition is_u64 (x : Z) : Prop := 0 <= x <= MaxUint64.

(** ** Gossip tracker (network/gossip_tracker.go) *)

Module Gossip.

(** [ids.NodeID] is a 20-byte identifier; it is read here as the number the
    bytes spell. The zero value is the all-zero identifier. *)
Abbreviation NodeID := N (only parsing).
Definition EmptyNodeID : NodeID := 0%N.

(** Modelled from the spec: [ids.BigBitSet], a bitset over a compact integer
    index space backed by an arbitrary-precision natural number. The source
    of the type is not part of the repository subset; the operations are the
    ones the tracker calls. *)
Abbreviation BigBitSet := N (only parsing).

Definition NewBigBitSet : BigBitSet := 0%N.
Definition bsAdd (b : BigBitSet) (i : nat) : BigBitSet := N.setbit b (N.of_nat i).
Definition bsRemove (b : BigBitSet) (i : nat) : BigBitSet := N.clearbit b (N.of_nat i).
Definition bsContains (b : BigBitSet) (i : nat) : bool := N.testbit b (N.of_nat i).
Definition bsUnion (b other : BigBitSet) : BigBitSet := N.lor b other.
Definition bsDifference (b other : BigBitSet) : BigBitSet := N.ldiff b other.
(** Number of bits needed to write the set down: one more than the highest
    member, zero for the empty set. *)
Definition bsLen (b : BigBitSet) : nat := N.to_nat (N.size b).

Record GossipTracker : Type := mkGossipTracker {
  local : BigBitSet;
  knownPeers : gmap N N;
  peersToIndices : gmap N nat;
  indicesToPeers : gmap nat N
}.

Definition NewGossipTracker : GossipTracker :=
  {| local := NewBigBitSet;
     knownPeers := ∅;
     peersToIndices := ∅;
     indicesToPeers := ∅ |}.

Definition Contains (g : GossipTracker) (id : NodeID) : bool :=
  bool_decide (is_Some (knownPeers g !! id)).

Definition Add (g : GossipTracker) (id : NodeID) : GossipTracker * bool :=
  match peersToIndices g !! id with
  | Some _ => (g, false)
  | None =>
      let tail := size (peersToIndices g) in
      ({| local := bsAdd (local g) tail;
          knownPeers := <[id := NewBigBitSet]> (knownPeers g);
          peersToIndices := <[id := tail]> (peersToIndices g);
          indicesToPeers := <[tail := id]> (indicesToPeers g) |}, true)
  end.

(** The body of the loop of [Remove] over everyone else's known set. *)
Definition swapTail (idx tail : nat) (known : BigBitSet) : BigBitSet :=
  let known :=
    if decide (idx ≠ tail) then
      if bsContains known tail then bsAdd known idx else bsRemove known idx
    else known in
  bsRemove known tail.

Definition Remove (g : GossipTracker) (id : NodeID) : GossipTracker * bool :=
  match peersToIndices g !! id with
  | None => (g, false)
  | Some idx =>
      let evicted := default EmptyNodeID (indicesToPeers g !! idx) in
      let tail := (size (peersToIndices g) - 1)%nat in
      let i2p :=
        if decide (idx ≠ tail) then
          <[idx := default EmptyNodeID (indicesToPeers g !! tail)]> (indicesToPeers g)
        else indicesToPeers g in
      let p2i :=
        if decide (idx ≠ tail) then
          <[default EmptyNodeID (indicesToPeers g !! tail) := idx]> (peersToIndices g)
        else peersToIndices g in
      ({| local := bsRemove (local g) tail;
          knownPeers := swapTail idx tail <$> delete evicted (knownPeers g);
          peersToIndices := delete evicted p2i;
          indicesToPeers := delete tail i2p |}, true)
  end.

(** The loop of [UpdateKnown] that collects the indices of [learned]; [None]
    is the early [return false]. *)
Fixpoint learnedBits (g : GossipTracker) (learned : list N) (bs : BigBitSet)
  : option BigBitSet :=
  match learned with
  | [] => Some bs
  | nodeID :: rest =>
      match peersToIndices g !! nodeID with
      | None => None
      | Some idx => learnedBits g rest (bsAdd bs idx)
      end
  end.

Definition UpdateKnown (g : GossipTracker) (id : NodeID) (learned : list N)
  : GossipTracker * bool :=
  match knownPeers g !! id with
  | None => (g, false)
  | Some known =>
      match learnedBits g learned NewBigBitSet with
      | None => (g, false)
      | Some bs =>
          ({| local := local g;
              knownPeers := <[id := bsUnion known bs]> (knownPeers g);
              peersToIndices := peersToIndices g;
              indicesToPeers := indicesToPeers g |}, true)
      end
  end.

(** [g.indicesToPeers[i]]: the node the tracker reports for an index. *)
Definition peerAt (g : GossipTracker) (i : nat) : N :=
  default EmptyNodeID (indicesToPeers g !! i).

(** The loop of [GetUnknown]: [n] iterations remain, [i] is the loop index. *)
Fixpoint unknownLoop (g : GossipTracker) (unknown : BigBitSet) (limit : Z)
    (n i : nat) (result : list N) : list N :=
  match n with
  | O => result
  | S n' =>
      if negb (bsContains unknown i) then
        unknownLoop g unknown limit n' (S i) result
      else if Z.of_nat (length result) >=? limit then
        result
      else
        unknownLoop g unknown limit n' (S i)
          (result ++ [peerAt g i])
  end.

(** [GetUnknown] only reads the tracker; the tracker it leaves behind is
    returned as the first component. The slice is [None] for Go's [nil]. *)
Definition GetUnknown (g : GossipTracker) (id : NodeID) (limit : Z)
  : GossipTracker * option (list N) * bool :=
  if limit <=? 0 then (g, None, false)
  else
    let unknown := bsUnion NewBigBitSet (local g) in
    match knownPeers g !! id with
    | None => (g, None, false)
    | Some known =>
        let unknown := bsDifference unknown known in
        (g, Some (unknownLoop g unknown limit (bsLen unknown) 0 []), true)
    end.

(** Operations that change the tracker, and a run of a sequence of them. *)
Inductive Op : Type :=
| OpAdd (id : N)
| OpRemove (id : N)
| OpUpdateKnown (id : N) (learned : list N).

Definition step (g : GossipTracker) (o : Op) : GossipTracker :=
  match o with
  | OpAdd id => fst (Add g id)
  | OpRemove id => fst (Remove g id)
  | OpUpdateKnown id learned => fst (UpdateKnown g id learned)
  end.

Definition run (ops : list Op) (g : GossipTracker) : GossipTracker :=
  fold_left step ops g.

(** The number of tracked peers. *)
Definition count (g : GossipTracker) : nat := size (knownPeers g).

(** The two mappings are inverse bijections between the tracked peers and the
    indices below their number, [local] has exactly those bits, and every
    known set lies within them. *)
Record wf (g : GossipTracker) : Prop := mkWf {
  wf_inverse : forall p i,
    peersToIndices g !! p = Some i <-> indicesToPeers g !! i = Some p;
  wf_dense : forall i,
    is_Some (indicesToPeers g !! i) <-> (i < size (peersToIndices g))%nat;
  wf_local : forall i,
    bsContains (local g) i = true <-> (i < size (peersToIndices g))%nat;
  wf_known : forall p k i,
    knownPeers g !! p = Some k -> bsContains k i = true ->
    (i < size (peersToIndices g))%nat;
  wf_tracked : forall p,
    is_Some (knownPeers g !! p) <-> is_Some (peersToIndices g !! p)
}.

(** Whether the tracker records that the peer [p] was told about the peer
    [q]: the bit of [q]'s index in [p]'s known set. *)
Definition knows (g : GossipTracker) (p q : NodeID) : bool :=
  match knownPeers g !! p, peersToIndices g !! q with
  | Some k, Some i => bsContains k i
  | _, _ => false
  end.

(** Scenario of the spec: p1, p2, p3 tracked in that order. *)
Definition scenario : GossipTracker :=
  run [OpAdd 1%N; OpAdd 2%N; OpAdd 3%N;
       OpUpdateKnown 1%N [1%N; 2%N; 3%N];
       OpUpdateKnown 2%N [1%N; 2%N];
       OpUpdateKnown 3%N [1%N]] NewGossipTracker.

End Gossip.

(** ** Fee calculator (vms/platformvm/txs/fee/calculator.go) *)

Module Fee.

(** [ids.ID] is a 32-byte identifier, read as a number; the primary network
    is the all-zero identifier. *)
Abbreviation ID := N (only parsing).
Definition PrimaryNetworkID : ID := 0%N.

(** [time.Time], as seconds since the epoch. *)
Abbreviation Time := Z (only parsing).

(** The fields of [StaticConfig] the calculator reads. *)
Record StaticConfig : Type := mkStaticConfig {
  TxFee : Z;
  CreateAssetTxFee : Z;
  CreateSubnetTxFee : Z;
  TransformSubnetTxFee : Z;
  CreateBlockchainTxFee : Z;
  AddPrimaryNetworkValidatorFee : Z;
  AddPrimaryNetworkDelegatorFee : Z;
  AddSubnetValidatorFee : Z;
  AddSubnetDelegatorFee : Z
}.

(** Modelled from the spec: [upgrade.Config], the timestamps at which each
    named fork activates; a fork is active from its timestamp on. Only the
    Apricot-Phase-3 predicate is read by the calculator. *)
Record UpgradeConfig : Type := mkUpgradeConfig {
  ApricotPhase3Time : Time
}.

Definition IsApricotPhase3Activated (u : UpgradeConfig) (t : Time) : bool :=
  negb (t <? ApricotPhase3Time u).

(** Modelled from the spec: [fees.Dimensions], a fixed-size tuple of four
    non-negative integers: bandwidth, read, write, compute. *)
Record Dimensions : Type := mkDimensions {
  Bandwidth : Z;
  UTXORead : Z;
  UTXOWrite : Z;
  Compute : Z
}.

Inductive Dimension : Type := DBandwidth | DUTXORead | DUTXOWrite | DCompute.

Definition FeeDimensions : list Dimension :=
  [DBandwidth; DUTXORead; DUTXOWrite; DCompute].

Definition dim (d : Dimensions) (i : Dimension) : Z :=
  match i with
  | DBandwidth => Bandwidth d
  | DUTXORead => UTXORead d
  | DUTXOWrite => UTXOWrite d
  | DCompute => Compute d
  end.

Definition Empty : Dimensions := mkDimensions 0 0 0 0.

Definition dims_eqb (a b : Dimensions) : bool :=
  forallb (fun i => dim a i =? dim b i) FeeDimensions.


(** Modelled from the spec: the tip denominator, [TIP_DENOMINATOR =
    1_000_000]; the constant is declared with [fees.TipPercentage], outside
    the repository subset. *)
Definition TipDenonimator : Z := 1000000.

Inductive FeeError : Type :=
| ErrFeesPaidLessThanRequired (feesPaid required : Z)
| ErrInvalidTipPercentage
| errFailedComplexityCumulation (d : Dimension)
| errFailedFeeCalculation
| errFailedRemovingUnits (d : Dimension)
| errMeter.

(** Modelled from the spec: [fees.Manager]. It holds the unit fee of each
    dimension and the complexity cumulated so far.
    - [CumulateComplexity] reports the first dimension in which the cumulated
      complexity plus the given one exceeds the block cap, and otherwise adds
      the given complexity to the cumulated one.
    - [RemoveComplexity] subtracts, and fails rather than go below zero.
    - [CalculateFee] is the sum over the dimensions of unit fee times
      complexity, scaled by [1 + tip / TipDenonimator]; it fails when the
      result does not fit 64 bits. *)
Record Manager : Type := mkManager {
  unitFees : Dimensions;
  cumulatedComplexity : Dimensions
}.

Definition dims_add (a b : Dimensions) : Dimensions :=
  mkDimensions (Bandwidth a + Bandwidth b) (UTXORead a + UTXORead b)
               (UTXOWrite a + UTXOWrite b) (Compute a + Compute b).


Definition CumulateComplexity (m : Manager) (units bounds : Dimensions)
  : Manager * option Dimension :=
  match find (fun i => dim (cumulatedComplexity m) i + dim units i >? dim bounds i)
             FeeDimensions with
  | Some i => (m, Some i)
  | None =>
      (mkManager (unitFees m) (dims_add (cumulatedComplexity m) units), None)
  end.


Definition CalculateFee (m : Manager) (units : Dimensions) (tipPercentage : Z)
  : result FeeError Z :=
  let base :=
    fold_left (fun acc i => acc + dim (unitFees m) i * dim units i) FeeDimensions 0 in
  let fee := base + base * tipPercentage / TipDenonimator in
  if fee >? MaxUint64 then Err errFailedFeeCalculation else Ok fee.

(** [TipPercentage.Validate] is declared outside the repository subset and
    the spec does not describe it: the check is a parameter, [validTip]. *)
Definition Validate (validTip : Z -> bool) (tip : Z) : option FeeError :=
  if validTip tip then None else Some ErrInvalidTipPercentage.

Record calculator : Type := mkCalculator {
  isEActive : bool;
  upgrades : UpgradeConfig;
  staticCfg : StaticConfig;
  time : Time;
  feeManager : option Manager;
  blockMaxComplexity : Dimensions;
  tipPercentage : Z;
  fee : Z
}.

Definition set_fee (c : calculator) (f : Z) : calculator :=
  mkCalculator (isEActive c) (upgrades c) (staticCfg c) (time c) (feeManager c)
               (blockMaxComplexity c) (tipPercentage c) f.

Definition set_tipPercentage (c : calculator) (t : Z) : calculator :=
  mkCalculator (isEActive c) (upgrades c) (staticCfg c) (time c) (feeManager c)
               (blockMaxComplexity c) t (fee c).

Definition set_feeManager (c : calculator) (m : Manager) : calculator :=
  mkCalculator (isEActive c) (upgrades c) (staticCfg c) (time c) (Some m)
               (blockMaxComplexity c) (tipPercentage c) (fee c).

Definition NewStaticCalculator (cfg : StaticConfig) (ut : UpgradeConfig)
    (chainTime : Time) : calculator :=
  mkCalculator false ut cfg chainTime None Empty 0 0.

Definition NewDynamicCalculator (cfg : StaticConfig) (feeManager : Manager)
    (blockMaxComplexity : Dimensions) : calculator :=
  mkCalculator true (mkUpgradeConfig 0) cfg 0 (Some feeManager)
               blockMaxComplexity 0 0.

Definition ResetFee (c : calculator) (newFee : Z) : calculator := set_fee c newFee.

Definition ResetTipPercentage (c : calculator) (tip : Z) : calculator :=
  set_tipPercentage c tip.

Definition CalculateTipPercentage (validTip : Z -> bool) (c : calculator)
    (feesPaid : Z)
  : calculator * option FeeError :=
  if feesPaid <? fee c then
    (c, Some (ErrFeesPaidLessThanRequired feesPaid (fee c)))
  else if fee c =? 0 then (c, None)
  else
    let tip := wrap64 (feesPaid - fee c) in
    let c := set_tipPercentage c (wrap64 (tip * TipDenonimator) / fee c) in
    (c, Validate validTip (tipPercentage c)).

Definition addFeesFor (c : calculator) (complexity : Dimensions)
  : calculator * result FeeError Z :=
  match feeManager c with
  | None => (c, Ok 0)
  | Some m =>
      if dims_eqb complexity Empty then (c, Ok 0)
      else
        match CumulateComplexity m complexity (blockMaxComplexity c) with
        | (_, Some dimension) => (c, Err (errFailedComplexityCumulation dimension))
        | (m, None) =>
            let c := set_feeManager c m in
            match CalculateFee m complexity (tipPercentage c) with
            | Err _ => (c, Err errFailedFeeCalculation)
            | Ok fee' => (set_fee c (wrap64 (fee c + fee')), Ok fee')
            end
        end
  end.


(** The unsigned transactions the calculator visits. Only the permissionless
    staking transactions carry a field the static schedule reads. *)
Inductive UnsignedTx : Type :=
| AddValidatorTx
| AddSubnetValidatorTx
| AddDelegatorTx
| CreateChainTx
| CreateSubnetTx
| AdvanceTimeTx
| RewardValidatorTx
| RemoveSubnetValidatorTx
| TransformSubnetTx
| TransferSubnetOwnershipTx
| AddPermissionlessValidatorTx (Subnet : N)
| AddPermissionlessDelegatorTx (Subnet : N)
| BaseTx
| ImportTx
| ExportTx.

(** The dynamic branch shared by the visitor's methods: meter, then add the
    fees. [meterTx] stands for the codec-dependent metering of the
    transaction, its inputs, outputs and credentials. *)
Definition dynamicFee (meterTx : UnsignedTx -> result FeeError Dimensions)
    (c : calculator) (tx : UnsignedTx) : calculator * option FeeError :=
  match meterTx tx with
  | Err e => (c, Some e)
  | Ok complexity =>
      match addFeesFor c complexity with
      | (c, Ok _) => (c, None)
      | (c, Err e) => (c, Some e)
      end
  end.

Definition Visit (meterTx : UnsignedTx -> result FeeError Dimensions)
    (c : calculator) (tx : UnsignedTx) : calculator * option FeeError :=
  let static f := if isEActive c then dynamicFee meterTx c tx else (set_fee c f, None) in
  match tx with
  | AddValidatorTx => (set_fee c (AddPrimaryNetworkValidatorFee (staticCfg c)), None)
  | AddSubnetValidatorTx => static (AddSubnetValidatorFee (staticCfg c))
  | AddDelegatorTx => (set_fee c (AddPrimaryNetworkDelegatorFee (staticCfg c)), None)
  | CreateChainTx =>
      static (if IsApricotPhase3Activated (upgrades c) (time c)
              then CreateBlockchainTxFee (staticCfg c)
              else CreateAssetTxFee (staticCfg c))
  | CreateSubnetTx =>
      static (if IsApricotPhase3Activated (upgrades c) (time c)
              then CreateSubnetTxFee (staticCfg c)
              else CreateAssetTxFee (staticCfg c))
  | AdvanceTimeTx => (set_fee c 0, None)
  | RewardValidatorTx => (set_fee c 0, None)
  | RemoveSubnetValidatorTx => static (TxFee (staticCfg c))
  | TransformSubnetTx => static (TransformSubnetTxFee (staticCfg c))
  | TransferSubnetOwnershipTx => static (TxFee (staticCfg c))
  | AddPermissionlessValidatorTx Subnet =>
      static (if negb (N.eqb Subnet PrimaryNetworkID)
              then AddSubnetValidatorFee (staticCfg c)
              else CreateAssetTxFee (staticCfg c))
  | AddPermissionlessDelegatorTx Subnet =>
      static (if negb (N.eqb Subnet PrimaryNetworkID)
              then AddSubnetDelegatorFee (staticCfg c)
              else AddPrimaryNetworkDelegatorFee (staticCfg c))
  | BaseTx => static (TxFee (staticCfg c))
  | ImportTx => static (TxFee (staticCfg c))
  | ExportTx => static (TxFee (staticCfg c))
  end.

Definition ComputeFee (meterTx : UnsignedTx -> result FeeError Dimensions)
    (c : calculator) (tx : UnsignedTx) : calculator * (Z * option FeeError) :=
  let '(c, err) := Visit meterTx c tx in (c, (fee c, err)).

(** The transaction variants that pay the flat fee before the E upgrade. *)
Definition paysFlatFee (tx : UnsignedTx) : bool :=
  match tx with
  | BaseTx | ImportTx | ExportTx | RemoveSubnetValidatorTx
  | TransferSubnetOwnershipTx => true
  | _ => false
  end.

(** Concrete configurations used by the examples below. *)
Definition exampleStaticConfig : StaticConfig :=
  mkStaticConfig 1 2 3 4 5 6 7 8 9.

Definition noMeter (_ : UnsignedTx) : result FeeError Dimensions := Err errMeter.

Definition exampleStatic : calculator :=
  NewStaticCalculator exampleStaticConfig (mkUpgradeConfig 0) 100.

(** A calculator whose required fee is zero and whose tip percentage was set
    by the caller beforehand. *)
Definition exampleZeroFee : calculator :=
  ResetTipPercentage exampleStatic 7.

Definition exampleDynamic : calculator :=
  NewDynamicCalculator exampleStaticConfig
    (mkManager (mkDimensions 1 2 3 4) Empty)
    (mkDimensions 150 150 150 150).

(** The transaction variants whose visitor method sets a fixed fee whether or
    not the E upgrade is active. *)
Definition unmetered (tx : UnsignedTx) : bool :=
  match tx with
  | AddValidatorTx | AddDelegatorTx | AdvanceTimeTx | RewardValidatorTx => true
  | _ => false
  end.

(** The fee the visitor sets before the E upgrade. *)
Definition exampleAP3 : calculator :=
  NewStaticCalculator exampleStaticConfig (mkUpgradeConfig 1000) 999.

Definition exampleMeter (_ : UnsignedTx) : result FeeError Dimensions :=
  Ok (mkDimensions 100 0 0 0).

End Fee.

(** ** Staker verification and the standard executor
       (vms/platformvm/txs/executor/staker_tx_verification.go,
        vms/platformvm/txs/executor/standard_tx_executor.go) *)

Module Staking.

(** Identifiers are read as numbers; the primary network and the empty node
    id are the all-zero identifiers. [time.Time] and [time.Duration] are
    counted in seconds. *)
Abbreviation ID := N (only parsing).
Abbreviation NodeID := N (only parsing).
Abbreviation Time := Z (only parsing).
Abbreviation Duration := Z (only parsing).

Definition PrimaryNetworkID : ID := 0%N.
Definition EmptyNodeID : NodeID := 0%N.

(** [mockable.MaxTime], the largest time the platform handles. *)
Definition MaxTime : Time := 9223371974719179007.

(** Modelled from the spec: [MaxValidatorWeightFactor = 5], the default
    factor; the constant is declared outside the repository subset. *)
Definition MaxValidatorWeightFactor : Z := 5.

(** Modelled from the spec: [MAX_FUTURE_START_TIME = 24h]. The verifiers
    below take the horizon as a parameter, [maxFutureStartTime]; this is the
    value the platform runs with. *)
Definition MaxFutureStartTime : Duration := 86400.

(** Modelled from the spec: [math.Mul64], a multiplication of 64-bit unsigned
    integers that reports overflow instead of wrapping. *)
Definition Mul64 (a b : Z) : option Z :=
  if a * b >? MaxUint64 then None else Some (a * b).

(** Modelled from the spec: [txs.Priority]. The priority of a staker tells
    whether it is pending or current, and which kind of staker it is:
    validator or delegator, of the primary network or of a subnet, the
    subnet validators being permissioned or permissionless. *)
Inductive Phase : Type := Pending | Current.

Inductive Kind : Type :=
| NetworkValidator
| NetworkDelegator
| SubnetPermissionedValidator
| SubnetPermissionlessValidator
| SubnetPermissionlessDelegator.

Record Priority : Type := mkPriority { phase : Phase; kind : Kind }.

Definition kindIsValidator (k : Kind) : bool :=
  match k with
  | NetworkValidator | SubnetPermissionedValidator
  | SubnetPermissionlessValidator => true
  | NetworkDelegator | SubnetPermissionlessDelegator => false
  end.

Definition phaseIsCurrent (p : Phase) : bool :=
  match p with Current => true | Pending => false end.

Definition IsValidator (p : Priority) : bool := kindIsValidator (kind p).
Definition IsCurrentValidator (p : Priority) : bool :=
  phaseIsCurrent (phase p) && kindIsValidator (kind p).
Definition IsCurrentDelegator (p : Priority) : bool :=
  phaseIsCurrent (phase p) && negb (kindIsValidator (kind p)).
Definition IsPendingValidator (p : Priority) : bool :=
  negb (phaseIsCurrent (phase p)) && kindIsValidator (kind p).
Definition IsPendingDelegator (p : Priority) : bool :=
  negb (phaseIsCurrent (phase p)) && negb (kindIsValidator (kind p)).
Definition IsPermissionedValidator (p : Priority) : bool :=
  match kind p with SubnetPermissionedValidator => true | _ => false end.

Definition SubnetPermissionedValidatorCurrentPriority : Priority :=
  mkPriority Current SubnetPermissionedValidator.

Definition Priority_eqb (p q : Priority) : bool :=
  bool_decide (phaseIsCurrent (phase p) = phaseIsCurrent (phase q)) &&
  match kind p, kind q with
  | NetworkValidator, NetworkValidator
  | NetworkDelegator, NetworkDelegator
  | SubnetPermissionedValidator, SubnetPermissionedValidator
  | SubnetPermissionlessValidator, SubnetPermissionlessValidator
  | SubnetPermissionlessDelegator, SubnetPermissionlessDelegator => true
  | _, _ => false
  end.

(** Modelled from the spec: [state.Staker], the record
    { tx id, node id, subnet id, weight, start time, end time, earliest-stop
    time, potential reward, priority }. *)
Record Staker : Type := mkStaker {
  TxID : ID;
  sNodeID : NodeID;
  SubnetID : ID;
  Weight : Z;
  StartTime : Time;
  EndTime : Time;
  earliestStopTime : Time;
  PotentialReward : Z;
  sPriority : Priority
}.

Definition EarliestStopTime (s : Staker) : Time := earliestStopTime s.

(** Modelled from the spec: [state.MarkStakerForRemovalInPlaceBeforeTime]
    sets the staker's earliest-stop time. *)
Definition MarkStakerForRemovalInPlaceBeforeTime (s : Staker) (stopTime : Time)
  : Staker :=
  mkStaker (TxID s) (sNodeID s) (SubnetID s) (Weight s) (StartTime s)
           (EndTime s) stopTime (PotentialReward s) (sPriority s).

(** [avax.TransferableOutput], as far as the verifiers read it. *)
Record Output : Type := mkOutput { AssetID : ID; Amt : Z }.

(** [txs.Validator]: node id, start and end in seconds, weight. *)
Record Validator : Type := mkValidator {
  vNodeID : NodeID;
  Start : Z;
  End_ : Z;
  Wght : Z
}.

(** The staking transactions. The five Go structs share their fields; a
    field a variant does not have is not read for that variant. *)
Inductive AddKind : Type :=
| AddValidatorTx
| AddSubnetValidatorTx
| AddDelegatorTx
| AddPermissionlessValidatorTx
| AddPermissionlessDelegatorTx.

Record StakerTx : Type := mkStakerTx {
  txKind : AddKind;
  txValidator : Validator;
  Subnet : ID;
  DelegationShares : Z;
  Ins : list N;
  Outs : list Output;
  StakeOuts : list Output
}.

Record StopStakerTx : Type := mkStopStakerTx {
  stopTxID : ID;
  StakerAuth : N;
  stopIns : list N;
  stopOuts : list Output
}.

Inductive UnsignedTx : Type :=
| UStaker (tx : StakerTx)
| UStopStaker (tx : StopStakerTx).

(** [txs.Tx]: the signed envelope. *)
Record Tx : Type := mkTx {
  Unsigned : UnsignedTx;
  Creds : list N;
  txID : ID
}.

(** Modelled from the spec: the accessors of the staking transactions. The
    staking period is the span between the stated start and end; legacy
    transactions stake on the primary network. *)
Definition txStartTime (tx : StakerTx) : Time := Start (txValidator tx).
Definition txEndTime (tx : StakerTx) : Time := End_ (txValidator tx).
Definition StakingPeriod (tx : StakerTx) : Duration :=
  End_ (txValidator tx) - Start (txValidator tx).
Definition txWeight (tx : StakerTx) : Z := Wght (txValidator tx).
Definition txNodeID (tx : StakerTx) : NodeID := vNodeID (txValidator tx).

Definition txSubnetID (tx : StakerTx) : ID :=
  match txKind tx with
  | AddValidatorTx | AddDelegatorTx => PrimaryNetworkID
  | _ => Subnet tx
  end.

Definition txStakerKind (tx : StakerTx) : Kind :=
  match txKind tx with
  | AddValidatorTx => NetworkValidator
  | AddDelegatorTx => NetworkDelegator
  | AddSubnetValidatorTx => SubnetPermissionedValidator
  | AddPermissionlessValidatorTx =>
      if N.eqb (Subnet tx) PrimaryNetworkID then NetworkValidator
      else SubnetPermissionlessValidator
  | AddPermissionlessDelegatorTx =>
      if N.eqb (Subnet tx) PrimaryNetworkID then NetworkDelegator
      else SubnetPermissionlessDelegator
  end.

Definition PendingPriority (tx : StakerTx) : Priority :=
  mkPriority Pending (txStakerKind tx).
Definition CurrentPriority (tx : StakerTx) : Priority :=
  mkPriority Current (txStakerKind tx).

Inductive ExecError : Type :=
| ErrSyntactic (cause : N)
| ErrWeightTooSmall
| ErrWeightTooLarge
| ErrInsufficientDelegationFee
| ErrStakeTooShort
| ErrStakeTooLong
| ErrFlowCheckFailed (cause : N)
| ErrFutureStakeTime
| ErrValidatorSubset
| ErrNotValidator
| ErrRemovePermissionlessValidator
| ErrStakeOverflow
| ErrOverDelegated
| ErrIsNotTransformSubnetTx
| ErrTimestampNotBeforeStartTime
| ErrAlreadyValidator
| ErrDuplicateValidator
| ErrDelegateToPermissionedValidator
| ErrWrongStakedAssetID
| ErrUnauthorizedStakerStopping (cause : N)
| ErrWrongTxType
| errEmptyNodeID
| errWrongNumberOfCredentials
| ErrNotFound
| errChainTimestampNotBeforeStart
| errStopBeforeContinuousStaking
| errStakerToStopNotFound
| errStakerTxNotFound
| errSubnetTxNotFound
| errUnhandledStakerType
| errSubnetAuthorization (cause : N)
| errCanDelegate (cause : N)
| errRewardConfig (cause : N)
| errIndexOutOfRange.

Definition isErrNotFound (e : ExecError) : bool :=
  match e with ErrNotFound => true | _ => false end.

(** Modelled from the spec: [state.NewPendingStaker] builds a pending staker
    from the transaction, with the priority the variant gives; its start and
    end are the stated ones. *)
Definition NewPendingStaker (txID : ID) (tx : StakerTx)
  : result ExecError Staker :=
  Ok (mkStaker txID (txNodeID tx) (txSubnetID tx) (txWeight tx)
        (txStartTime tx) (txEndTime tx) (txEndTime tx) 0 (PendingPriority tx)).

(** Modelled from the spec: [state.NewCurrentStaker] builds a current staker
    whose effective start is the given time (the current chain time). *)
Definition NewCurrentStaker (txID : ID) (tx : StakerTx) (startTime : Time)
    (endTimeBound : Time) (potentialReward : Z) : result ExecError Staker :=
  Ok (mkStaker txID (txNodeID tx) (txSubnetID tx) (txWeight tx)
        startTime endTimeBound (startTime + StakingPeriod tx) potentialReward
        (CurrentPriority tx)).

(** The fields of [config.Config] the verifiers and the executor read. *)
Record Config : Type := mkConfig {
  MinValidatorStake : Z;
  MaxValidatorStake : Z;
  MinDelegatorStake : Z;
  MinDelegationFee : Z;
  MinStakeDuration : Duration;
  MaxStakeDuration : Duration;
  TxFee : Z;
  AddPrimaryNetworkValidatorFee : Z;
  AddPrimaryNetworkDelegatorFee : Z;
  AddSubnetValidatorFee : Z;
  AddSubnetDelegatorFee : Z;
  ApricotPhase3Time : Time;
  ContinuousStakingTime : Time
}.

(** Modelled from the spec: the fork predicates; a fork is active from its
    activation time on. *)
Definition IsApricotPhase3Activated (c : Config) (t : Time) : bool :=
  negb (t <? ApricotPhase3Time c).
Definition IsContinuousStakingActivated (c : Config) (t : Time) : bool :=
  negb (t <? ContinuousStakingTime c).

(** [txs.TransformSubnetTx], as far as the staking rules read it. *)
Record TransformSubnetTx : Type := mkTransformSubnetTx {
  tsAssetID : ID;
  tsMinValidatorStake : Z;
  tsMaxValidatorStake : Z;
  tsMinStakeDuration : Z;
  tsMaxStakeDuration : Z;
  tsMinDelegationFee : Z;
  tsMinDelegatorStake : Z;
  tsMaxValidatorWeightFactor : Z
}.

(** The stored transactions [verifyStopStakerAuthorization] tells apart. *)
Inductive StoredTx : Type :=
| StoredValidatorTx (validationRewardsOwner : N)
| StoredDelegatorTx (rewardsOwner : N)
| StoredAddSubnetValidatorTx (subnet : ID)
| StoredCreateSubnetTx (owner : N)
| StoredOtherTx.

(** Modelled from the spec: the state diff the executor reads and mutates.
    The staker sets are kept in iteration order; the current stakers are the
    current validators and the current delegators. A put adds the staker to
    its set, an update replaces the staker with the same tx id. The UTXO
    writes are recorded in the order they are made. *)
Record State : Type := mkState {
  timestamp : Time;
  currentValidators : list Staker;
  currentDelegators : list Staker;
  pendingValidators : list Staker;
  pendingDelegators : list Staker;
  currentSupply : gmap N Z;
  subnetTransformations : gmap N (option TransformSubnetTx);
  storedTxs : gmap N StoredTx;
  consumedUTXOs : list N;
  producedUTXOs : list (N * nat * Output)
}.

Definition set_currentValidators (st : State) (l : list Staker) : State :=
  mkState (timestamp st) l (currentDelegators st) (pendingValidators st)
          (pendingDelegators st) (currentSupply st) (subnetTransformations st)
          (storedTxs st) (consumedUTXOs st) (producedUTXOs st).

Definition set_currentDelegators (st : State) (l : list Staker) : State :=
  mkState (timestamp st) (currentValidators st) l (pendingValidators st)
          (pendingDelegators st) (currentSupply st) (subnetTransformations st)
          (storedTxs st) (consumedUTXOs st) (producedUTXOs st).

Definition set_pendingValidators (st : State) (l : list Staker) : State :=
  mkState (timestamp st) (currentValidators st) (currentDelegators st) l
          (pendingDelegators st) (currentSupply st) (subnetTransformations st)
          (storedTxs st) (consumedUTXOs st) (producedUTXOs st).

Definition set_pendingDelegators (st : State) (l : list Staker) : State :=
  mkState (timestamp st) (currentValidators st) (currentDelegators st)
          (pendingValidators st) l (currentSupply st) (subnetTransformations st)
          (storedTxs st) (consumedUTXOs st) (producedUTXOs st).

Definition GetTimestamp (st : State) : Time := timestamp st.

Definition PutCurrentValidator (st : State) (s : Staker) : State :=
  set_currentValidators st (currentValidators st ++ [s]).
Definition PutCurrentDelegator (st : State) (s : Staker) : State :=
  set_currentDelegators st (currentDelegators st ++ [s]).
Definition PutPendingValidator (st : State) (s : Staker) : State :=
  set_pendingValidators st (pendingValidators st ++ [s]).
Definition PutPendingDelegator (st : State) (s : Staker) : State :=
  set_pendingDelegators st (pendingDelegators st ++ [s]).

Definition hasTxID (id : ID) (s : Staker) : bool := N.eqb (TxID s) id.

Definition replaceStaker (s : Staker) (l : list Staker) : list Staker :=
  (fun x => if hasTxID (TxID s) x then s else x) <$> l.

Definition UpdateCurrentValidator (st : State) (s : Staker)
  : result ExecError State :=
  if existsb (hasTxID (TxID s)) (currentValidators st)
  then Ok (set_currentValidators st (replaceStaker s (currentValidators st)))
  else Err ErrNotFound.

Definition UpdateCurrentDelegator (st : State) (s : Staker)
  : result ExecError State :=
  if existsb (hasTxID (TxID s)) (currentDelegators st)
  then Ok (set_currentDelegators st (replaceStaker s (currentDelegators st)))
  else Err ErrNotFound.

Definition GetCurrentStakerIterator (st : State) : result ExecError (list Staker) :=
  Ok (currentValidators st ++ currentDelegators st).

Definition validates (subnetID : ID) (nodeID : NodeID) (s : Staker) : bool :=
  N.eqb (SubnetID s) subnetID && N.eqb (sNodeID s) nodeID.

Definition GetCurrentValidator (st : State) (subnetID : ID) (nodeID : NodeID)
  : result ExecError Staker :=
  match find (validates subnetID nodeID) (currentValidators st) with
  | Some s => Ok s
  | None => Err ErrNotFound
  end.

Definition GetPendingValidator (st : State) (subnetID : ID) (nodeID : NodeID)
  : result ExecError Staker :=
  match find (validates subnetID nodeID) (pendingValidators st) with
  | Some s => Ok s
  | None => Err ErrNotFound
  end.

(** Modelled from the spec: [GetValidator] returns the current or else the
    pending validator of the subnet with the node id. *)
Definition GetValidator (st : State) (subnetID : ID) (nodeID : NodeID)
  : result ExecError Staker :=
  match GetCurrentValidator st subnetID nodeID with
  | Ok s => Ok s
  | Err e =>
      if negb (isErrNotFound e) then Err e
      else GetPendingValidator st subnetID nodeID
  end.

Definition GetCurrentSupply (st : State) (subnetID : ID) : result ExecError Z :=
  match currentSupply st !! subnetID with
  | Some s => Ok s
  | None => Err ErrNotFound
  end.

Definition SetCurrentSupply (st : State) (subnetID : ID) (supply : Z) : State :=
  mkState (timestamp st) (currentValidators st) (currentDelegators st)
          (pendingValidators st) (pendingDelegators st)
          (<[subnetID := supply]> (currentSupply st)) (subnetTransformations st)
          (storedTxs st) (consumedUTXOs st) (producedUTXOs st).

(** [avax.Consume] deletes the UTXO of every input; [avax.Produce] adds one
    UTXO per output, keyed by the tx id and the output's position. *)
Definition Consume (st : State) (ins : list N) : State :=
  mkState (timestamp st) (currentValidators st) (currentDelegators st)
          (pendingValidators st) (pendingDelegators st) (currentSupply st)
          (subnetTransformations st) (storedTxs st)
          (consumedUTXOs st ++ ins) (producedUTXOs st).

Definition Produce (st : State) (txID : ID) (outs : list Output) : State :=
  mkState (timestamp st) (currentValidators st) (currentDelegators st)
          (pendingValidators st) (pendingDelegators st) (currentSupply st)
          (subnetTransformations st) (storedTxs st) (consumedUTXOs st)
          (producedUTXOs st ++ imap (fun i out => (txID, i, out)) outs).

(** The collaborators of the executor: the flow checker, the syntactic
    verification of the envelope, the delegation check, the subnet
    authorization, the feature extension and the reward calculator are
    consumed through their results. *)
Record Backend : Type := mkBackend {
  Cfg : Config;
  AVAXAssetID : ID;
  Bootstrapped : bool;
  SyntacticVerify : Tx -> option N;
  VerifySpend : Tx -> State -> list N -> list Output -> list N -> Z -> option N;
  canDelegate : State -> Staker -> Z -> Staker -> result N bool;
  verifyPoASubnetAuthorization : State -> Tx -> ID -> result N (list N);
  VerifyPermission : Tx -> N -> N -> N -> option N;
  GetRewardConfig : State -> ID -> option N;
  Calculate : ID -> Duration -> Z -> Z -> Z
}.

Definition check (failed : bool) (e : ExecError) : result ExecError unit :=
  if failed then Err e else Ok tt.

Definition syntacticVerify (backend : Backend) (sTx : Tx) : result ExecError unit :=
  match SyntacticVerify backend sTx with
  | Some cause => Err (ErrSyntactic cause)
  | None => Ok tt
  end.

Definition verifySpend (backend : Backend) (sTx : Tx) (chainState : State)
    (ins : list N) (outs : list Output) (creds : list N) (fee : Z)
  : result ExecError unit :=
  match VerifySpend backend sTx chainState ins outs creds fee with
  | Some cause => Err (ErrFlowCheckFailed cause)
  | None => Ok tt
  end.

(** [txs.BoundedBy]: the staking interval lies within the bounds. *)
Definition BoundedBy (stakerStart stakerEnd lowerBound upperBound : Time) : bool :=
  negb (stakerStart <? lowerBound) && negb (stakerEnd >? upperBound)
  && negb (stakerEnd <? stakerStart).

(** The start-time rule before the continuous-staking fork: the chain time
    must be before the stated start. *)
Definition startsAfter (isContinuousStakingForkActive : bool)
    (currentTimestamp preContinuousStakingStartTime : Time) : bool :=
  negb isContinuousStakingForkActive
  && negb (currentTimestamp <? preContinuousStakingStartTime).

(** The horizon rule, checked last: the stated start must not be after the
    chain time plus the horizon. *)
Definition startsTooFar (maxFutureStartTime : Duration)
    (isContinuousStakingForkActive : bool)
    (currentTimestamp preContinuousStakingStartTime : Time) : bool :=
  negb isContinuousStakingForkActive
  && (preContinuousStakingStartTime >? currentTimestamp + maxFutureStartTime).

Definition verifyAddValidatorTx (maxFutureStartTime : Duration)
    (backend : Backend) (chainState : State) (sTx : Tx) (tx : StakerTx)
  : result ExecError (list Output) :=
  let* _ := syntacticVerify backend sTx in
  let duration := StakingPeriod tx in
  let* _ := check (txWeight tx <? MinValidatorStake (Cfg backend)) ErrWeightTooSmall in
  let* _ := check (txWeight tx >? MaxValidatorStake (Cfg backend)) ErrWeightTooLarge in
  let* _ := check (DelegationShares tx <? MinDelegationFee (Cfg backend))
                  ErrInsufficientDelegationFee in
  let* _ := check (duration <? MinStakeDuration (Cfg backend)) ErrStakeTooShort in
  let* _ := check (duration >? MaxStakeDuration (Cfg backend)) ErrStakeTooLong in
  let outs := Outs tx ++ StakeOuts tx in
  if negb (Bootstrapped backend) then Ok outs
  else
    let currentTimestamp := GetTimestamp chainState in
    let preContinuousStakingStartTime := txStartTime tx in
    let isContinuousStakingForkActive :=
      IsContinuousStakingActivated (Cfg backend) currentTimestamp in
    let* _ := check (startsAfter isContinuousStakingForkActive currentTimestamp
                       preContinuousStakingStartTime)
                    ErrTimestampNotBeforeStartTime in
    match GetValidator chainState PrimaryNetworkID (txNodeID tx) with
    | Ok _ => Err ErrAlreadyValidator
    | Err e =>
        let* _ := check (negb (isErrNotFound e)) e in
        let* _ := verifySpend backend sTx chainState (Ins tx) outs (Creds sTx)
                    (AddPrimaryNetworkValidatorFee (Cfg backend)) in
        let* _ := check (startsTooFar maxFutureStartTime
                           isContinuousStakingForkActive currentTimestamp
                           preContinuousStakingStartTime)
                        ErrFutureStakeTime in
        Ok outs
    end.

Definition verifyAddSubnetValidatorTx (maxFutureStartTime : Duration)
    (backend : Backend) (chainState : State) (sTx : Tx) (tx : StakerTx)
  : result ExecError unit :=
  let* _ := syntacticVerify backend sTx in
  let stakingPeriod := StakingPeriod tx in
  let* _ := check (stakingPeriod <? MinStakeDuration (Cfg backend)) ErrStakeTooShort in
  let* _ := check (stakingPeriod >? MaxStakeDuration (Cfg backend)) ErrStakeTooLong in
  if negb (Bootstrapped backend) then Ok tt
  else
    let currentTimestamp := GetTimestamp chainState in
    let preContinuousStakingStartTime := txStartTime tx in
    let isContinuousStakingForkActive :=
      IsContinuousStakingActivated (Cfg backend) currentTimestamp in
    let* _ := check (startsAfter isContinuousStakingForkActive currentTimestamp
                       preContinuousStakingStartTime)
                    ErrTimestampNotBeforeStartTime in
    match GetValidator chainState (Subnet tx) (txNodeID tx) with
    | Ok _ => Err ErrDuplicateValidator
    | Err e =>
        let* _ := check (negb (isErrNotFound e)) e in
        match GetValidator chainState PrimaryNetworkID (txNodeID tx) with
        | Err e => if isErrNotFound e then Err ErrNotValidator else Err e
        | Ok primaryNetworkValidator =>
            let stakerStart :=
              if negb isContinuousStakingForkActive
              then preContinuousStakingStartTime else currentTimestamp in
            let stakerEnd :=
              if negb isContinuousStakingForkActive
              then txEndTime tx else currentTimestamp + StakingPeriod tx in
            let* _ := check (negb (BoundedBy stakerStart stakerEnd
                                     (StartTime primaryNetworkValidator)
                                     (EndTime primaryNetworkValidator)))
                            ErrValidatorSubset in
            match verifyPoASubnetAuthorization backend chainState sTx (Subnet tx) with
            | Err cause => Err (errSubnetAuthorization cause)
            | Ok baseTxCreds =>
                let* _ := verifySpend backend sTx chainState (Ins tx) (Outs tx)
                            baseTxCreds (AddSubnetValidatorFee (Cfg backend)) in
                let* _ := check (startsTooFar maxFutureStartTime
                                   isContinuousStakingForkActive currentTimestamp
                                   preContinuousStakingStartTime)
                                ErrFutureStakeTime in
                Ok tt
            end
        end
    end.

(** The delegation cap of [verifyAddDelegatorTx] (lines 423-430): five times
    the validator's weight, an overflow being an error, capped by the maximum
    validator stake once Apricot Phase 3 is active. *)
Definition addDelegatorMaximumWeight (cfg : Config) (currentTimestamp : Time)
    (validatorWeight : Z) : result ExecError Z :=
  match Mul64 MaxValidatorWeightFactor validatorWeight with
  | None => Err ErrStakeOverflow
  | Some maximumWeight =>
      if IsApricotPhase3Activated cfg currentTimestamp
      then Ok (Z.min maximumWeight (MaxValidatorStake cfg))
      else Ok maximumWeight
  end.

(** The staker the delegation check is made for. *)
Definition newStakerFor (isContinuousStakingForkActive : bool) (txID : ID)
    (tx : StakerTx) (currentTimestamp : Time) : result ExecError Staker :=
  if isContinuousStakingForkActive
  then NewCurrentStaker txID tx currentTimestamp MaxTime 0
  else NewPendingStaker txID tx.

Definition checkCanDelegate (backend : Backend) (chainState : State)
    (validator : Staker) (maximumWeight : Z) (newStaker : Staker)
  : result ExecError unit :=
  match canDelegate backend chainState validator maximumWeight newStaker with
  | Err cause => Err (errCanDelegate cause)
  | Ok ok => check (negb ok) ErrOverDelegated
  end.

Definition verifyAddDelegatorTx (maxFutureStartTime : Duration)
    (backend : Backend) (chainState : State) (sTx : Tx) (tx : StakerTx)
  : result ExecError (list Output * Time) :=
  let* _ := syntacticVerify backend sTx in
  let duration := StakingPeriod tx in
  let* _ := check (duration <? MinStakeDuration (Cfg backend)) ErrStakeTooShort in
  let* _ := check (duration >? MaxStakeDuration (Cfg backend)) ErrStakeTooLong in
  let* _ := check (txWeight tx <? MinDelegatorStake (Cfg backend)) ErrWeightTooSmall in
  let outs := Outs tx ++ StakeOuts tx in
  let* primaryNetworkValidator :=
    GetValidator chainState PrimaryNetworkID (txNodeID tx) in
  if negb (Bootstrapped backend) then Ok (outs, EndTime primaryNetworkValidator)
  else
    let currentTimestamp := GetTimestamp chainState in
    let preContinuousStakingStartTime := txStartTime tx in
    let isContinuousStakingForkActive :=
      IsContinuousStakingActivated (Cfg backend) currentTimestamp in
    let* _ := check (startsAfter isContinuousStakingForkActive currentTimestamp
                       preContinuousStakingStartTime)
                    ErrTimestampNotBeforeStartTime in
    let* maximumWeight :=
      addDelegatorMaximumWeight (Cfg backend) currentTimestamp
        (Weight primaryNetworkValidator) in
    let* newStaker :=
      newStakerFor isContinuousStakingForkActive (txID sTx) tx currentTimestamp in
    let* _ := checkCanDelegate backend chainState primaryNetworkValidator
                maximumWeight newStaker in
    let* _ := verifySpend backend sTx chainState (Ins tx) outs (Creds sTx)
                (AddPrimaryNetworkDelegatorFee (Cfg backend)) in
    let* _ := check (startsTooFar maxFutureStartTime
                       isContinuousStakingForkActive currentTimestamp
                       preContinuousStakingStartTime)
                    ErrFutureStakeTime in
    Ok (outs, EndTime primaryNetworkValidator).

Record addValidatorRules : Type := mkAddValidatorRules {
  vr_assetID : ID;
  vr_minValidatorStake : Z;
  vr_maxValidatorStake : Z;
  vr_minStakeDuration : Duration;
  vr_maxStakeDuration : Duration;
  vr_minDelegationFee : Z
}.

Definition GetSubnetTransformation (st : State) (subnetID : ID)
  : result ExecError (option TransformSubnetTx) :=
  match subnetTransformations st !! subnetID with
  | Some tx => Ok tx
  | None => Err ErrNotFound
  end.

Definition getValidatorRules (backend : Backend) (chainState : State)
    (subnetID : ID) : result ExecError addValidatorRules :=
  if N.eqb subnetID PrimaryNetworkID then
    Ok (mkAddValidatorRules (AVAXAssetID backend)
          (MinValidatorStake (Cfg backend)) (MaxValidatorStake (Cfg backend))
          (MinStakeDuration (Cfg backend)) (MaxStakeDuration (Cfg backend))
          (MinDelegationFee (Cfg backend)))
  else
    let* transformSubnetIntf := GetSubnetTransformation chainState subnetID in
    match transformSubnetIntf with
    | None => Err ErrIsNotTransformSubnetTx
    | Some transformSubnet =>
        Ok (mkAddValidatorRules (tsAssetID transformSubnet)
              (tsMinValidatorStake transformSubnet)
              (tsMaxValidatorStake transformSubnet)
              (tsMinStakeDuration transformSubnet)
              (tsMaxStakeDuration transformSubnet)
              (tsMinDelegationFee transformSubnet))
    end.

(** [tx.StakeOuts[0].AssetID()]; indexing an empty slice stops the
    verification. *)
Definition stakedAssetIDOf (tx : StakerTx) : result ExecError ID :=
  match StakeOuts tx with
  | [] => Err errIndexOutOfRange
  | out :: _ => Ok (AssetID out)
  end.

Definition verifyAddPermissionlessValidatorTx (maxFutureStartTime : Duration)
    (backend : Backend) (chainState : State) (sTx : Tx) (tx : StakerTx)
  : result ExecError unit :=
  let* _ := syntacticVerify backend sTx in
  if negb (Bootstrapped backend) then Ok tt
  else
    let currentTimestamp := GetTimestamp chainState in
    let preContinuousStakingStartTime := txStartTime tx in
    let isContinuousStakingForkActive :=
      IsContinuousStakingActivated (Cfg backend) currentTimestamp in
    let* _ := check (startsAfter isContinuousStakingForkActive currentTimestamp
                       preContinuousStakingStartTime)
                    ErrTimestampNotBeforeStartTime in
    let* validatorRules := getValidatorRules backend chainState (Subnet tx) in
    let stakingPeriod := StakingPeriod tx in
    let* stakedAssetID := stakedAssetIDOf tx in
    let* _ := check (txWeight tx <? vr_minValidatorStake validatorRules)
                    ErrWeightTooSmall in
    let* _ := check (txWeight tx >? vr_maxValidatorStake validatorRules)
                    ErrWeightTooLarge in
    let* _ := check (DelegationShares tx <? vr_minDelegationFee validatorRules)
                    ErrInsufficientDelegationFee in
    let* _ := check (stakingPeriod <? vr_minStakeDuration validatorRules)
                    ErrStakeTooShort in
    let* _ := check (stakingPeriod >? vr_maxStakeDuration validatorRules)
                    ErrStakeTooLong in
    let* _ := check (negb (N.eqb stakedAssetID (vr_assetID validatorRules)))
                    ErrWrongStakedAssetID in
    match GetValidator chainState (Subnet tx) (txNodeID tx) with
    | Ok _ => Err ErrDuplicateValidator
    | Err e =>
        let* _ := check (negb (isErrNotFound e)) e in
        let* txFee :=
          if negb (N.eqb (Subnet tx) PrimaryNetworkID) then
            let* primaryNetworkValidator :=
              GetValidator chainState PrimaryNetworkID (txNodeID tx) in
            let stakerStart :=
              if negb isContinuousStakingForkActive
              then preContinuousStakingStartTime else currentTimestamp in
            let stakerEnd :=
              if negb isContinuousStakingForkActive
              then txEndTime tx else currentTimestamp + StakingPeriod tx in
            let* _ := check (negb (BoundedBy stakerStart stakerEnd
                                     (StartTime primaryNetworkValidator)
                                     (EndTime primaryNetworkValidator)))
                            ErrValidatorSubset in
            Ok (AddSubnetValidatorFee (Cfg backend))
          else Ok (AddPrimaryNetworkValidatorFee (Cfg backend)) in
        let outs := Outs tx ++ StakeOuts tx in
        let* _ := verifySpend backend sTx chainState (Ins tx) outs (Creds sTx)
                    txFee in
        let* _ := check (startsTooFar maxFutureStartTime
                           isContinuousStakingForkActive currentTimestamp
                           preContinuousStakingStartTime)
                        ErrFutureStakeTime in
        Ok tt
    end.

Record addDelegatorRules : Type := mkAddDelegatorRules {
  dr_assetID : ID;
  dr_minDelegatorStake : Z;
  dr_maxValidatorStake : Z;
  dr_minStakeDuration : Duration;
  dr_maxStakeDuration : Duration;
  dr_maxValidatorWeightFactor : Z
}.

Definition getDelegatorRules (backend : Backend) (chainState : State)
    (subnetID : ID) : result ExecError addDelegatorRules :=
  if N.eqb subnetID PrimaryNetworkID then
    Ok (mkAddDelegatorRules (AVAXAssetID backend)
          (MinDelegatorStake (Cfg backend)) (MaxValidatorStake (Cfg backend))
          (MinStakeDuration (Cfg backend)) (MaxStakeDuration (Cfg backend))
          MaxValidatorWeightFactor)
  else
    let* transformSubnetIntf := GetSubnetTransformation chainState subnetID in
    match transformSubnetIntf with
    | None => Err ErrIsNotTransformSubnetTx
    | Some transformSubnet =>
        Ok (mkAddDelegatorRules (tsAssetID transformSubnet)
              (tsMinDelegatorStake transformSubnet)
              (tsMaxValidatorStake transformSubnet)
              (tsMinStakeDuration transformSubnet)
              (tsMaxStakeDuration transformSubnet)
              (tsMaxValidatorWeightFactor transformSubnet))
    end.

(** The delegation cap of [verifyAddPermissionlessDelegatorTx] (lines
    756-763): the subnet's factor times the validator's weight, an overflow
    giving the largest 64-bit value, capped by the maximum validator stake. *)
Definition permissionlessDelegatorMaximumWeight (delegatorRules : addDelegatorRules)
    (validatorWeight : Z) : Z :=
  let maximumWeight :=
    match Mul64 (dr_maxValidatorWeightFactor delegatorRules) validatorWeight with
    | None => MaxUint64
    | Some maximumWeight => maximumWeight
    end in
  Z.min maximumWeight (dr_maxValidatorStake delegatorRules).

Definition verifyAddPermissionlessDelegatorTx (maxFutureStartTime : Duration)
    (backend : Backend) (chainState : State) (sTx : Tx) (tx : StakerTx)
  : result ExecError Time :=
  let* _ := syntacticVerify backend sTx in
  let* validator := GetValidator chainState (Subnet tx) (txNodeID tx) in
  if negb (Bootstrapped backend) then Ok (EndTime validator)
  else
    let currentTimestamp := GetTimestamp chainState in
    let preContinuousStakingStartTime := txStartTime tx in
    let isContinuousStakingForkActive :=
      IsContinuousStakingActivated (Cfg backend) currentTimestamp in
    let* _ := check (startsAfter isContinuousStakingForkActive currentTimestamp
                       preContinuousStakingStartTime)
                    errChainTimestampNotBeforeStart in
    let* delegatorRules := getDelegatorRules backend chainState (Subnet tx) in
    let duration := StakingPeriod tx in
    let* stakedAssetID := stakedAssetIDOf tx in
    let* _ := check (txWeight tx <? dr_minDelegatorStake delegatorRules)
                    ErrWeightTooSmall in
    let* _ := check (duration <? dr_minStakeDuration delegatorRules)
                    ErrStakeTooShort in
    let* _ := check (duration >? dr_maxStakeDuration delegatorRules)
                    ErrStakeTooLong in
    let* _ := check (negb (N.eqb stakedAssetID (dr_assetID delegatorRules)))
                    ErrWrongStakedAssetID in
    let maximumWeight :=
      permissionlessDelegatorMaximumWeight delegatorRules (Weight validator) in
    let* newStaker :=
      newStakerFor isContinuousStakingForkActive (txID sTx) tx currentTimestamp in
    let* _ := checkCanDelegate backend chainState validator maximumWeight
                newStaker in
    let outs := Outs tx ++ StakeOuts tx in
    let* txFee :=
      if negb (N.eqb (Subnet tx) PrimaryNetworkID) then
        let* _ := check (IsPermissionedValidator (sPriority validator))
                        ErrDelegateToPermissionedValidator in
        Ok (AddSubnetDelegatorFee (Cfg backend))
      else Ok (AddPrimaryNetworkDelegatorFee (Cfg backend)) in
    let* _ := verifySpend backend sTx chainState (Ins tx) outs (Creds sTx) txFee in
    let* _ := check (startsTooFar maxFutureStartTime
                       isContinuousStakingForkActive currentTimestamp
                       preContinuousStakingStartTime)
                    ErrFutureStakeTime in
    Ok (EndTime validator).

Definition GetTx (st : State) (txID : ID) : option StoredTx := storedTxs st !! txID.

Definition verifyStopStakerAuthorization (backend : Backend) (chainState : State)
    (sTx : Tx) (stakerTxID : ID) (stakerAuth : N) : result ExecError (list N) :=
  match last (Creds sTx) with
  | None => Err errWrongNumberOfCredentials
  | Some stakerCred =>
      let baseTxCredsLen := (length (Creds sTx) - 1)%nat in
      match GetTx chainState stakerTxID with
      | None => Err errStakerTxNotFound
      | Some stakerTx =>
          let* stakerOwner :=
            match stakerTx with
            | StoredValidatorTx owner => Ok owner
            | StoredDelegatorTx owner => Ok owner
            | StoredAddSubnetValidatorTx subnet =>
                match GetTx chainState subnet with
                | None => Err errSubnetTxNotFound
                | Some (StoredCreateSubnetTx owner) => Ok owner
                | Some _ => Err ErrWrongTxType
                end
            | _ => Err errUnhandledStakerType
            end in
          match VerifyPermission backend sTx stakerAuth stakerCred stakerOwner with
          | Some cause => Err (ErrUnauthorizedStakerStopping cause)
          | None => Ok (take baseTxCredsLen (Creds sTx))
          end
      end
  end.

Definition verifyStopStakerTx (backend : Backend) (chainState : State)
    (sTx : Tx) (tx : StopStakerTx) : result ExecError (list Staker * Time) :=
  if negb (IsContinuousStakingActivated (Cfg backend) (GetTimestamp chainState))
  then Err errStopBeforeContinuousStaking
  else
    let* _ := syntacticVerify backend sTx in
    let txID := stopTxID tx in
    let* stakersIt := GetCurrentStakerIterator chainState in
    match find (hasTxID txID) stakersIt with
    | None => Err errStakerToStopNotFound
    | Some stakerToStop =>
        let* _ :=
          if Bootstrapped backend then
            let* baseTxCreds :=
              verifyStopStakerAuthorization backend chainState sTx txID
                (StakerAuth tx) in
            verifySpend backend sTx chainState (stopIns tx) (stopOuts tx)
              baseTxCreds (TxFee (Cfg backend))
          else Ok tt in
        if negb (IsValidator (sPriority stakerToStop))
           || negb (N.eqb (SubnetID stakerToStop) PrimaryNetworkID)
        then Ok ([stakerToStop], EarliestStopTime stakerToStop)
        else
          let* stakersIt := GetCurrentStakerIterator chainState in
          let res :=
            [stakerToStop] ++
            filter (fun staker =>
                      N.eqb (sNodeID staker) (sNodeID stakerToStop)
                      && negb (N.eqb (TxID staker) (TxID stakerToStop)) = true)
                   stakersIt in
          Ok (res, EarliestStopTime stakerToStop)
    end.

(** [addStakerFromStakerTx] creates the staker and adds it to the state. *)
Definition addStakerFromStakerTx (backend : Backend) (st : State) (sTx : Tx)
    (stakerTx : StakerTx) (chainTime endTimeBound : Time)
  : result ExecError State :=
  let txID := txID sTx in
  let* (st, staker) :=
    if negb (IsContinuousStakingActivated (Cfg backend) chainTime) then
      let* staker := NewPendingStaker txID stakerTx in
      Ok (st, staker)
    else
      let stakeDuration := StakingPeriod stakerTx in
      let* (st, potentialReward) :=
        if negb (Priority_eqb (CurrentPriority stakerTx)
                   SubnetPermissionedValidatorCurrentPriority) then
          let subnetID := txSubnetID stakerTx in
          let* currentSupply := GetCurrentSupply st subnetID in
          match GetRewardConfig backend st subnetID with
          | Some cause => Err (errRewardConfig cause)
          | None =>
              let potentialReward :=
                Calculate backend subnetID stakeDuration (txWeight stakerTx)
                  currentSupply in
              let updatedSupply := wrap64 (currentSupply + potentialReward) in
              Ok (SetCurrentSupply st subnetID updatedSupply, potentialReward)
          end
        else Ok (st, 0) in
      let* staker :=
        NewCurrentStaker txID stakerTx chainTime endTimeBound potentialReward in
      Ok (st, staker) in
  let priority := sPriority staker in
  if IsCurrentValidator priority then Ok (PutCurrentValidator st staker)
  else if IsCurrentDelegator priority then Ok (PutCurrentDelegator st staker)
  else if IsPendingValidator priority then Ok (PutPendingValidator st staker)
  else if IsPendingDelegator priority then Ok (PutPendingDelegator st staker)
  else Ok st.

(** The visitor methods of [StandardTxExecutor] for the staking
    transactions. *)
Definition execAddValidatorTx (maxFutureStartTime : Duration) (e : Backend)
    (st : State) (sTx : Tx) (tx : StakerTx) : result ExecError State :=
  let* _ := check (N.eqb (txNodeID tx) EmptyNodeID) errEmptyNodeID in
  let* _ := verifyAddValidatorTx maxFutureStartTime e st sTx tx in
  let* st := addStakerFromStakerTx e st sTx tx (GetTimestamp st) MaxTime in
  Ok (Produce (Consume st (Ins tx)) (txID sTx) (Outs tx)).

Definition execAddSubnetValidatorTx (maxFutureStartTime : Duration) (e : Backend)
    (st : State) (sTx : Tx) (tx : StakerTx) : result ExecError State :=
  let* _ := verifyAddSubnetValidatorTx maxFutureStartTime e st sTx tx in
  let chainTime := GetTimestamp st in
  let* st := addStakerFromStakerTx e st sTx tx chainTime
               (chainTime + StakingPeriod tx) in
  Ok (Produce st (txID sTx) (Outs tx)).

Definition execAddDelegatorTx (maxFutureStartTime : Duration) (e : Backend)
    (st : State) (sTx : Tx) (tx : StakerTx) : result ExecError State :=
  let* (_, primaryValidatorEndTime) :=
    verifyAddDelegatorTx maxFutureStartTime e st sTx tx in
  let* st := addStakerFromStakerTx e st sTx tx (GetTimestamp st)
               primaryValidatorEndTime in
  Ok (Produce (Consume st (Ins tx)) (txID sTx) (Outs tx)).

Definition execAddPermissionlessValidatorTx (maxFutureStartTime : Duration)
    (e : Backend) (st : State) (sTx : Tx) (tx : StakerTx)
  : result ExecError State :=
  let* _ := verifyAddPermissionlessValidatorTx maxFutureStartTime e st sTx tx in
  let chainTime := GetTimestamp st in
  let* st :=
    if N.eqb (txSubnetID tx) PrimaryNetworkID
    then addStakerFromStakerTx e st sTx tx chainTime MaxTime
    else addStakerFromStakerTx e st sTx tx chainTime
           (chainTime + StakingPeriod tx) in
  Ok (Produce (Consume st (Ins tx)) (txID sTx) (Outs tx)).

Definition execAddPermissionlessDelegatorTx (maxFutureStartTime : Duration)
    (e : Backend) (st : State) (sTx : Tx) (tx : StakerTx)
  : result ExecError State :=
  let* primaryValidatorEndTime :=
    verifyAddPermissionlessDelegatorTx maxFutureStartTime e st sTx tx in
  let* st := addStakerFromStakerTx e st sTx tx (GetTimestamp st)
               primaryValidatorEndTime in
  Ok (Produce (Consume st (Ins tx)) (txID sTx) (Outs tx)).

(** The loop of [StopStakerTx] over the stakers to stop. *)
Fixpoint stopStakers (st : State) (stakers : list Staker) (stopTime : Time)
  : result ExecError State :=
  match stakers with
  | [] => Ok st
  | toStop :: rest =>
      let toStop := MarkStakerForRemovalInPlaceBeforeTime toStop stopTime in
      let* st :=
        if IsValidator (sPriority toStop)
        then UpdateCurrentValidator st toStop
        else UpdateCurrentDelegator st toStop in
      stopStakers st rest stopTime
  end.

Definition execStopStakerTx (e : Backend) (st : State) (sTx : Tx)
    (tx : StopStakerTx) : result ExecError State :=
  let* (stakers, stopTime) := verifyStopStakerTx e st sTx tx in
  let* st := stopStakers st stakers stopTime in
  Ok (Produce (Consume st (stopIns tx)) (txID sTx) (stopOuts tx)).

(** The dispatch of the visitor on the staking variant. *)
Definition verifyStakerTx (maxFutureStartTime : Duration) (backend : Backend)
    (chainState : State) (sTx : Tx) (tx : StakerTx) : result ExecError unit :=
  match txKind tx with
  | AddValidatorTx =>
      let* _ := verifyAddValidatorTx maxFutureStartTime backend chainState sTx tx in
      Ok tt
  | AddSubnetValidatorTx =>
      verifyAddSubnetValidatorTx maxFutureStartTime backend chainState sTx tx
  | AddDelegatorTx =>
      let* _ := verifyAddDelegatorTx maxFutureStartTime backend chainState sTx tx in
      Ok tt
  | AddPermissionlessValidatorTx =>
      verifyAddPermissionlessValidatorTx maxFutureStartTime backend chainState sTx tx
  | AddPermissionlessDelegatorTx =>
      let* _ := verifyAddPermissionlessDelegatorTx maxFutureStartTime backend
                  chainState sTx tx in
      Ok tt
  end.

Definition execStakerTx (maxFutureStartTime : Duration) (e : Backend)
    (st : State) (sTx : Tx) (tx : StakerTx) : result ExecError State :=
  match txKind tx with
  | AddValidatorTx => execAddValidatorTx maxFutureStartTime e st sTx tx
  | AddSubnetValidatorTx => execAddSubnetValidatorTx maxFutureStartTime e st sTx tx
  | AddDelegatorTx => execAddDelegatorTx maxFutureStartTime e st sTx tx
  | AddPermissionlessValidatorTx =>
      execAddPermissionlessValidatorTx maxFutureStartTime e st sTx tx
  | AddPermissionlessDelegatorTx =>
      execAddPermissionlessDelegatorTx maxFutureStartTime e st sTx tx
  end.






(** Concrete configurations for the examples: a chain at time 1000 before
    the continuous-staking fork (active from 5000 on), with a primary-network
    validator on node 7 and a very heavy one on node 8. *)
Definition exampleConfig : Config :=
  mkConfig 100 3000 10 2 10 1000000 1 0 0 1 1 0 5000.

Definition exampleBackend (bootstrapped : bool) : Backend :=
  mkBackend exampleConfig 0%N bootstrapped
    (fun _ => None)
    (fun _ _ _ _ _ _ => None)
    (fun _ validator maximumWeight newStaker =>
       Ok (Weight validator + Weight newStaker <=? maximumWeight))
    (fun _ sTx _ => Ok (Creds sTx))
    (fun _ _ _ _ => None)
    (fun _ _ => None)
    (fun _ _ _ _ => 0).

Definition exampleValidator : Staker :=
  mkStaker 11 7 PrimaryNetworkID 1000 0 900000 900000 0
           (mkPriority Current NetworkValidator).

Definition heavyValidator : Staker :=
  mkStaker 21 8 PrimaryNetworkID (2 ^ 62) 0 900000 900000 0
           (mkPriority Current NetworkValidator).

Definition exampleDelegator (txID : N) (nodeID : N) : Staker :=
  mkStaker txID nodeID PrimaryNetworkID 50 0 800000 800000 0
           (mkPriority Current NetworkDelegator).

Definition exampleSubnetValidator : Staker :=
  mkStaker 14 7 9 1 0 700000 700000 0
           (mkPriority Current SubnetPermissionedValidator).

Definition exampleState (now : Time) : State :=
  mkState now
    [exampleValidator; heavyValidator; exampleSubnetValidator]
    [exampleDelegator 12 7; exampleDelegator 13 7; exampleDelegator 15 8]
    [] [] {[PrimaryNetworkID := 1000000]} ∅
    {[11%N := StoredValidatorTx 1]} [] [].

Definition exampleStakerTx (k : AddKind) (nodeID : N) (start end_ weight : Z)
  : StakerTx :=
  mkStakerTx k (mkValidator nodeID start end_ weight) PrimaryNetworkID 2
             [1%N] [] [mkOutput 0%N weight].

Definition exampleTx (tx : StakerTx) : Tx := mkTx (UStaker tx) [1%N] 99.

Definition exampleStopTx : StopStakerTx := mkStopStakerTx 11 0 [] [].

Definition exampleStopSignedTx : Tx := mkTx (UStopStaker exampleStopTx) [1%N; 2%N] 98.

(** The state after node 7's validator has been stopped at time 6000. *)
Definition stoppedExampleState : State :=
  match execStopStakerTx (exampleBackend true) (exampleState 6000)
          exampleStopSignedTx exampleStopTx with
  | Ok st => st
  | Err _ => exampleState 6000
  end.

(** [txs.RemoveSubnetValidatorTx], as far as the executor reads it. *)
Record RemoveSubnetValidatorTx : Type := mkRemoveSubnetValidatorTx {
  rmNodeID : NodeID;
  rmSubnet : ID;
  rmIns : list N;
  rmOuts : list Output
}.

(** [removeSubnetValidatorValidation] (lines 294-352). The subnet
    authorization is consumed through its result, [verifySubnetAuthorization];
    the second component of the result is [isCurrentValidator]. *)
Definition removeSubnetValidatorValidation
    (verifySubnetAuthorization : State -> Tx -> ID -> result N (list N))
    (backend : Backend) (chainState : State) (sTx : Tx)
    (tx : RemoveSubnetValidatorTx) : result ExecError (Staker * bool) :=
  let* _ := syntacticVerify backend sTx in
  let* (vdr, isCurrentValidator) :=
    match GetCurrentValidator chainState (rmSubnet tx) (rmNodeID tx) with
    | Ok vdr => Ok (vdr, true)
    | Err e =>
        if isErrNotFound e then
          match GetPendingValidator chainState (rmSubnet tx) (rmNodeID tx) with
          | Ok vdr => Ok (vdr, false)
          | Err _ => Err ErrNotValidator
          end
        else Err ErrNotValidator
    end in
  let* _ := check (negb (IsPermissionedValidator (sPriority vdr)))
                  ErrRemovePermissionlessValidator in
  if negb (Bootstrapped backend) then Ok (vdr, isCurrentValidator)
  else
    match verifySubnetAuthorization chainState sTx (rmSubnet tx) with
    | Err cause => Err (errSubnetAuthorization cause)
    | Ok baseTxCreds =>
        let* _ := verifySpend backend sTx chainState (rmIns tx) (rmOuts tx)
                    baseTxCreds (TxFee (Cfg backend)) in
        Ok (vdr, isCurrentValidator)
    end.

(** [StandardTxExecutor.RemoveSubnetValidatorTx]. The two deletions of the
    state diff are consumed as functions on the state. *)
Definition execRemoveSubnetValidatorTx
    (verifySubnetAuthorization : State -> Tx -> ID -> result N (list N))
    (DeleteCurrentValidator DeletePendingValidator : State -> Staker -> State)
    (e : Backend) (st : State) (sTx : Tx) (tx : RemoveSubnetValidatorTx)
  : result ExecError State :=
  let* (staker, isCurrentValidator) :=
    removeSubnetValidatorValidation verifySubnetAuthorization e st sTx tx in
  let st :=
    if isCurrentValidator : bool then DeleteCurrentValidator st staker
    else DeletePendingValidator st staker in
  Ok (Produce (Consume st (rmIns tx)) (txID sTx) (rmOuts tx)).

(** A state in which node 7 validates subnet 9 both as a current and as a
    pending validator, and node 8 validates subnet 9 without permission. *)
Definition exampleRemoveState : State :=
  mkState 1000
    [exampleValidator; exampleSubnetValidator;
     mkStaker 31 8 9 1 0 700000 700000 0
       (mkPriority Current SubnetPermissionlessValidator)]
    []
    [mkStaker 32 7 9 1 800000 900000 900000 0
       (mkPriority Pending SubnetPermissionedValidator)]
    [] {[PrimaryNetworkID := 1000000]} ∅ ∅ [] [].

Definition exampleRemoveTx (nodeID : N) : RemoveSubnetValidatorTx :=
  mkRemoveSubnetValidatorTx nodeID 9 [1%N] [].

Definition exampleRemoveSignedTx : Tx :=
  mkTx (UStopStaker exampleStopTx) [1%N; 2%N] 97.

End Staking.

(** ** Validator manager (vms/platformvm/validators/manager.go) *)

Module Validators.

Abbreviation ID := N (only parsing).
Abbreviation NodeID := N (only parsing).

Definition PrimaryNetworkID : ID := 0%N.
Definition PlatformChainID : ID := 0%N.

Inductive ManagerError : Type :=
| ErrNotFound
| ErrMissingValidator
| ErrMissingValidatorSet
| errState (cause : N).

(** [validators.GetValidatorOutput]; the public key is a pointer and may be
    nil. *)
Record GetValidatorOutput : Type := mkGetValidatorOutput {
  NodeID_ : NodeID;
  PublicKey : option N;
  Weight : Z
}.

(** Modelled from the spec: the [State] the manager consumes. The diff log
    holds, for each height, the weight diffs of each subnet and the
    public-key diffs; applying the diffs of one height to a validator set
    gives the set as it was before that height was accepted.
    [ApplyValidatorWeightDiffs] and [ApplyValidatorPublicKeyDiffs] apply the
    diffs of the heights from [startHeight] down to [endHeight], both
    included, in that order. *)
Record State : Type := mkState {
  lastAcceptedHeight : result ManagerError Z;
  ValidatorSet : ID -> result ManagerError (gmap N GetValidatorOutput);
  weightDiffAt : ID -> Z -> gmap N GetValidatorOutput ->
                 result ManagerError (gmap N GetValidatorOutput);
  publicKeyDiffAt : Z -> gmap N GetValidatorOutput ->
                    result ManagerError (gmap N GetValidatorOutput)
}.

(** The heights from [height] downwards, [n] of them. *)
Fixpoint applyDown (diffAt : Z -> gmap N GetValidatorOutput ->
                             result ManagerError (gmap N GetValidatorOutput))
    (n : nat) (height : Z) (validators : gmap N GetValidatorOutput)
  : result ManagerError (gmap N GetValidatorOutput) :=
  match n with
  | O => Ok validators
  | S n' =>
      let* validators := diffAt height validators in
      applyDown diffAt n' (height - 1) validators
  end.

Definition ApplyValidatorWeightDiffs (st : State)
    (validators : gmap N GetValidatorOutput) (startHeight endHeight : Z)
    (subnetID : ID) : result ManagerError (gmap N GetValidatorOutput) :=
  applyDown (weightDiffAt st subnetID) (Z.to_nat (startHeight - endHeight + 1))
    startHeight validators.

Definition ApplyValidatorPublicKeyDiffs (st : State)
    (validators : gmap N GetValidatorOutput) (startHeight endHeight : Z)
  : result ManagerError (gmap N GetValidatorOutput) :=
  applyDown (publicKeyDiffAt st) (Z.to_nat (startHeight - endHeight + 1))
    startHeight validators.

(** The manager: its state and the validator sets held in memory
    ([cfg.Validators]). *)
Record manager : Type := mkManager {
  state : State;
  cfgValidators : gmap N (gmap N GetValidatorOutput)
}.

Definition getCurrentHeight (m : manager) : result ManagerError Z :=
  lastAcceptedHeight (state m).

Definition getCurrentPrimaryValidatorSet (m : manager)
  : result ManagerError (gmap N GetValidatorOutput * Z) :=
  match cfgValidators m !! PrimaryNetworkID with
  | None => Err ErrMissingValidatorSet
  | Some currentValidators =>
      let* currentHeight := getCurrentHeight m in
      Ok (currentValidators, currentHeight)
  end.

Definition makePrimaryNetworkValidatorSet (m : manager) (targetHeight : Z)
  : result ManagerError (gmap N GetValidatorOutput * Z) :=
  let* (validatorSet, currentHeight) := getCurrentPrimaryValidatorSet m in
  if currentHeight <? targetHeight then Err ErrNotFound
  else
    let lastDiffHeight := wrap64 (targetHeight + 1) in
    let* validatorSet :=
      ApplyValidatorWeightDiffs (state m) validatorSet currentHeight
        lastDiffHeight PlatformChainID in
    let* validatorSet :=
      ApplyValidatorPublicKeyDiffs (state m) validatorSet currentHeight
        lastDiffHeight in
    Ok (validatorSet, currentHeight).

Definition getCurrentValidatorSets (m : manager) (subnetID : ID)
  : result ManagerError
      (gmap N GetValidatorOutput * gmap N GetValidatorOutput * Z) :=
  let* currentSubnetValidators :=
    match cfgValidators m !! subnetID with
    | Some vdrs => Ok vdrs
    | None => ValidatorSet (state m) subnetID
    end in
  match cfgValidators m !! PrimaryNetworkID with
  | None => Err ErrMissingValidatorSet
  | Some currentPrimaryValidators =>
      let* currentHeight := getCurrentHeight m in
      Ok (currentSubnetValidators, currentPrimaryValidators, currentHeight)
  end.

(** The loop of [makeSubnetValidatorSet] that gives every subnet validator
    the public key of its primary-network validator. *)
Definition overlayPublicKeys
    (subnetValidatorSet primaryValidatorSet : gmap N GetValidatorOutput)
  : result ManagerError (gmap N GetValidatorOutput) :=
  if bool_decide (dom subnetValidatorSet ⊆ dom primaryValidatorSet) then
    Ok (merge (fun vdr primaryVdr =>
                 match vdr with
                 | Some vdr =>
                     Some (mkGetValidatorOutput (NodeID_ vdr)
                             (primaryVdr ≫= PublicKey) (Weight vdr))
                 | None => None
                 end) subnetValidatorSet primaryValidatorSet)
  else Err ErrMissingValidator.

Definition makeSubnetValidatorSet (m : manager) (targetHeight : Z)
    (subnetID : ID) : result ManagerError (gmap N GetValidatorOutput * Z) :=
  let* (subnetValidatorSet, primaryValidatorSet, currentHeight) :=
    getCurrentValidatorSets m subnetID in
  if currentHeight <? targetHeight then Err ErrNotFound
  else
    let lastDiffHeight := wrap64 (targetHeight + 1) in
    let* subnetValidatorSet :=
      ApplyValidatorWeightDiffs (state m) subnetValidatorSet currentHeight
        lastDiffHeight subnetID in
    let* subnetValidatorSet :=
      overlayPublicKeys subnetValidatorSet primaryValidatorSet in
    let* subnetValidatorSet :=
      ApplyValidatorPublicKeyDiffs (state m) subnetValidatorSet currentHeight
        lastDiffHeight in
    Ok (subnetValidatorSet, currentHeight).

(** [GetValidatorSet], without the cache and the metrics. The manager is
    returned next to the result: the reconstruction works on a copy of the
    sets held in memory. *)
Definition GetValidatorSet (m : manager) (targetHeight : Z) (subnetID : ID)
  : manager * result ManagerError (gmap N GetValidatorOutput) :=
  let r :=
    if N.eqb subnetID PrimaryNetworkID
    then makePrimaryNetworkValidatorSet m targetHeight
    else makeSubnetValidatorSet m targetHeight subnetID in
  (m, let* (validatorSet, _) := r in Ok validatorSet).

(** The current set of the subnet the reconstruction starts from. *)
Definition currentSetOf (m : manager) (subnetID : ID)
  : result ManagerError (gmap N GetValidatorOutput) :=
  match cfgValidators m !! subnetID with
  | Some vdrs => Ok vdrs
  | None => ValidatorSet (state m) subnetID
  end.

(** The heights above [targetHeight] up to [currentHeight], highest first. *)
Definition heightsDown (currentHeight targetHeight : Z) : list Z :=
  reverse (seqZ (targetHeight + 1) (currentHeight - targetHeight)).

(** Applying the diffs of a list of heights, in the order of the list. *)
Definition applyHeights
    (diffAt : Z -> gmap N GetValidatorOutput ->
              result ManagerError (gmap N GetValidatorOutput))
    (heights : list Z) (validators : gmap N GetValidatorOutput)
  : result ManagerError (gmap N GetValidatorOutput) :=
  fold_left (fun r height => let* validators := r in diffAt height validators)
            heights (Ok validators).

(** A manager at height 5 whose diff of height [h] takes [h] off the weight
    of node 1, with a subnet 9 validated by the same node. *)
Definition exampleWeightDiff (_ : ID) (height : Z)
    (validators : gmap N GetValidatorOutput)
  : result ManagerError (gmap N GetValidatorOutput) :=
  Ok ((fun vdr => mkGetValidatorOutput (NodeID_ vdr) (PublicKey vdr)
                    (Weight vdr - height)) <$> validators).

Definition exampleState : State :=
  mkState (Ok 5) (fun _ => Err ErrNotFound) exampleWeightDiff
          (fun _ validators => Ok validators).

Definition exampleManager : manager :=
  mkManager exampleState
    (<[PrimaryNetworkID := {[1%N := mkGetValidatorOutput 1 (Some 77%N) 100]}]>
       (<[9%N := {[1%N := mkGetValidatorOutput 1 None 40]}]> ∅)).

End Validators.

(** ** Doubly linked list with a sentinel (utils/linked/list.go)

    Pointers are addresses into an explicit memory; an operation is a
    function on the memory that returns nothing when the program panics. The
    struct field [list] is written [list_]. *)

Module Linked.

(** Addresses. The sentinel of a list is an element embedded in the list
    struct: its address is determined by the address of the list. Every
    other element is allocated by the user of the list. *)
Inductive Ptr : Type :=
| Sentinel (l : nat)
| Node (a : nat).

#[global] Instance Ptr_eq_dec : EqDecision Ptr.
Proof. solve_decision. Defined.

#[global] Instance Ptr_countable : Countable Ptr.
Proof.
  refine (inj_countable'
            (fun p => match p with Sentinel l => inl l | Node a => inr a end)
            (fun s => match s with inl l => Sentinel l | inr a => Node a end) _).
  by intros [].
Defined.

Section WithValue.
Context {T : Type}.

(** [*ListElement[T]]: [None] is the nil pointer. *)
Definition pointer : Type := option Ptr.

(** [ListElement[T]]; [list_] is the field [list], a [*List[T]]. *)
Record ListElement : Type := mkListElement {
  next : pointer;
  prev : pointer;
  list_ : option nat;
  Value : T
}.

(** The memory: the elements (the sentinels among them) by address, and the
    [length] field of every list. *)
Record Heap : Type := mkHeap {
  elems : gmap Ptr ListElement;
  lengths : gmap nat Z
}.

(** A computation on the memory; [None] is a run-time panic (a nil or
    dangling pointer is dereferenced). *)
Definition M (A : Type) : Type := Heap -> option (A * Heap).

Definition ret {A} (x : A) : M A := fun h => Some (x, h).

Definition sbind {A B} (m : M A) (k : A -> M B) : M B :=
  fun h => match m h with
           | Some (x, h') => k x h'
           | None => None
           end.

Definition load {A} (field : ListElement -> A) (p : pointer) : M A :=
  fun h => match p with
           | None => None
           | Some q => match elems h !! q with
                       | Some c => Some (field c, h)
                       | None => None
                       end
           end.

Definition store (upd : ListElement -> ListElement) (p : pointer) : M unit :=
  fun h => match p with
           | None => None
           | Some q => match elems h !! q with
                       | Some _ =>
                           Some (tt, mkHeap (alter upd q (elems h)) (lengths h))
                       | None => None
                       end
           end.

Definition set_next (v : pointer) (c : ListElement) : ListElement :=
  mkListElement v (prev c) (list_ c) (Value c).
Definition set_prev (v : pointer) (c : ListElement) : ListElement :=
  mkListElement (next c) v (list_ c) (Value c).
Definition set_list (v : option nat) (c : ListElement) : ListElement :=
  mkListElement (next c) (prev c) v (Value c).

(** [int]: 64 bits, two's complement. *)
Definition MaxInt : Z := 2 ^ 63 - 1.
Definition wrapInt (z : Z) : Z := (z + 2 ^ 63) mod 2 ^ 64 - 2 ^ 63.

Definition loadLength (l : nat) : M Z :=
  fun h => match lengths h !! l with
           | Some n => Some (n, h)
           | None => None
           end.

Definition storeLength (l : nat) (n : Z) : M unit :=
  fun h => match lengths h !! l with
           | Some _ => Some (tt, mkHeap (elems h) (<[l := n]> (lengths h)))
           | None => None
           end.

End WithValue.

Arguments ListElement T : clear implicits.
Arguments Heap T : clear implicits.
Arguments M T A : clear implicits.

Notation "'let!' x ':=' m 'in' k" := (sbind m (fun x => k))
  (at level 10, x pattern, m at level 100, k at level 200).

Section Operations.
Context {T : Type}.

(** [e.Next()] *)
Definition Next (e : pointer) : M T pointer :=
  let! p := load next e in
  let! l := load list_ e in
  match l with
  | Some l => if decide (p ≠ Some (Sentinel l)) then ret p else ret None
  | None => ret None
  end.

(** [e.Prev()] *)
Definition Prev (e : pointer) : M T pointer :=
  let! p := load prev e in
  let! l := load list_ e in
  match l with
  | Some l => if decide (p ≠ Some (Sentinel l)) then ret p else ret None
  | None => ret None
  end.

Definition sentinelAddr (p : Ptr) : option nat :=
  match p with
  | Sentinel l => Some l
  | Node _ => None
  end.

Definition nodeAddr (p : Ptr) : option nat :=
  match p with
  | Node a => Some a
  | Sentinel _ => None
  end.

(** [NewList]: a list is allocated at a fresh address; its sentinel points to
    itself. [zero] is the zero value of [T], the sentinel's unused value. *)
Definition NewList (zero : T) : M T nat :=
  fun h =>
    let l := fresh (dom (lengths h) ∪
                    (set_omap sentinelAddr (dom (elems h)) : gset nat)) in
    Some (l, mkHeap (<[Sentinel l :=
                        mkListElement (Some (Sentinel l)) (Some (Sentinel l))
                                      (Some l) zero]> (elems h))
                    (<[l := 0]> (lengths h))).

(** [&ListElement[T]{Value: v}]: an element allocated by the caller, in no
    list. *)
Definition NewElement (v : T) : M T pointer :=
  fun h =>
    let a := fresh (set_omap nodeAddr (dom (elems h)) : gset nat) in
    Some (Some (Node a),
          mkHeap (<[Node a := mkListElement None None None v]> (elems h))
                 (lengths h)).

Definition Front (l : nat) : M T pointer :=
  let! n := loadLength l in
  if n =? 0 then ret None else load next (Some (Sentinel l)).

Definition Back (l : nat) : M T pointer :=
  let! n := loadLength l in
  if n =? 0 then ret None else load prev (Some (Sentinel l)).

Definition Len (l : nat) : M T Z := loadLength l.

Definition insertAfter (l : nat) (e location : pointer) : M T unit :=
  let! el := load list_ e in
  if decide (el ≠ None) then ret tt
  else
    let! _ := store (set_prev location) e in
    let! ln := load next location in
    let! _ := store (set_next ln) e in
    let! ep := load prev e in
    let! _ := store (set_next e) ep in
    let! en := load next e in
    let! _ := store (set_prev e) en in
    let! _ := store (set_list (Some l)) e in
    let! n := loadLength l in
    storeLength l (wrapInt (n + 1)).

Definition moveAfter (l : nat) (e location : pointer) : M T unit :=
  let! el := load list_ e in
  if decide (el ≠ Some l) then ret tt
  else
    let! ll := load list_ location in
    if decide (ll ≠ Some l) then ret tt
    else if decide (e = location) then ret tt
    else
      let! ep := load prev e in
      let! en := load next e in
      let! _ := store (set_next en) ep in
      let! en := load next e in
      let! ep := load prev e in
      let! _ := store (set_prev ep) en in
      let! _ := store (set_prev location) e in
      let! ln := load next location in
      let! _ := store (set_next ln) e in
      let! ep := load prev e in
      let! _ := store (set_next e) ep in
      let! en := load next e in
      store (set_prev e) en.

Definition PushFront (l : nat) (e : pointer) : M T unit :=
  insertAfter l e (Some (Sentinel l)).

Definition PushBack (l : nat) (e : pointer) : M T unit :=
  let! back := load prev (Some (Sentinel l)) in
  insertAfter l e back.

Definition InsertBefore (l : nat) (e location : pointer) : M T unit :=
  let! ll := load list_ location in
  if decide (ll = Some l) then
    let! lp := load prev location in
    insertAfter l e lp
  else ret tt.

Definition InsertAfter (l : nat) (e location : pointer) : M T unit :=
  let! ll := load list_ location in
  if decide (ll = Some l) then insertAfter l e location else ret tt.

Definition Remove (l : nat) (e : pointer) : M T unit :=
  let! el := load list_ e in
  if decide (el ≠ Some l) then ret tt
  else
    let! ep := load prev e in
    let! en := load next e in
    let! _ := store (set_next en) ep in
    let! en := load next e in
    let! ep := load prev e in
    let! _ := store (set_prev ep) en in
    let! _ := store (set_next None) e in
    let! _ := store (set_prev None) e in
    let! _ := store (set_list None) e in
    let! n := loadLength l in
    storeLength l (wrapInt (n - 1)).

Definition MoveToFront (l : nat) (e : pointer) : M T unit :=
  let! front := load next (Some (Sentinel l)) in
  if decide (e ≠ front) then moveAfter l e (Some (Sentinel l)) else ret tt.

Definition MoveToBack (l : nat) (e : pointer) : M T unit :=
  let! back := load prev (Some (Sentinel l)) in
  moveAfter l e back.

Definition MoveBefore (l : nat) (e location : pointer) : M T unit :=
  if decide (e ≠ location) then
    let! lp := load prev location in
    moveAfter l e lp
  else ret tt.

Definition MoveAfter (l : nat) (e location : pointer) : M T unit :=
  moveAfter l e location.

End Operations.

Section Abstraction.
Context {T : Type}.

(** Reading a field of the element at an address; nil when nothing is
    there. *)
Definition nextOf (h : Heap T) (p : Ptr) : pointer := elems h !! p ≫= next.
Definition prevOf (h : Heap T) (p : Ptr) : pointer := elems h !! p ≫= prev.
Definition listOf (h : Heap T) (p : Ptr) : option nat := elems h !! p ≫= list_.
Definition valueOf (h : Heap T) (p : Ptr) : option T := Value <$> elems h !! p.

(** An element lives at the address. *)
Definition alloc (h : Heap T) (p : Ptr) : Prop := is_Some (elems h !! p).

(** A chain of links from [p] through [ps] to [q]: each element's [next] is
    its successor and each successor's [prev] is the element. *)
Fixpoint seg (h : Heap T) (p : Ptr) (ps : list Ptr) (q : Ptr) : Prop :=
  match ps with
  | [] => nextOf h p = Some q /\ prevOf h q = Some p
  | r :: ps' => nextOf h p = Some r /\ prevOf h r = Some p /\ seg h r ps' q
  end.

(** The list at [l] holds the elements [xs], in this order: [length] is their
    number, an [int]; the links form a ring from the sentinel through the
    elements and back; the elements are distinct and none is the sentinel;
    the elements whose [list] field is [l] are the sentinel and these. *)
Record repr (h : Heap T) (l : nat) (xs : list Ptr) : Prop := mkRepr {
  repr_length : lengths h !! l = Some (Z.of_nat (length xs));
  repr_bound : Z.of_nat (length xs) <= MaxInt;
  repr_ring : seg h (Sentinel l) xs (Sentinel l);
  repr_nodup : NoDup (Sentinel l :: xs);
  repr_owned : forall p, listOf h p = Some l <-> p ∈ Sentinel l :: xs
}.

(** What an operation on the list at [l] with the element [e] leaves alone:
    the values, the [list] field of every other element, and every other
    list. *)
Record preserved (h h' : Heap T) (l : nat) (e : Ptr) : Prop := mkPreserved {
  preserved_value : forall p, valueOf h' p = valueOf h p;
  preserved_list : forall p, p <> e -> listOf h' p = listOf h p;
  preserved_repr : forall l2 ys, l2 <> l -> repr h l2 ys -> repr h' l2 ys
}.

(** The memory before anything is allocated. *)
Definition emptyHeap : Heap T := mkHeap ∅ ∅.

(** The element at [p] updated in place. *)
Definition upd (h : Heap T) (p : Ptr) (f : ListElement T -> ListElement T)
  : Heap T :=
  mkHeap (alter f p (elems h)) (lengths h).

(** The memory after [e.prev.next = e.next; e.next.prev = e.prev], for [e]
    between [ep] and [en]. *)
Definition unlinked (h : Heap T) (ep en : Ptr) : Heap T :=
  upd (upd h ep (set_next (Some en))) en (set_prev (Some ep)).

(** The memory after [e.prev = location; e.next = location.next;
    e.prev.next = e; e.next.prev = e], for [r] the successor of [loc]. *)
Definition linked (h : Heap T) (e loc r : Ptr) : Heap T :=
  upd (upd (upd (upd h e (set_prev (Some loc))) e (set_next (Some r)))
           loc (set_next (Some e)))
      r (set_prev (Some e)).

(** [seg] and [repr], decided. *)
Fixpoint segb (h : Heap T) (p : Ptr) (ps : list Ptr) (q : Ptr) : bool :=
  match ps with
  | [] => bool_decide (nextOf h p = Some q) && bool_decide (prevOf h q = Some p)
  | r :: ps' =>
      bool_decide (nextOf h p = Some r) && bool_decide (prevOf h r = Some p)
      && segb h r ps' q
  end.

Definition check_repr (h : Heap T) (l : nat) (xs : list Ptr) : bool :=
  bool_decide (lengths h !! l = Some (Z.of_nat (length xs)))
  && bool_decide (Z.of_nat (length xs) <= MaxInt)
  && segb h (Sentinel l) xs (Sentinel l)
  && bool_decide (NoDup (Sentinel l :: xs))
  && bool_decide (Forall (fun p => listOf h p = Some l) (Sentinel l :: xs))
  && bool_decide (map_Forall (fun p c => list_ c = Some l ->
                                         p ∈ Sentinel l :: xs) (elems h)).

End Abstraction.

(** Two lists and five elements: the list at 0 holds the elements at 0 and
    1, the list at 1 holds the element at 3, the elements at 2 and 4 are in
    no list; the element at 4 was in the list at 0 and was removed. *)
Definition exampleProgram : M Z unit :=
  let! l0 := NewList 0 in
  let! a := NewElement 10 in
  let! b := NewElement 20 in
  let! c := NewElement 30 in
  let! _ := PushBack l0 a in
  let! _ := PushBack l0 b in
  let! l1 := NewList 0 in
  let! d := NewElement 40 in
  let! _ := PushFront l1 d in
  let! e := NewElement 50 in
  let! _ := PushFront l0 e in
  Remove l0 e.

Definition exampleHeap : Heap Z :=
  match exampleProgram emptyHeap with
  | Some (_, h) => h
  | None => emptyHeap
  end.

End Linked.

(** ** Dynamic fees configuration (vms/platformvm/config/dynamic_fees_config.go) *)

Module DynamicFees.

Record DynamicFeesConfig : Type := mkDynamicFeesConfig {
  UnitFees : Fee.Dimensions;
  BlockUnitsCap : Fee.Dimensions
}.

Inductive ConfigError : Type :=
| errForbiddenReset (networkID : Z).

Section Constants.

(** Constants declared outside the repository subset: the ids of the two
    public networks, the nano-AVAX unit and the largest [Dimensions]. *)
Variables (MainnetID FujiID : Z) (NanoAvax : Z) (Max : Fee.Dimensions).

Definition eUpgradeDynamicFeesConfig : DynamicFeesConfig :=
  mkDynamicFeesConfig
    (Fee.mkDimensions (1 * NanoAvax) (2 * NanoAvax) (3 * NanoAvax) (4 * NanoAvax))
    Max.

Definition preEUpgradeDynamicFeesConfig : DynamicFeesConfig :=
  mkDynamicFeesConfig Fee.Empty Max.

(** The package variable [customDynamicFeesConfig], [nil] at first, is
    passed in and out. *)
Definition GetDynamicFeesConfig
    (customDynamicFeesConfig : option DynamicFeesConfig) (isEActive : bool)
  : DynamicFeesConfig :=
  if negb isEActive then preEUpgradeDynamicFeesConfig
  else
    match customDynamicFeesConfig with
    | Some custom => custom
    | None => eUpgradeDynamicFeesConfig
    end.

Definition ResetDynamicFeesConfig
    (customDynamicFeesConfig : option DynamicFeesConfig) (NetworkID : Z)
    (customFeesConfig : option DynamicFeesConfig)
  : option DynamicFeesConfig * option ConfigError :=
  match customFeesConfig with
  | None => (customDynamicFeesConfig, None)
  | Some _ =>
      if bool_decide (NetworkID = MainnetID) || bool_decide (NetworkID = FujiID)
      then (customDynamicFeesConfig, Some (errForbiddenReset NetworkID))
      else (customFeesConfig, None)
  end.

(** The variable after a sequence of resets, each with the network id of its
    context and its argument. *)
Definition resetAll (resets : list (Z * option DynamicFeesConfig))
    (customDynamicFeesConfig : option DynamicFeesConfig)
  : option DynamicFeesConfig :=
  fold_left (fun custom r => fst (ResetDynamicFeesConfig custom r.1 r.2))
            resets customDynamicFeesConfig.

(** The argument of a reset that takes effect. *)
Definition accepted (r : Z * option DynamicFeesConfig)
  : option DynamicFeesConfig :=
  if bool_decide (r.1 = MainnetID) || bool_decide (r.1 = FujiID) then None
  else r.2.

End Constants.

End DynamicFees.

(** * Properties *)

(** ** Gossip tracker *)

Section GossipProperties.
Import Gossip.

Example scenario_unknown_p1 : GetUnknown scenario 1%N 8 = (scenario, Some [], true).
Proof. vm_compute. reflexivity. Qed.

Example scenario_unknown_p2 : GetUnknown scenario 2%N 8 = (scenario, Some [3%N], true).
Proof. vm_compute. reflexivity. Qed.

Example scenario_unknown_p3 :
  GetUnknown scenario 3%N 8 = (scenario, Some [2%N; 3%N], true).
Proof. vm_compute. reflexivity. Qed.


(** *** Bit-level facts about the bitset operations *)

Lemma bsContains_bsAdd b i j :
  bsContains (bsAdd b i) j = bool_decide (i = j) || bsContains b j.
Proof.
  unfold bsContains, bsAdd. rewrite N.setbit_eqb.
  destruct (N.eqb_spec (N.of_nat i) (N.of_nat j)) as [E|E]; case_bool_decide; try reflexivity; lia.
Qed.

Lemma bsContains_bsRemove b i j :
  bsContains (bsRemove b i) j = bsContains b j && negb (bool_decide (i = j)).
Proof.
  unfold bsContains, bsRemove. rewrite N.clearbit_eqb.
  destruct (N.eqb_spec (N.of_nat i) (N.of_nat j)) as [E|E]; case_bool_decide; try reflexivity; lia.
Qed.

Lemma bsContains_bsUnion a b j :
  bsContains (bsUnion a b) j = bsContains a j || bsContains b j.
Proof. apply N.lor_spec. Qed.

Lemma bsContains_bsDifference a b j :
  bsContains (bsDifference a b) j = bsContains a j && negb (bsContains b j).
Proof. apply N.ldiff_spec. Qed.

Lemma bsContains_New j : bsContains NewBigBitSet j = false.
Proof. apply N.bits_0. Qed.

Lemma bsContains_lt_bsLen b i : bsContains b i = true -> (i < bsLen b)%nat.
Proof.
  unfold bsContains, bsLen. intros Hb.
  destruct (N.eq_dec b 0%N) as [->|Hne]; [by rewrite N.bits_0 in Hb|].
  destruct (N.lt_ge_cases (N.of_nat i) (N.size b)) as [Hlt|Hge]; [lia|].
  rewrite N.bits_above_log2 in Hb; [done|].
  rewrite N.size_log2 in Hge by done. lia.
Qed.

(** *** GetUnknown *)

(** What the loop computes: the members of [unknown] among the next [n]
    indices, in increasing order, appended to [result] and cut at the limit. *)
Lemma unknownLoop_take g unknown limit n i result :
  (length result <= Z.to_nat limit)%nat ->
  unknownLoop g unknown limit n i result =
  take (Z.to_nat limit)
    (result ++ map (peerAt g)
       (filter (fun j => bsContains unknown j = true) (seq i n))).
Proof.
  revert i result. induction n as [|n IH]; intros i result Hlen; simpl.
  - rewrite app_nil_r, take_ge; [done | lia].
  - rewrite filter_cons.
    destruct (decide (bsContains unknown i = true)) as [Hb|Hb].
    + rewrite Hb. simpl.
      destruct (Z.geb_spec (Z.of_nat (length result)) limit) as [Hge|Hlt].
      * rewrite take_app_le by lia. rewrite take_ge; [done | lia].
      * rewrite IH by (rewrite length_app; simpl; lia).
        by rewrite <- app_assoc.
    + apply not_true_is_false in Hb. rewrite Hb. simpl. by apply IH.
Qed.

Lemma seq_filter_sorted (P : nat -> Prop) `{forall j, Decision (P j)} i n :
  StronglySorted lt (filter P (seq i n)).
Proof.
  revert i. induction n as [|n IH]; intros i; simpl; [constructor|].
  rewrite filter_cons. destruct (decide (P i)); [|apply IH].
  constructor; [apply IH|].
  apply Forall_forall. intros x Hx.
  apply list_elem_of_filter in Hx as [_ Hx]. apply elem_of_seq in Hx. lia.
Qed.

(** C8: for a tracked peer and a limit of at least one, GetUnknown returns
    the node ids of the indices set in [local] and not in the peer's known
    set, in increasing index order from the least significant bit, cut to at
    most [limit] elements. *)
Theorem GetUnknown_lists_unknown_lsb_first g id limit known :
  knownPeers g !! id = Some known ->
  1 <= limit ->
  exists idxs : list nat,
    StronglySorted lt idxs /\
    (forall i, i ∈ idxs <->
       bsContains (local g) i = true /\ bsContains known i = false) /\
    GetUnknown g id limit =
      (g, Some (take (Z.to_nat limit) (map (peerAt g) idxs)), true) /\
    (length (take (Z.to_nat limit) (map (peerAt g) idxs)) <= Z.to_nat limit)%nat.
Proof.
  intros Hknown Hlimit.
  set (unknown := bsDifference (bsUnion NewBigBitSet (local g)) known).
  exists (filter (fun j => bsContains unknown j = true) (seq 0 (bsLen unknown))).
  split; [apply seq_filter_sorted|]. split; [|split].
  - intros i. rewrite list_elem_of_filter, elem_of_seq. unfold unknown.
    assert (Hu : bsContains
                   (bsDifference (bsUnion NewBigBitSet (local g)) known) i = true
                 <-> bsContains (local g) i = true /\ bsContains known i = false).
    { rewrite bsContains_bsDifference, bsContains_bsUnion, bsContains_New.
      rewrite orb_false_l, andb_true_iff, negb_true_iff. tauto. }
    rewrite Hu. split; [tauto|].
    intros Hlk. split; [done|]. split; [lia|].
    rewrite Nat.add_0_l. apply bsContains_lt_bsLen. by apply Hu.
  - unfold GetUnknown. destruct (Z.leb_spec limit 0); [lia|].
    rewrite Hknown. fold unknown.
    rewrite unknownLoop_take by (simpl; lia). done.
  - rewrite length_take. lia.
Qed.

Lemma GetUnknown_lists_unknown_lsb_first_witness :
  exists idxs : list nat,
    StronglySorted lt idxs /\
    (forall i, i ∈ idxs <->
       bsContains (local scenario) i = true /\ bsContains 1%N i = false) /\
    GetUnknown scenario 3%N 1 =
      (scenario, Some (take (Z.to_nat 1) (map (peerAt scenario) idxs)), true) /\
    (length (take (Z.to_nat 1) (map (peerAt scenario) idxs)) <= Z.to_nat 1)%nat.
Proof.
  apply (GetUnknown_lists_unknown_lsb_first scenario 3%N 1 1%N).
  - vm_compute. reflexivity.
  - lia.
Defined.

(** C10: with a limit that is not positive, or for a peer that is not
    tracked, GetUnknown returns (nil, false) and the tracker is unchanged. *)
Theorem GetUnknown_rejects g id limit :
  limit <= 0 \/ knownPeers g !! id = None ->
  GetUnknown g id limit = (g, None, false).
Proof.
  intros [Hlimit|Hnone]; unfold GetUnknown.
  - destruct (Z.leb_spec limit 0); [done | lia].
  - rewrite Hnone. by destruct (limit <=? 0).
Qed.

Lemma GetUnknown_rejects_witness :
  GetUnknown scenario 4%N 8 = (scenario, None, false) /\
  GetUnknown scenario 1%N 0 = (scenario, None, false).
Proof.
  split.
  - apply (GetUnknown_rejects scenario 4%N 8). right. vm_compute. reflexivity.
  - apply (GetUnknown_rejects scenario 1%N 0). left. lia.
Defined.

(** *** The tracker's invariant *)

Ltac proj_simpl :=
  cbn [local knownPeers peersToIndices indicesToPeers fst snd] in *.

Lemma wf_New : wf NewGossipTracker.
Proof.
  split; unfold NewGossipTracker; proj_simpl.
  - intros p i. by rewrite !lookup_empty.
  - intros i. rewrite lookup_empty, map_size_empty. split; [by intros [? ?] | lia].
  - intros i. rewrite bsContains_New, map_size_empty. split; [done | lia].
  - intros p k i. by rewrite lookup_empty.
  - intros p. by rewrite !lookup_empty.
Qed.

Lemma wf_index_lt g p i :
  wf g -> peersToIndices g !! p = Some i -> (i < size (peersToIndices g))%nat.
Proof. intros W Hp. apply (wf_dense g W). apply (wf_inverse g W) in Hp. eauto. Qed.

Lemma wf_Add g id : wf g -> wf (fst (Add g id)).
Proof.
  intros W. unfold Add.
  destruct (peersToIndices g !! id) as [idx|] eqn:Hid; [done|]. proj_simpl.
  set (n := size (peersToIndices g)).
  assert (Hsz : size (<[id:=n]> (peersToIndices g)) = S n)
    by (by apply map_size_insert_None).
  assert (Hfresh : indicesToPeers g !! n = None).
  { destruct (indicesToPeers g !! n) eqn:E; [|done].
    assert (n < n)%nat; [|lia]. apply (wf_dense g W). eauto. }
  split; proj_simpl; rewrite ?Hsz.
  - intros p i. destruct (decide (p = id)) as [->|Hp].
    + rewrite lookup_insert_eq. destruct (decide (i = n)) as [->|Hi].
      * by rewrite lookup_insert_eq.
      * rewrite lookup_insert_ne by done. split; [congruence|].
        intros Hc%(wf_inverse g W). congruence.
    + rewrite lookup_insert_ne by done. destruct (decide (i = n)) as [->|Hi].
      * rewrite lookup_insert_eq. split; [|congruence].
        intros Hc%(wf_index_lt g _ _ W). fold n in Hc. lia.
      * rewrite lookup_insert_ne by done. apply (wf_inverse g W).
  - intros i. destruct (decide (i = n)) as [->|Hi].
    + rewrite lookup_insert_eq. split; [lia | eauto].
    + rewrite lookup_insert_ne by done. rewrite (wf_dense g W). fold n. lia.
  - intros i. rewrite bsContains_bsAdd, orb_true_iff, bool_decide_eq_true.
    rewrite (wf_local g W). fold n. lia.
  - intros p k i. destruct (decide (p = id)) as [->|Hp].
    + rewrite lookup_insert_eq. intros [= <-]. by rewrite bsContains_New.
    + rewrite lookup_insert_ne by done. intros Hk Hb.
      pose proof (wf_known g W p k i Hk Hb). fold n in H. lia.
  - intros p. destruct (decide (p = id)) as [->|Hp].
    + rewrite !lookup_insert_eq. split; eauto.
    + rewrite !lookup_insert_ne by done. apply (wf_tracked g W).
Qed.

Lemma learnedBits_bound g learned bs bs' i :
  wf g ->
  (forall j, bsContains bs j = true -> (j < size (peersToIndices g))%nat) ->
  learnedBits g learned bs = Some bs' ->
  bsContains bs' i = true -> (i < size (peersToIndices g))%nat.
Proof.
  intros W. revert bs. induction learned as [|nodeID rest IH]; intros bs Hbs; simpl.
  - intros [= <-]. apply Hbs.
  - destruct (peersToIndices g !! nodeID) as [idx|] eqn:Hidx; [|done].
    apply IH. intros j. rewrite bsContains_bsAdd, orb_true_iff, bool_decide_eq_true.
    intros [<-|Hj]; [by eapply wf_index_lt | by apply Hbs].
Qed.

Lemma wf_UpdateKnown g id learned : wf g -> wf (fst (UpdateKnown g id learned)).
Proof.
  intros W. unfold UpdateKnown.
  destruct (knownPeers g !! id) as [known|] eqn:Hid; [|done].
  destruct (learnedBits g learned NewBigBitSet) as [bs|] eqn:Hbs; [|done].
  split; proj_simpl; try apply W.
  - intros p k i. destruct (decide (p = id)) as [->|Hp].
    + rewrite lookup_insert_eq. intros [= <-].
      rewrite bsContains_bsUnion, orb_true_iff. intros [Hk|Hk].
      * by eapply (wf_known g W).
      * eapply learnedBits_bound; [done| |done|done].
        intros j. by rewrite bsContains_New.
    + rewrite lookup_insert_ne by done. apply (wf_known g W).
  - intros p. destruct (decide (p = id)) as [->|Hp].
    + rewrite lookup_insert_eq. rewrite <- (wf_tracked g W), Hid. split; eauto.
    + rewrite lookup_insert_ne by done. apply (wf_tracked g W).
Qed.

Lemma swapTail_bound idx tail k i n :
  (idx < n)%nat -> tail = (n - 1)%nat ->
  (forall j, bsContains k j = true -> (j < n)%nat) ->
  bsContains (swapTail idx tail k) i = true -> (i < n - 1)%nat.
Proof.
  intros Hidx -> Hk. unfold swapTail.
  rewrite bsContains_bsRemove, andb_true_iff, negb_true_iff, bool_decide_eq_false.
  intros [Hb Hne]. enough (i < n)%nat by lia.
  destruct (decide (idx ≠ n - 1)%nat); [|by apply Hk].
  destruct (bsContains k (n - 1)).
  - rewrite bsContains_bsAdd, orb_true_iff, bool_decide_eq_true in Hb.
    destruct Hb as [<-|Hb]; [done | by apply Hk].
  - rewrite bsContains_bsRemove, andb_true_iff in Hb. apply Hk, Hb.
Qed.

Lemma wf_Remove g id : wf g -> wf (fst (Remove g id)).
Proof.
  intros W. unfold Remove.
  destruct (peersToIndices g !! id) as [idx|] eqn:Hid; [|done]. proj_simpl.
  pose proof (wf_inverse g W) as Hinv.
  pose proof (wf_dense g W) as Hdense.
  pose proof (wf_index_lt g id idx W Hid) as Hlt.
  set (n := size (peersToIndices g)) in *.
  assert (Hev : indicesToPeers g !! idx = Some id) by (by apply Hinv).
  replace (default EmptyNodeID (indicesToPeers g !! idx)) with id
    by (by rewrite Hev).
  destruct (proj2 (Hdense (n - 1)%nat)) as [q Hq]; [lia|].
  assert (Hq' : peersToIndices g !! q = Some (n - 1)%nat) by (by apply Hinv).
  replace (default EmptyNodeID (indicesToPeers g !! (n - 1)%nat)) with q
    by (by rewrite Hq).
  set (p2i := if decide (idx ≠ n - 1)%nat
              then <[q:=idx]> (peersToIndices g) else peersToIndices g).
  set (i2p := if decide (idx ≠ n - 1)%nat
              then <[idx:=q]> (indicesToPeers g) else indicesToPeers g).
  assert (Hp2i : forall p, p ≠ id ->
            delete id p2i !! p =
            if decide (p = q) then Some idx else peersToIndices g !! p).
  { intros p Hp. rewrite lookup_delete_ne by done. unfold p2i.
    destruct (decide (idx ≠ n - 1)%nat) as [Hne|Heq%dec_stable].
    - rewrite lookup_insert. repeat case_decide; congruence.
    - case_decide; [|done]. subst. congruence. }
  assert (Hi2p : forall i, i ≠ (n - 1)%nat ->
            delete (n - 1)%nat i2p !! i =
            if decide (i = idx) then Some q else indicesToPeers g !! i).
  { intros i Hi. rewrite lookup_delete_ne by done. unfold i2p.
    destruct (decide (idx ≠ n - 1)%nat) as [Hne|Heq%dec_stable].
    - rewrite lookup_insert. repeat case_decide; congruence.
    - case_decide; [|done]. subst. congruence. }
  assert (Hsz : size (delete id p2i) = (n - 1)%nat).
  { rewrite map_size_delete_Some.
    - unfold p2i. destruct (decide (idx ≠ n - 1)%nat); [|fold n; lia].
      rewrite map_size_insert_Some by eauto. fold n. lia.
    - unfold p2i. destruct (decide (idx ≠ n - 1)%nat); [|eauto].
      rewrite lookup_insert_ne; [eauto|]. intros ->. congruence. }
  split; proj_simpl; rewrite ?Hsz.
  - intros p i. destruct (decide (p = id)) as [->|Hp].
    + rewrite lookup_delete_eq. split; [done|].
      destruct (decide (i = n - 1)%nat) as [->|Hi]; [by rewrite lookup_delete_eq|].
      rewrite Hi2p by done. case_decide as Hc; intros Hx.
      * congruence.
      * apply Hinv in Hx. congruence.
    + rewrite Hp2i by done.
      destruct (decide (i = n - 1)%nat) as [->|Hi].
      * rewrite lookup_delete_eq. split; [|done].
        case_decide as Hc; intros Hx; [|apply Hinv in Hx]; congruence.
      * rewrite Hi2p by done.
        repeat case_decide;
          first [ apply Hinv
                | split; intros Hx;
                  first [ done | congruence | apply Hinv in Hx; congruence ] ].
  - intros i. destruct (decide (i = n - 1)%nat) as [->|Hi].
    + rewrite lookup_delete_eq. split; [by intros [? ?] | lia].
    + rewrite Hi2p by done. case_decide as Hc.
      * subst. split; [lia | eauto].
      * rewrite Hdense. lia.
  - intros i.
    rewrite bsContains_bsRemove, andb_true_iff, negb_true_iff, bool_decide_eq_false.
    rewrite (wf_local g W). fold n. lia.
  - intros p k i. rewrite lookup_fmap.
    destruct (decide (p = id)) as [->|Hp]; [by rewrite lookup_delete_eq|].
    rewrite lookup_delete_ne by done.
    destruct (knownPeers g !! p) as [k0|] eqn:Hk0; [|done].
    intros [= <-]. apply swapTail_bound; [done|done|].
    intros j. apply (wf_known g W p k0 j Hk0).
  - intros p. rewrite lookup_fmap, fmap_is_Some.
    destruct (decide (p = id)) as [->|Hp].
    + rewrite !lookup_delete_eq. done.
    + rewrite lookup_delete_ne by done. rewrite Hp2i by done.
      rewrite (wf_tracked g W). case_decide; [subst; split; eauto | done].
Qed.

Lemma wf_step g o : wf g -> wf (step g o).
Proof.
  destruct o; simpl; [apply wf_Add | apply wf_Remove | apply wf_UpdateKnown].
Qed.

Lemma wf_run ops g : wf g -> wf (run ops g).
Proof.
  revert g. unfold run. induction ops as [|o ops IH]; intros g W; simpl; [done|].
  apply IH. by apply wf_step.
Qed.

Lemma wf_count g : wf g -> count g = size (peersToIndices g).
Proof.
  intros W. unfold count.
  rewrite <- (size_dom (D := gset N) (knownPeers g)).
  rewrite <- (size_dom (D := gset N) (peersToIndices g)).
  f_equal. apply set_eq. intros p. rewrite !elem_of_dom. apply (wf_tracked g W).
Qed.

(** C9: after every sequence of add, remove and update_known operations,
    (i) every tracked peer's known set is a subset of [local], and (ii) the
    indices assigned to tracked peers, and the bits set in [local], are
    exactly the numbers below the count of tracked peers. *)
Theorem gossip_invariants ops :
  (forall p k, knownPeers (run ops NewGossipTracker) !! p = Some k ->
     forall i, bsContains k i = true ->
               bsContains (local (run ops NewGossipTracker)) i = true) /\
  (forall i,
     (exists p, Contains (run ops NewGossipTracker) p = true /\
                peersToIndices (run ops NewGossipTracker) !! p = Some i)
     <-> (i < count (run ops NewGossipTracker))%nat) /\
  (forall i, bsContains (local (run ops NewGossipTracker)) i = true
             <-> (i < count (run ops NewGossipTracker))%nat).
Proof.
  set (g := run ops NewGossipTracker).
  assert (W : wf g) by apply wf_run, wf_New.
  rewrite (wf_count g W). split; [|split].
  - intros p k Hk i Hb. apply (wf_local g W). by eapply (wf_known g W).
  - intros i. split.
    + intros (p & _ & Hp). by eapply wf_index_lt.
    + intros Hi. apply (wf_dense g W) in Hi as [p Hp].
      apply (wf_inverse g W) in Hp. exists p. split; [|done].
      unfold Contains. apply bool_decide_eq_true. apply (wf_tracked g W). eauto.
  - apply (wf_local g W).
Qed.

Example gossip_remove_swaps_tail :
  peersToIndices (run [OpRemove 1%N] scenario) = {[3%N := 0%nat; 2%N := 1%nat]} /\
  local (run [OpRemove 1%N] scenario) = 3%N /\
  knownPeers (run [OpRemove 1%N] scenario) = {[2%N := 2%N; 3%N := 0%N]}.
Proof. vm_compute. repeat split. Qed.

End GossipProperties.

(** ** Fee calculator *)

Section FeeProperties.
Import Fee.

Example static_fee_BaseTx :
  ComputeFee noMeter exampleStatic BaseTx = (set_fee exampleStatic 1, (1, None)).
Proof. reflexivity. Qed.

Example dynamic_fee_scenario :
  addFeesFor exampleDynamic (mkDimensions 100 0 0 0) =
    (set_fee (set_feeManager exampleDynamic
                (mkManager (mkDimensions 1 2 3 4) (mkDimensions 100 0 0 0))) 100,
     Ok 100).
Proof. reflexivity. Qed.

Example dynamic_fee_scenario_cap :
  snd (addFeesFor (fst (addFeesFor exampleDynamic (mkDimensions 100 0 0 0)))
         (mkDimensions 100 0 0 0)) = Err (errFailedComplexityCumulation DBandwidth).
Proof. reflexivity. Qed.

(** C4, as stated, fails: before the E upgrade the permissionless staking
    transactions are charged staking fees, not the flat fee. *)
Lemma static_fee_permissionless_not_flat :
  isEActive exampleStatic = false /\
  fst (snd (ComputeFee noMeter exampleStatic
              (AddPermissionlessDelegatorTx PrimaryNetworkID)))
    <> TxFee (staticCfg exampleStatic) /\
  fst (snd (ComputeFee noMeter exampleStatic
              (AddPermissionlessDelegatorTx 5%N)))
    <> TxFee (staticCfg exampleStatic) /\
  fst (snd (ComputeFee noMeter exampleStatic
              (AddPermissionlessValidatorTx 5%N)))
    <> TxFee (staticCfg exampleStatic).
Proof. repeat split; vm_compute; discriminate. Qed.

(** C4, amended: before the E upgrade, BaseTx, ImportTx, ExportTx,
    RemoveSubnetValidatorTx and TransferSubnetOwnershipTx are charged the flat
    fee; AddPermissionlessDelegatorTx is charged the primary-network
    delegator fee on the primary network and the subnet delegator fee
    elsewhere; AddPermissionlessValidatorTx on a subnet other than the
    primary network is charged the subnet validator fee. *)
Theorem static_fee_schedule meterTx c tx :
  isEActive c = false ->
  snd (snd (ComputeFee meterTx c tx)) = None /\
  (paysFlatFee tx = true ->
     fst (snd (ComputeFee meterTx c tx)) = TxFee (staticCfg c)) /\
  (forall s, tx = AddPermissionlessDelegatorTx s ->
     fst (snd (ComputeFee meterTx c tx)) =
       if decide (s = PrimaryNetworkID)
       then AddPrimaryNetworkDelegatorFee (staticCfg c)
       else AddSubnetDelegatorFee (staticCfg c)) /\
  (forall s, tx = AddPermissionlessValidatorTx s -> s <> PrimaryNetworkID ->
     fst (snd (ComputeFee meterTx c tx)) = AddSubnetValidatorFee (staticCfg c)).
Proof.
  intros HE. unfold ComputeFee, Visit. rewrite HE. repeat split.
  - by destruct tx.
  - by destruct tx.
  - intros s ->. simpl. destruct (N.eqb_spec s PrimaryNetworkID);
      case_decide; done.
  - intros s -> Hs. simpl. by destruct (N.eqb_spec s PrimaryNetworkID).
Qed.

Lemma static_fee_schedule_witness :
  snd (snd (ComputeFee noMeter exampleStatic ExportTx)) = None /\
  (paysFlatFee ExportTx = true ->
     fst (snd (ComputeFee noMeter exampleStatic ExportTx)) = 1) /\
  (forall s, ExportTx = AddPermissionlessDelegatorTx s ->
     fst (snd (ComputeFee noMeter exampleStatic ExportTx)) =
       if decide (s = PrimaryNetworkID)
       then AddPrimaryNetworkDelegatorFee (staticCfg exampleStatic)
       else AddSubnetDelegatorFee (staticCfg exampleStatic)) /\
  (forall s, ExportTx = AddPermissionlessValidatorTx s -> s <> PrimaryNetworkID ->
     fst (snd (ComputeFee noMeter exampleStatic ExportTx)) =
       AddSubnetValidatorFee (staticCfg exampleStatic)).
Proof.
  apply (static_fee_schedule noMeter exampleStatic ExportTx). reflexivity.
Defined.

(** *** Tip percentage *)

(** C5, as stated, fails: with a required fee of zero the stored tip
    percentage is whatever it was before the call, here 7. *)
Lemma tip_percentage_zero_fee_keeps_tip :
  fee exampleZeroFee = 0 /\
  snd (CalculateTipPercentage (fun _ => true) exampleZeroFee 5) = None /\
  tipPercentage (fst (CalculateTipPercentage (fun _ => true) exampleZeroFee 5)) = 7 /\
  tipPercentage (fst (CalculateTipPercentage (fun _ => true) exampleZeroFee 5)) <> 0.
Proof. repeat split. vm_compute. discriminate. Qed.

(** C5, amended: CalculateTipPercentage fails with the fees-paid-less-than-
    required error exactly when paid < required; when required is zero the
    calculator, and with it the stored tip percentage, is left as it was; and
    otherwise, when (paid - required) * TipDenonimator fits 64 bits, the
    stored tip percentage is (paid - required) * TipDenonimator / required. *)
Theorem CalculateTipPercentage_spec validTip c feesPaid :
  is_u64 feesPaid -> is_u64 (fee c) ->
  ((exists a b, snd (CalculateTipPercentage validTip c feesPaid)
                = Some (ErrFeesPaidLessThanRequired a b))
   <-> feesPaid < fee c) /\
  (fee c = 0 ->
     CalculateTipPercentage validTip c feesPaid = (c, None)) /\
  (fee c <> 0 -> fee c <= feesPaid ->
     (feesPaid - fee c) * TipDenonimator <= MaxUint64 ->
     tipPercentage (fst (CalculateTipPercentage validTip c feesPaid))
       = (feesPaid - fee c) * TipDenonimator / fee c).
Proof.
  unfold is_u64, MaxUint64. intros Hp Hf. unfold CalculateTipPercentage.
  destruct (Z.ltb_spec feesPaid (fee c)) as [Hlt|Hge].
  - split; [|split].
    + split; [done|]. intros _. simpl. eauto.
    + lia.
    + lia.
  - destruct (Z.eqb_spec (fee c) 0) as [H0|H0].
    + split; [|split]; [|done|done].
      simpl. split; [|lia]. by intros (a & b & ?).
    + split; [|split]; [|done|].
      * cbn [snd]. unfold Validate. split; [|lia].
        intros (a & b & Hx). by destruct (validTip _).
      * intros _ _ Hfit. cbn [fst]. unfold set_tipPercentage, wrap64.
        cbn [tipPercentage]. unfold TipDenonimator in *.
        rewrite (Z.mod_small (feesPaid - fee c)) by lia.
        rewrite Z.mod_small by lia. done.
Qed.

Lemma CalculateTipPercentage_spec_witness :
  ((exists a b, snd (CalculateTipPercentage (fun _ => true) (set_fee exampleStatic 100) 101)
                = Some (ErrFeesPaidLessThanRequired a b))
   <-> 101 < fee (set_fee exampleStatic 100)) /\
  (fee (set_fee exampleStatic 100) = 0 ->
     CalculateTipPercentage (fun _ => true) (set_fee exampleStatic 100) 101
       = (set_fee exampleStatic 100, None)) /\
  (fee (set_fee exampleStatic 100) <> 0 -> fee (set_fee exampleStatic 100) <= 101 ->
     (101 - fee (set_fee exampleStatic 100)) * TipDenonimator <= MaxUint64 ->
     tipPercentage (fst (CalculateTipPercentage (fun _ => true)
                           (set_fee exampleStatic 100) 101))
       = (101 - fee (set_fee exampleStatic 100)) * TipDenonimator
         / fee (set_fee exampleStatic 100)).
Proof.
  apply (CalculateTipPercentage_spec (fun _ => true) (set_fee exampleStatic 100) 101).
  - unfold is_u64, MaxUint64. lia.
  - unfold is_u64, MaxUint64. simpl. lia.
Defined.

Example tip_one_percent :
  tipPercentage (fst (CalculateTipPercentage (fun _ => true)
                        (set_fee exampleStatic 100) 101)) = 10000.
Proof. reflexivity. Qed.

(** *** Adding and removing fees *)






End FeeProperties.

(** ** Validator manager *)

Section ValidatorsProperties.
Import Validators.

Lemma applyHeights_Err
    (diffAt : Z -> gmap N GetValidatorOutput ->
              result ManagerError (gmap N GetValidatorOutput)) heights e :
  fold_left (fun r height => let* validators := r in diffAt height validators)
            heights (Err e) = Err e.
Proof. induction heights as [|h hs IH]; simpl; [done | apply IH]. Qed.

Lemma applyHeights_cons diffAt h heights validators :
  applyHeights diffAt (h :: heights) validators =
  let* validators := diffAt h validators in applyHeights diffAt heights validators.
Proof.
  unfold applyHeights. simpl. destruct (diffAt h validators); simpl; [done|].
  apply applyHeights_Err.
Qed.

(** The loop from a height downwards applies the diffs of the heights it
    passes, highest first. *)
Lemma applyDown_heights diffAt n height validators :
  applyDown diffAt n height validators =
  applyHeights diffAt
    (reverse (seqZ (height - Z.of_nat n + 1) (Z.of_nat n))) validators.
Proof.
  revert height validators. induction n as [|n IH]; intros height validators.
  - simpl. by rewrite seqZ_nil.
  - rewrite seqZ_S, reverse_snoc.
    replace (height - Z.of_nat (S n) + 1 + Z.of_nat n) with height by lia.
    rewrite applyHeights_cons. cbn [applyDown].
    destruct (diffAt height validators) as [validators'|e]; simpl; [|done].
    rewrite IH. do 3 f_equal. lia.
Qed.

Lemma applyDown_heightsDown diffAt currentHeight targetHeight validators :
  targetHeight <= currentHeight ->
  applyDown diffAt (Z.to_nat (currentHeight - (targetHeight + 1) + 1))
    currentHeight validators =
  applyHeights diffAt (heightsDown currentHeight targetHeight) validators.
Proof.
  intros Hle. rewrite applyDown_heights. unfold heightsDown.
  do 3 f_equal; lia.
Qed.

Example heightsDown_example : heightsDown 5 2 = [5; 4; 3].
Proof. reflexivity. Qed.

Example reconstruction_example :
  snd (GetValidatorSet exampleManager 2 9%N) =
    Ok {[1%N := mkGetValidatorOutput 1 (Some 77%N) 28]}.
Proof. vm_compute. reflexivity. Qed.

(** C7: with the current sets and the current height at hand, the
    reconstruction returns NotFound when the target height exceeds the
    current height, and otherwise applies to a copy of the current set the
    weight diffs and then the public-key diffs of exactly the heights
    [target + 1, current], highest first (for a subnet, the primary network's
    public keys are laid over the set in between); the sets held in memory
    are not changed. *)
Theorem validator_set_reconstruction m targetHeight subnetID
    primarySet currentSet currentHeight :
  is_u64 targetHeight ->
  0 <= currentHeight < MaxUint64 ->
  cfgValidators m !! PrimaryNetworkID = Some primarySet ->
  currentSetOf m subnetID = Ok currentSet ->
  getCurrentHeight m = Ok currentHeight ->
  (currentHeight < targetHeight ->
     GetValidatorSet m targetHeight subnetID = (m, Err ErrNotFound)) /\
  (targetHeight <= currentHeight ->
     GetValidatorSet m targetHeight subnetID =
       (m,
        let heights := heightsDown currentHeight targetHeight in
        let* validatorSet :=
          applyHeights (weightDiffAt (state m) subnetID) heights currentSet in
        let* validatorSet :=
          if N.eqb subnetID PrimaryNetworkID then Ok validatorSet
          else overlayPublicKeys validatorSet primarySet in
        applyHeights (publicKeyDiffAt (state m)) heights validatorSet)).
Proof.
  unfold is_u64, MaxUint64. intros Ht Hh Hprimary Hcurrent Hheight.
  unfold GetValidatorSet.
  destruct (N.eqb_spec subnetID PrimaryNetworkID) as [->|Hsub].
  - unfold makePrimaryNetworkValidatorSet, getCurrentPrimaryValidatorSet.
    unfold currentSetOf in Hcurrent. rewrite Hprimary in Hcurrent |- *.
    injection Hcurrent as <-. rewrite Hheight. cbn [bind].
    split; intros Hcmp.
    + destruct (Z.ltb_spec currentHeight targetHeight); [done | lia].
    + destruct (Z.ltb_spec currentHeight targetHeight); [lia|].
      unfold wrap64. rewrite Z.mod_small by lia.
      unfold ApplyValidatorWeightDiffs, ApplyValidatorPublicKeyDiffs.
      rewrite !applyDown_heightsDown by done.
      change PlatformChainID with PrimaryNetworkID. f_equal.
      destruct (applyHeights _ _ primarySet) as [vs|e]; cbn [bind]; [|done].
      rewrite applyDown_heightsDown by done.
      by destruct (applyHeights _ _ vs).
  - unfold makeSubnetValidatorSet, getCurrentValidatorSets.
    unfold currentSetOf in Hcurrent. rewrite Hcurrent, Hprimary, Hheight.
    cbn [bind]. split; intros Hcmp.
    + destruct (Z.ltb_spec currentHeight targetHeight); [done | lia].
    + destruct (Z.ltb_spec currentHeight targetHeight); [lia|].
      unfold wrap64. rewrite Z.mod_small by lia.
      unfold ApplyValidatorWeightDiffs, ApplyValidatorPublicKeyDiffs.
      rewrite !applyDown_heightsDown by done. f_equal.
      destruct (applyHeights _ _ currentSet) as [vs|e]; cbn [bind]; [|done].
      destruct (overlayPublicKeys vs primarySet) as [vs'|e]; cbn [bind]; [|done].
      rewrite applyDown_heightsDown by done.
      by destruct (applyHeights _ _ vs').
Qed.

Lemma validator_set_reconstruction_witness :
  (5 < 2 -> GetValidatorSet exampleManager 2 9%N = (exampleManager, Err ErrNotFound)) /\
  (2 <= 5 ->
     GetValidatorSet exampleManager 2 9%N =
       (exampleManager,
        let heights := heightsDown 5 2 in
        let* validatorSet :=
          applyHeights (weightDiffAt (state exampleManager) 9%N) heights
            {[1%N := mkGetValidatorOutput 1 None 40]} in
        let* validatorSet :=
          if N.eqb 9%N PrimaryNetworkID then Ok validatorSet
          else overlayPublicKeys validatorSet
                 {[1%N := mkGetValidatorOutput 1 (Some 77%N) 100]} in
        applyHeights (publicKeyDiffAt (state exampleManager)) heights validatorSet)).
Proof.
  apply (validator_set_reconstruction exampleManager 2 9%N
           {[1%N := mkGetValidatorOutput 1 (Some 77%N) 100]}
           {[1%N := mkGetValidatorOutput 1 None 40]} 5).
  - unfold is_u64, MaxUint64. lia.
  - unfold MaxUint64. lia.
  - vm_compute. reflexivity.
  - vm_compute. reflexivity.
  - reflexivity.
Defined.

Example reconstruction_above_current :
  snd (GetValidatorSet exampleManager 6 9%N) = Err ErrNotFound.
Proof. vm_compute. reflexivity. Qed.

End ValidatorsProperties.

(** ** Staker verification and executor *)

Section StakingProperties.
Import Staking.

(** *** The delegation cap *)

Example delegation_cap_scenario :
  addDelegatorMaximumWeight exampleConfig 1000 1000 = Ok 3000 /\
  permissionlessDelegatorMaximumWeight
    (mkAddDelegatorRules 0 10 (2 ^ 64 - 1) 10 1000 5) (2 ^ 62) = MaxUint64.
Proof. split; reflexivity. Qed.


Lemma check_Ok failed e u : check failed e = Ok u -> failed = false.
Proof. by destruct failed. Qed.










Example permissionless_delegator_saturated_accepts :
  verifyAddPermissionlessDelegatorTx MaxFutureStartTime (exampleBackend true)
    (exampleState 1000)
    (exampleTx (exampleStakerTx AddPermissionlessDelegatorTx 7 2000 3000 10))
    (exampleStakerTx AddPermissionlessDelegatorTx 7 2000 3000 10) = Ok 900000.
Proof. reflexivity. Qed.


(** *** The start-time rule *)









Lemma GetValidator_Err st subnetID nodeID e :
  GetValidator st subnetID nodeID = Err e -> e = ErrNotFound.
Proof.
  unfold GetValidator, GetCurrentValidator, GetPendingValidator.
  destruct (find _ (currentValidators st)); [done|]. simpl.
  destruct (find _ (pendingValidators st)); [done|]. by intros [= <-].
Qed.













(** *** Insertion of the staker *)







Example post_fork_past_start_accepted :
  verifyStakerTx MaxFutureStartTime (exampleBackend true) (exampleState 6000)
    (exampleTx (exampleStakerTx AddValidatorTx 30 500 5000 200))
    (exampleStakerTx AddValidatorTx 30 500 5000 200) = Ok tt.
Proof. reflexivity. Qed.

(** *** Stopping a staker *)











Example stop_staker_executes :
  execStopStakerTx (exampleBackend true) (exampleState 6000)
    exampleStopSignedTx exampleStopTx = Ok stoppedExampleState /\
  EarliestStopTime <$> currentDelegators stoppedExampleState
    = [900000; 900000; 800000] /\
  EarliestStopTime <$> currentValidators stoppedExampleState
    = [900000; 900000; 900000].
Proof. vm_compute. repeat split. Qed.

Example stop_staker_scenario :
  verifyStopStakerTx (exampleBackend true) (exampleState 6000)
    exampleStopSignedTx exampleStopTx
  = Ok ([exampleValidator; exampleSubnetValidator;
         exampleDelegator 12 7; exampleDelegator 13 7], 900000).
Proof. vm_compute. reflexivity. Qed.

End StakingProperties.

(** ** Doubly linked list *)

Section LinkedLemmas.
Import Linked.
Context {T : Type}.
Implicit Types (h : Heap T) (p q r e loc : Ptr) (ps xs ys : list Ptr) (l : nat).

(** *** Memory accesses *)

Lemma run_load {A B} (field : ListElement T -> A) (k : A -> M T B) h p c :
  elems h !! p = Some c -> sbind (load field (Some p)) k h = k (field c) h.
Proof. intros H. unfold sbind, load. by rewrite H. Qed.

Lemma run_load_next {B} (k : pointer -> M T B) h p :
  alloc h p -> sbind (load next (Some p)) k h = k (nextOf h p) h.
Proof. intros [c H]. rewrite (run_load _ _ _ _ c H). unfold nextOf. by rewrite H. Qed.

Lemma run_load_prev {B} (k : pointer -> M T B) h p :
  alloc h p -> sbind (load prev (Some p)) k h = k (prevOf h p) h.
Proof. intros [c H]. rewrite (run_load _ _ _ _ c H). unfold prevOf. by rewrite H. Qed.

Lemma run_load_list {B} (k : option nat -> M T B) h p :
  alloc h p -> sbind (load list_ (Some p)) k h = k (listOf h p) h.
Proof. intros [c H]. rewrite (run_load _ _ _ _ c H). unfold listOf. by rewrite H. Qed.

Lemma end_load_next h p :
  alloc h p -> load next (Some p) h = Some (nextOf h p, h).
Proof. intros [c H]. unfold load, nextOf. by rewrite H. Qed.

Lemma end_load_prev h p :
  alloc h p -> load prev (Some p) h = Some (prevOf h p, h).
Proof. intros [c H]. unfold load, prevOf. by rewrite H. Qed.

Lemma run_store {B} f (k : unit -> M T B) h p :
  alloc h p -> sbind (store f (Some p)) k h = k tt (upd h p f).
Proof. intros [c H]. unfold sbind, store. by rewrite H. Qed.

Lemma end_store f h p :
  alloc h p -> store f (Some p) h = Some (tt, upd h p f).
Proof. intros [c H]. unfold store. by rewrite H. Qed.

Lemma run_loadLength {B} (k : Z -> M T B) h l n :
  lengths h !! l = Some n -> sbind (loadLength l) k h = k n h.
Proof. intros H. unfold sbind, loadLength. by rewrite H. Qed.

Lemma end_storeLength h l n m :
  lengths h !! l = Some n ->
  storeLength l m h = Some (tt, mkHeap (elems h) (<[l := m]> (lengths h))).
Proof. intros H. unfold storeLength. by rewrite H. Qed.

Lemma lookup_upd h p f q :
  elems (upd h p f) !! q
  = if decide (q = p) then f <$> elems h !! p else elems h !! q.
Proof.
  unfold upd. cbn. case_decide as Hq.
  - subst. apply lookup_alter_eq.
  - by apply lookup_alter_ne.
Qed.

Lemma alloc_upd h p f q : alloc (upd h p f) q <-> alloc h q.
Proof.
  unfold alloc. rewrite lookup_upd. case_decide; [subst|done].
  by rewrite fmap_is_Some.
Qed.

Lemma valueOf_upd h p f q :
  (forall c, Value (f c) = Value c) -> valueOf (upd h p f) q = valueOf h q.
Proof.
  intros Hf. unfold valueOf. rewrite lookup_upd. case_decide; [subst|done].
  destruct (elems h !! p); cbn; [by rewrite Hf | done].
Qed.

Lemma nextOf_upd h p f q :
  nextOf (upd h p f) q
  = if decide (q = p) then elems h !! p ≫= (fun c => next (f c)) else nextOf h q.
Proof.
  unfold nextOf. rewrite lookup_upd. case_decide; [subst|done].
  by destruct (elems h !! p).
Qed.

Lemma prevOf_upd h p f q :
  prevOf (upd h p f) q
  = if decide (q = p) then elems h !! p ≫= (fun c => prev (f c)) else prevOf h q.
Proof.
  unfold prevOf. rewrite lookup_upd. case_decide; [subst|done].
  by destruct (elems h !! p).
Qed.

Lemma listOf_upd h p f q :
  listOf (upd h p f) q
  = if decide (q = p) then elems h !! p ≫= (fun c => list_ (f c)) else listOf h q.
Proof.
  unfold listOf. rewrite lookup_upd. case_decide; [subst|done].
  by destruct (elems h !! p).
Qed.

Lemma nextOf_set_next h p v q :
  alloc h p ->
  nextOf (upd h p (set_next v)) q = if decide (q = p) then v else nextOf h q.
Proof. intros [c H]. rewrite nextOf_upd, H. done. Qed.

Lemma nextOf_set_prev h p v q : nextOf (upd h p (set_prev v)) q = nextOf h q.
Proof.
  rewrite nextOf_upd. case_decide; [subst|done]. unfold nextOf.
  by destruct (elems h !! p).
Qed.

Lemma nextOf_set_list h p v q : nextOf (upd h p (set_list v)) q = nextOf h q.
Proof.
  rewrite nextOf_upd. case_decide; [subst|done]. unfold nextOf.
  by destruct (elems h !! p).
Qed.

Lemma prevOf_set_prev h p v q :
  alloc h p ->
  prevOf (upd h p (set_prev v)) q = if decide (q = p) then v else prevOf h q.
Proof. intros [c H]. rewrite prevOf_upd, H. done. Qed.

Lemma prevOf_set_next h p v q : prevOf (upd h p (set_next v)) q = prevOf h q.
Proof.
  rewrite prevOf_upd. case_decide; [subst|done]. unfold prevOf.
  by destruct (elems h !! p).
Qed.

Lemma prevOf_set_list h p v q : prevOf (upd h p (set_list v)) q = prevOf h q.
Proof.
  rewrite prevOf_upd. case_decide; [subst|done]. unfold prevOf.
  by destruct (elems h !! p).
Qed.

Lemma listOf_set_list h p v q :
  alloc h p ->
  listOf (upd h p (set_list v)) q = if decide (q = p) then v else listOf h q.
Proof. intros [c H]. rewrite listOf_upd, H. done. Qed.

Lemma listOf_set_next h p v q : listOf (upd h p (set_next v)) q = listOf h q.
Proof.
  rewrite listOf_upd. case_decide; [subst|done]. unfold listOf.
  by destruct (elems h !! p).
Qed.

Lemma listOf_set_prev h p v q : listOf (upd h p (set_prev v)) q = listOf h q.
Proof.
  rewrite listOf_upd. case_decide; [subst|done]. unfold listOf.
  by destruct (elems h !! p).
Qed.

Lemma nextOf_alloc h p q : nextOf h p = Some q -> alloc h p.
Proof. unfold nextOf, alloc. by destruct (elems h !! p). Qed.

Lemma prevOf_alloc h p q : prevOf h p = Some q -> alloc h p.
Proof. unfold prevOf, alloc. by destruct (elems h !! p). Qed.

Lemma listOf_alloc h p l : listOf h p = Some l -> alloc h p.
Proof. unfold listOf, alloc. by destruct (elems h !! p). Qed.

Lemma valueOf_alloc h h' :
  (forall p, valueOf h' p = valueOf h p) -> forall p, alloc h' p <-> alloc h p.
Proof.
  intros Hv p. specialize (Hv p). unfold valueOf, alloc in *.
  destruct (elems h' !! p), (elems h !! p); naive_solver.
Qed.

(** *** The memory after unlinking and linking an element *)

Lemma alloc_unlinked h ep en q : alloc (unlinked h ep en) q <-> alloc h q.
Proof. unfold unlinked. by rewrite !alloc_upd. Qed.

Lemma nextOf_unlinked h ep en q :
  alloc h ep ->
  nextOf (unlinked h ep en) q = if decide (q = ep) then Some en else nextOf h q.
Proof. intros. unfold unlinked. by rewrite nextOf_set_prev, nextOf_set_next. Qed.

Lemma prevOf_unlinked h ep en q :
  alloc h en ->
  prevOf (unlinked h ep en) q = if decide (q = en) then Some ep else prevOf h q.
Proof.
  intros. unfold unlinked.
  rewrite prevOf_set_prev by (by rewrite alloc_upd). by rewrite prevOf_set_next.
Qed.

Lemma listOf_unlinked h ep en q : listOf (unlinked h ep en) q = listOf h q.
Proof. unfold unlinked. by rewrite listOf_set_prev, listOf_set_next. Qed.

Lemma valueOf_unlinked h ep en q : valueOf (unlinked h ep en) q = valueOf h q.
Proof. unfold unlinked. by rewrite !valueOf_upd. Qed.

Lemma alloc_linked h e loc r q : alloc (linked h e loc r) q <-> alloc h q.
Proof. unfold linked. by rewrite !alloc_upd. Qed.

Lemma nextOf_linked h e loc r q :
  alloc h e -> alloc h loc ->
  nextOf (linked h e loc r) q
  = if decide (q = loc) then Some e
    else if decide (q = e) then Some r else nextOf h q.
Proof.
  intros. unfold linked.
  rewrite nextOf_set_prev, nextOf_set_next by (by rewrite !alloc_upd).
  rewrite nextOf_set_next by (by rewrite !alloc_upd).
  by rewrite nextOf_set_prev.
Qed.

Lemma prevOf_linked h e loc r q :
  alloc h e -> alloc h r ->
  prevOf (linked h e loc r) q
  = if decide (q = r) then Some e
    else if decide (q = e) then Some loc else prevOf h q.
Proof.
  intros. unfold linked.
  rewrite prevOf_set_prev by (by rewrite !alloc_upd).
  rewrite !prevOf_set_next.
  by rewrite prevOf_set_prev.
Qed.

Lemma listOf_linked h e loc r q : listOf (linked h e loc r) q = listOf h q.
Proof.
  unfold linked.
  by rewrite listOf_set_prev, !listOf_set_next, listOf_set_prev.
Qed.

Lemma valueOf_linked h e loc r q : valueOf (linked h e loc r) q = valueOf h q.
Proof. unfold linked. by rewrite !valueOf_upd. Qed.

(** The statements of [Remove] and [moveAfter] that take [e] out of its
    ring. *)
Lemma run_unlink {B} (k : unit -> M T B) h e ep en :
  prevOf h e = Some ep -> nextOf h e = Some en ->
  alloc h ep -> alloc h en -> e <> ep ->
  (let! ep' := load prev (Some e) in
   let! en' := load next (Some e) in
   let! _ := store (set_next en') ep' in
   let! en' := load next (Some e) in
   let! ep' := load prev (Some e) in
   sbind (store (set_prev ep') en') k) h
  = k tt (unlinked h ep en).
Proof.
  intros Hp Hn Hep Hen Hne.
  assert (alloc h e) as He by (by eapply nextOf_alloc).
  rewrite run_load_prev by done. rewrite Hp.
  rewrite run_load_next by done. rewrite Hn.
  rewrite run_store by done.
  rewrite run_load_next by (by rewrite alloc_upd).
  rewrite nextOf_set_next, decide_False, Hn by done.
  rewrite run_load_prev by (by rewrite alloc_upd).
  rewrite prevOf_set_next, Hp.
  rewrite run_store by (by rewrite alloc_upd).
  done.
Qed.

(** The statements of [insertAfter] and [moveAfter] that put [e] after
    [loc], up to the last assignment. *)
Lemma run_link {B} (fin : pointer -> M T B) h e loc r :
  alloc h e -> nextOf h loc = Some r -> e <> loc ->
  (let! _ := store (set_prev (Some loc)) (Some e) in
   let! ln := load next (Some loc) in
   let! _ := store (set_next ln) (Some e) in
   let! ep := load prev (Some e) in
   let! _ := store (set_next (Some e)) ep in
   sbind (load next (Some e)) fin) h
  = fin (Some r)
      (upd (upd (upd h e (set_prev (Some loc))) e (set_next (Some r)))
           loc (set_next (Some e))).
Proof.
  intros He Hn Hne.
  assert (alloc h loc) as Hloc by (by eapply nextOf_alloc).
  rewrite run_store by done.
  rewrite run_load_next by (by rewrite alloc_upd).
  rewrite nextOf_set_prev, Hn.
  rewrite run_store by (by rewrite alloc_upd).
  rewrite run_load_prev by (by rewrite !alloc_upd).
  rewrite prevOf_set_next, prevOf_set_prev, decide_True by done.
  rewrite run_store by (by rewrite !alloc_upd).
  rewrite run_load_next by (by rewrite !alloc_upd).
  rewrite nextOf_set_next, decide_False by (by rewrite ?alloc_upd).
  rewrite nextOf_set_next, decide_True by (by rewrite ?alloc_upd).
  done.
Qed.

(** *** Chains of links *)

Lemma seg_app h p ps1 r ps2 q :
  seg h p (ps1 ++ r :: ps2) q <-> seg h p ps1 r /\ seg h r ps2 q.
Proof.
  revert p. induction ps1 as [|x ps1 IH]; intros p; simpl.
  - tauto.
  - rewrite IH. tauto.
Qed.

Lemma seg_rotate h p ps1 r ps2 :
  seg h p (ps1 ++ r :: ps2) p <-> seg h r (ps2 ++ p :: ps1) r.
Proof. rewrite !seg_app. tauto. Qed.

Lemma seg_frame h h' p ps q :
  seg h p ps q ->
  (forall x, x ∈ p :: ps -> nextOf h' x = nextOf h x) ->
  (forall x, x ∈ ps ++ [q] -> prevOf h' x = prevOf h x) ->
  seg h' p ps q.
Proof.
  revert p. induction ps as [|r ps IH]; intros p; simpl.
  - intros [Hn Hp] Hnext Hprev. split.
    + rewrite Hnext; [done | set_solver].
    + rewrite Hprev; [done | set_solver].
  - intros (Hn & Hp & Hseg) Hnext Hprev. split; [|split].
    + rewrite Hnext; [done | set_solver].
    + rewrite Hprev; [done | set_solver].
    + apply IH; [done | |]; intros x ?; [apply Hnext | apply Hprev]; set_solver.
Qed.

Lemma seg_alloc h p ps q x : seg h p ps q -> x ∈ p :: ps -> alloc h x.
Proof.
  revert p. induction ps as [|r ps IH]; intros p; simpl.
  - intros [Hn _] Hx. apply list_elem_of_singleton in Hx as ->.
    by eapply nextOf_alloc.
  - intros (Hn & _ & Hseg) Hx. apply elem_of_cons in Hx as [->|Hx].
    + by eapply nextOf_alloc.
    + by apply (IH r).
Qed.

Lemma seg_next_last h p ps q :
  seg h p ps q -> nextOf h (default p (last ps)) = Some q.
Proof.
  revert p. induction ps as [|r ps IH] using rev_ind; intros p.
  - by intros [? _].
  - intros Hseg. apply seg_app in Hseg as [_ [Hn _]]. by rewrite last_snoc.
Qed.

Lemma seg_prev_last h p ps q :
  seg h p ps q -> prevOf h q = Some (default p (last ps)).
Proof.
  revert p. induction ps as [|r ps IH] using rev_ind; intros p.
  - by intros [_ ?].
  - intros Hseg. apply seg_app in Hseg as [_ [_ Hp]]. by rewrite last_snoc.
Qed.

Lemma seg_next_head h p ps q :
  seg h p ps q -> nextOf h p = Some (default q (head ps)).
Proof. destruct ps; simpl; tauto. Qed.

(** Linking [e] after [loc] in a ring that starts at [loc]. *)
Lemma cyc_link h h' loc e r ps :
  seg h loc ps loc -> NoDup (loc :: ps) -> e ∉ loc :: ps ->
  nextOf h loc = Some r ->
  (forall q, nextOf h' q = if decide (q = loc) then Some e
                           else if decide (q = e) then Some r else nextOf h q) ->
  (forall q, prevOf h' q = if decide (q = r) then Some e
                           else if decide (q = e) then Some loc else prevOf h q) ->
  seg h' loc (e :: ps) loc.
Proof.
  intros Hseg Hnd He Hr Hnext Hprev.
  apply not_elem_of_cons in He as [Hne He].
  apply NoDup_cons in Hnd as [Hloc Hnd].
  destruct ps as [|r' ps]; simpl in Hseg.
  - destruct Hseg as [Hn Hp]. assert (r = loc) as -> by congruence.
    simpl. rewrite !Hnext, !Hprev. repeat case_decide; by simplify_eq.
  - destruct Hseg as (Hn & Hp & Hseg). assert (r' = r) as -> by congruence.
    apply not_elem_of_cons in He as [Hne' He].
    apply not_elem_of_cons in Hloc as [Hne'' Hloc].
    apply NoDup_cons in Hnd as [Hr' Hnd].
    simpl. rewrite !Hnext, !Hprev.
    split; [|split; [|split; [|split]]];
      [repeat case_decide; by simplify_eq ..|].
    apply (seg_frame h); [done | |].
    + intros x Hx. rewrite Hnext.
      rewrite !decide_False; [done | set_solver | set_solver].
    + intros x Hx. rewrite Hprev.
      rewrite !decide_False; [done | set_solver | set_solver].
Qed.

(** Unlinking [e] from a ring that starts at [e]. *)
Lemma cyc_unlink h h' e r ps ep :
  seg h e (r :: ps) e -> NoDup (e :: r :: ps) ->
  prevOf h e = Some ep ->
  (forall q, q <> e ->
     nextOf h' q = if decide (q = ep) then Some r else nextOf h q) ->
  (forall q, q <> e ->
     prevOf h' q = if decide (q = r) then Some ep else prevOf h q) ->
  seg h' r ps r.
Proof.
  intros Hseg Hnd Hep Hnext Hprev.
  apply NoDup_cons in Hnd as [He Hnd].
  apply not_elem_of_cons in He as [Hne He].
  apply NoDup_cons in Hnd as [Hr Hnd].
  destruct Hseg as (Hn & Hp & Hseg).
  destruct ps as [|x ps _] using rev_ind.
  - destruct Hseg as [Hn' Hp']. assert (ep = r) as -> by congruence.
    simpl. rewrite Hnext, Hprev by done. by rewrite !decide_True.
  - apply seg_app in Hseg as [Hseg [Hn' Hp']].
    assert (ep = x) as -> by congruence.
    apply seg_app. split; [|split].
    + apply (seg_frame h); [done | |].
      * intros y Hy. rewrite Hnext by set_solver.
        rewrite decide_False; [done|].
        intros ->. apply NoDup_app in Hnd as (_ & Hnd & _).
        apply elem_of_cons in Hy as [->|Hy]; [set_solver|].
        apply (Hnd x Hy). set_solver.
      * intros y Hy. rewrite Hprev by set_solver.
        rewrite decide_False; [done | set_solver].
    + rewrite Hnext by set_solver. by rewrite decide_True.
    + rewrite Hprev by done. by rewrite decide_True.
Qed.

(** Linking [e] after the last element of [ps1] (or after [p], when [ps1] is
    empty) in a ring that starts at [p]. *)
Lemma ring_link h h' p ps1 ps2 e r :
  seg h p (ps1 ++ ps2) p -> NoDup (p :: ps1 ++ ps2) -> e ∉ p :: ps1 ++ ps2 ->
  nextOf h (default p (last ps1)) = Some r ->
  (forall q, nextOf h' q = if decide (q = default p (last ps1)) then Some e
                           else if decide (q = e) then Some r else nextOf h q) ->
  (forall q, prevOf h' q = if decide (q = r) then Some e
                           else if decide (q = e)
                                then Some (default p (last ps1))
                                else prevOf h q) ->
  seg h' p (ps1 ++ e :: ps2) p.
Proof.
  intros Hseg Hnd He Hr Hnext Hprev.
  destruct ps1 as [|loc ps1 _] using rev_ind.
  - by apply (cyc_link h h' p e r ps2).
  - rewrite last_snoc in Hr, Hnext, Hprev. cbn [default] in Hr, Hnext, Hprev.
    rewrite <- app_assoc in *. cbn [app] in *.
    apply seg_rotate in Hseg.
    apply (seg_rotate h' p ps1 loc (e :: ps2)).
    apply (cyc_link h h' loc e r (ps2 ++ p :: ps1)); try done.
    + eapply NoDup_Permutation_proper; [|exact Hnd]. solve_Permutation.
    + intros Hin. apply He. eapply elem_of_Permutation_proper; [|exact Hin].
      solve_Permutation.
Qed.

(** Unlinking [e] from a ring that starts at [p]. *)
Lemma ring_unlink h h' p ps1 ps2 e ep en :
  seg h p (ps1 ++ e :: ps2) p -> NoDup (p :: ps1 ++ e :: ps2) ->
  prevOf h e = Some ep -> nextOf h e = Some en ->
  (forall q, q <> e ->
     nextOf h' q = if decide (q = ep) then Some en else nextOf h q) ->
  (forall q, q <> e ->
     prevOf h' q = if decide (q = en) then Some ep else prevOf h q) ->
  seg h' p (ps1 ++ ps2) p.
Proof.
  intros Hseg Hnd Hep Hen Hnext Hprev.
  apply seg_rotate in Hseg.
  assert (NoDup (e :: ps2 ++ p :: ps1)) as Hnd'.
  { eapply NoDup_Permutation_proper; [|exact Hnd]. solve_Permutation. }
  destruct ps2 as [|r ps2]; cbn [app] in *.
  - rewrite app_nil_r.
    assert (en = p) as -> by (simpl in Hseg; destruct Hseg; congruence).
    by apply (cyc_unlink h h' e p ps1 ep).
  - assert (en = r) as -> by (simpl in Hseg; destruct Hseg; congruence).
    apply seg_rotate.
    by apply (cyc_unlink h h' e r (ps2 ++ p :: ps1) ep).
Qed.

Lemma seg_next_mid h p ps1 ps2 q :
  seg h p (ps1 ++ ps2) q ->
  nextOf h (default p (last ps1)) = Some (default q (head ps2)).
Proof.
  destruct ps1 as [|x ps1 _] using rev_ind; cbn [app].
  - apply seg_next_head.
  - rewrite <- app_assoc, last_snoc. cbn [app default].
    intros Hseg. apply seg_app in Hseg as [_ Hseg]. by apply seg_next_head.
Qed.

Lemma default_last_elem_of p ps : default p (last ps) ∈ p :: ps.
Proof.
  destruct ps as [|x ps _] using rev_ind; [set_solver|].
  rewrite last_snoc. set_solver.
Qed.

Lemma default_head_elem_of q ps : default q (head ps) ∈ ps ++ [q].
Proof. destruct ps; set_solver. Qed.

(** *** Lists *)

Lemma wrapInt_small z : - 2 ^ 63 <= z <= MaxInt -> wrapInt z = z.
Proof.
  unfold wrapInt, MaxInt. intros Hz.
  rewrite Z.mod_small by lia. lia.
Qed.

Lemma repr_alloc h l xs p : repr h l xs -> p ∈ Sentinel l :: xs -> alloc h p.
Proof. intros Hr Hp. apply (seg_alloc h _ _ _ _ (repr_ring _ _ _ Hr) Hp). Qed.

Lemma repr_frame h h' l xs :
  repr h l xs ->
  (forall p, listOf h p = Some l ->
     nextOf h' p = nextOf h p /\ prevOf h' p = prevOf h p) ->
  (forall p, listOf h' p = Some l <-> listOf h p = Some l) ->
  lengths h' !! l = lengths h !! l ->
  repr h' l xs.
Proof.
  intros [Hlen Hb Hring Hnd Hown] Hlinks Hlist Hlengths. split.
  - by rewrite Hlengths.
  - done.
  - apply (seg_frame h); [done | |]; intros x Hx; apply Hlinks, Hown; set_solver.
  - done.
  - intros p. by rewrite Hlist.
Qed.

Lemma preserved_intro h h' l e :
  (forall p, valueOf h' p = valueOf h p) ->
  (forall p, p <> e -> listOf h' p = listOf h p) ->
  (forall l2, l2 <> l -> listOf h e <> Some l2) ->
  (forall l2, l2 <> l -> listOf h' e <> Some l2) ->
  (forall p, p <> e -> listOf h p <> Some l ->
     nextOf h' p = nextOf h p /\ prevOf h' p = prevOf h p) ->
  (forall l2, l2 <> l -> lengths h' !! l2 = lengths h !! l2) ->
  preserved h h' l e.
Proof.
  intros Hval Hlist He He' Hlinks Hlen. split; [done..|].
  intros l2 ys Hl2 Hrepr. apply (repr_frame h); [done | | |by apply Hlen].
  - intros p Hp. apply Hlinks; [|congruence].
    intros ->. by apply (He l2).
  - intros p. destruct (decide (p = e)) as [->|Hne].
    + split; intros Hp; [by apply He' in Hp | by apply He in Hp].
    + by rewrite Hlist.
Qed.

(** [insertAfter] at the element that ends [xs1], or at the sentinel when
    [xs1] is empty. *)
Lemma insertAfter_at h l xs1 xs2 e :
  repr h l (xs1 ++ xs2) -> alloc h e -> listOf h e = None ->
  Z.of_nat (length (xs1 ++ xs2)) < MaxInt ->
  exists h',
    insertAfter l (Some e) (Some (default (Sentinel l) (last xs1))) h
      = Some (tt, h') /\
    repr h' l (xs1 ++ e :: xs2) /\ preserved h h' l e.
Proof.
  intros Hrepr He Hlist Hlt.
  pose proof Hrepr as [Hlen Hb Hring Hnd Hown].
  set (loc := default (Sentinel l) (last xs1)) in *.
  set (r := default (Sentinel l) (head xs2)).
  assert (nextOf h loc = Some r) as Hr by (by apply seg_next_mid).
  assert (loc ∈ Sentinel l :: xs1 ++ xs2) as Hloc.
  { pose proof (default_last_elem_of (Sentinel l) xs1). set_solver. }
  assert (r ∈ Sentinel l :: xs1 ++ xs2) as Hrin.
  { pose proof (default_head_elem_of (Sentinel l) xs2). set_solver. }
  assert (e ∉ Sentinel l :: xs1 ++ xs2) as Hein.
  { intros Hin. apply Hown in Hin. congruence. }
  assert (e <> loc) as Hne by (by intros ->).
  assert (e <> r) as Hne' by (by intros ->).
  assert (alloc h loc) as Haloc by (by eapply repr_alloc).
  assert (alloc h r) as Har by (by eapply repr_alloc).
  unfold insertAfter.
  rewrite run_load_list, Hlist by done.
  rewrite decide_False by (by intros ?).
  rewrite (run_link _ h e loc r) by done.
  rewrite run_store by (by rewrite !alloc_upd).
  fold (linked h e loc r).
  rewrite run_store by (by rewrite alloc_linked).
  erewrite run_loadLength by exact Hlen.
  erewrite end_storeLength by exact Hlen.
  eexists. split; [reflexivity|].
  set (h1 := upd (linked h e loc r) e (set_list (Some l))).
  assert (forall q, nextOf h1 q = if decide (q = loc) then Some e
            else if decide (q = e) then Some r else nextOf h q) as Hnext.
  { intros q. unfold h1. by rewrite nextOf_set_list, nextOf_linked. }
  assert (forall q, prevOf h1 q = if decide (q = r) then Some e
            else if decide (q = e) then Some loc else prevOf h q) as Hprev.
  { intros q. unfold h1. by rewrite prevOf_set_list, prevOf_linked. }
  assert (forall q, listOf h1 q = if decide (q = e) then Some l
            else listOf h q) as Hl.
  { intros q. unfold h1.
    rewrite listOf_set_list by (by rewrite alloc_linked).
    by rewrite listOf_linked. }
  assert (forall q, valueOf h1 q = valueOf h q) as Hval.
  { intros q. unfold h1. by rewrite valueOf_upd, valueOf_linked. }
  split.
  - split; cbn [lengths].
    + rewrite lookup_insert_eq, wrapInt_small by (unfold MaxInt in *; lia).
      f_equal. rewrite !length_app. cbn [length]. lia.
    + rewrite !length_app in *. cbn [length]. lia.
    + by apply (ring_link h _ _ _ _ _ r).
    + eapply NoDup_Permutation_proper;
        [|apply (NoDup_cons_2 e (Sentinel l :: xs1 ++ xs2)); done].
      solve_Permutation.
    + intros p. change (listOf h1 p = Some l <-> p ∈ Sentinel l :: xs1 ++ e :: xs2).
      rewrite Hl. case_decide as Hp.
      * subst. set_solver.
      * rewrite Hown. set_solver.
  - apply preserved_intro.
    + done.
    + intros p Hp. change (listOf h1 p = listOf h p).
      by rewrite Hl, decide_False.
    + intros l2 _. by rewrite Hlist.
    + intros l2 Hl2. change (listOf h1 e <> Some l2).
      rewrite Hl, decide_True by done. congruence.
    + intros p Hp Hpl.
      change (nextOf h1 p = nextOf h p /\ prevOf h1 p = prevOf h p).
      rewrite Hnext, Hprev.
      assert (p <> loc) by (intros ->; by apply Hpl, Hown).
      assert (p <> r) by (intros ->; by apply Hpl, Hown).
      by rewrite !decide_False.
    + intros l2 Hl2. cbn [lengths]. by rewrite lookup_insert_ne.
Qed.

Lemma repr_neighbours h l xs1 e xs2 :
  repr h l (xs1 ++ e :: xs2) ->
  let ep := default (Sentinel l) (last xs1) in
  let en := default (Sentinel l) (head xs2) in
  prevOf h e = Some ep /\ nextOf h e = Some en /\
  alloc h ep /\ alloc h en /\ e <> ep /\ e <> en /\ e <> Sentinel l /\
  listOf h e = Some l /\ listOf h ep = Some l /\ listOf h en = Some l.
Proof.
  intros Hrepr ep en. pose proof Hrepr as [Hlen Hb Hring Hnd Hown].
  apply seg_app in Hring as [Hs1 Hs2].
  pose proof (default_last_elem_of (Sentinel l) xs1) as Hep. fold ep in Hep.
  pose proof (default_head_elem_of (Sentinel l) xs2) as Hen. fold en in Hen.
  apply NoDup_cons in Hnd as [Hs Hnd].
  apply NoDup_app in Hnd as (Hnd1 & Hdisj & Hnd2).
  apply NoDup_cons in Hnd2 as [He2 Hnd2].
  assert (e <> Sentinel l) as HeS by set_solver.
  assert (e ∉ xs1) as He1 by (intros Hin; apply (Hdisj e Hin); set_solver).
  assert (ep ∈ Sentinel l :: xs1 ++ e :: xs2) as Hep' by set_solver.
  assert (en ∈ Sentinel l :: xs1 ++ e :: xs2) as Hen' by set_solver.
  split; [by apply seg_prev_last|]. split; [by apply seg_next_head|].
  split; [by eapply repr_alloc|]. split; [by eapply repr_alloc|].
  split; [set_solver|]. split; [set_solver|]. split; [done|].
  split; [apply Hown; set_solver|]. split; by apply Hown.
Qed.

(** [Remove] of an element of the list. *)
Lemma Remove_at h l xs1 xs2 e :
  repr h l (xs1 ++ e :: xs2) ->
  exists h',
    Remove l (Some e) h = Some (tt, h') /\
    repr h' l (xs1 ++ xs2) /\
    nextOf h' e = None /\ prevOf h' e = None /\ listOf h' e = None /\
    preserved h h' l e.
Proof.
  intros Hrepr.
  pose proof (repr_neighbours _ _ _ _ _ Hrepr)
    as (Hp & Hn & Haep & Haen & Hnep & Hnen & HeS & Hle & Hlep & Hlen').
  pose proof Hrepr as [Hlen Hb Hring Hnd Hown].
  set (ep := default (Sentinel l) (last xs1)) in *.
  set (en := default (Sentinel l) (head xs2)) in *.
  assert (alloc h e) as He by (by eapply listOf_alloc).
  unfold Remove.
  rewrite run_load_list, Hle by done.
  rewrite decide_False by (by intros ?).
  rewrite (run_unlink _ h e ep en) by done.
  rewrite !run_store by (by rewrite ?alloc_upd, alloc_unlinked).
  erewrite run_loadLength by exact Hlen.
  erewrite end_storeLength by exact Hlen.
  eexists. split; [reflexivity|].
  set (h1 := upd (upd (upd (unlinked h ep en) e (set_next None))
                      e (set_prev None)) e (set_list None)).
  assert (alloc (unlinked h ep en) e) as He' by (by rewrite alloc_unlinked).
  assert (forall q, nextOf h1 q = if decide (q = e) then None
            else if decide (q = ep) then Some en else nextOf h q) as Hnext.
  { intros q. unfold h1.
    rewrite nextOf_set_list, nextOf_set_prev, nextOf_set_next by done.
    by rewrite nextOf_unlinked. }
  assert (forall q, prevOf h1 q = if decide (q = e) then None
            else if decide (q = en) then Some ep else prevOf h q) as Hprev.
  { intros q. unfold h1.
    rewrite prevOf_set_list, prevOf_set_prev by (by rewrite alloc_upd).
    by rewrite prevOf_set_next, prevOf_unlinked. }
  assert (forall q, listOf h1 q = if decide (q = e) then None
            else listOf h q) as Hl.
  { intros q. unfold h1.
    rewrite listOf_set_list by (by rewrite !alloc_upd).
    by rewrite listOf_set_prev, listOf_set_next, listOf_unlinked. }
  assert (forall q, valueOf h1 q = valueOf h q) as Hval.
  { intros q. unfold h1. by rewrite !valueOf_upd, valueOf_unlinked. }
  assert (Sentinel l :: xs1 ++ e :: xs2 ≡ₚ e :: Sentinel l :: xs1 ++ xs2)
    as Hperm by solve_Permutation.
  rewrite Hperm in Hnd. apply NoDup_cons in Hnd as [Hein Hnd'].
  split; [|split; [|split; [|split]]].
  - split; cbn [lengths].
    + rewrite lookup_insert_eq. rewrite !length_app in *. cbn [length] in *.
      rewrite wrapInt_small by (unfold MaxInt in *; lia).
      f_equal. lia.
    + rewrite !length_app in *. cbn [length] in *. lia.
    + apply (ring_unlink h _ _ _ _ e ep en); try done.
      * by rewrite Hperm; apply NoDup_cons.
      * intros q Hq. change (nextOf h1 q = if decide (q = ep) then Some en
                                           else nextOf h q).
        by rewrite Hnext, decide_False.
      * intros q Hq. change (prevOf h1 q = if decide (q = en) then Some ep
                                           else prevOf h q).
        by rewrite Hprev, decide_False.
    + done.
    + intros p. change (listOf h1 p = Some l <-> p ∈ Sentinel l :: xs1 ++ xs2).
      rewrite Hl. case_decide as Hpe.
      * subst. split; [done | intros Hin; by apply Hein in Hin].
      * rewrite Hown, Hperm. set_solver.
  - change (nextOf h1 e = None). by rewrite Hnext, decide_True.
  - change (prevOf h1 e = None). by rewrite Hprev, decide_True.
  - change (listOf h1 e = None). by rewrite Hl, decide_True.
  - apply preserved_intro.
    + done.
    + intros p Hpe. change (listOf h1 p = listOf h p).
      by rewrite Hl, decide_False.
    + intros l2 Hl2. rewrite Hle. congruence.
    + intros l2 Hl2. change (listOf h1 e <> Some l2).
      by rewrite Hl, decide_True.
    + intros p Hpe Hpl.
      change (nextOf h1 p = nextOf h p /\ prevOf h1 p = prevOf h p).
      rewrite Hnext, Hprev.
      assert (p <> ep) by (intros ->; by apply Hpl).
      assert (p <> en) by (intros ->; by apply Hpl).
      by rewrite !decide_False.
    + intros l2 Hl2. cbn [lengths]. by rewrite lookup_insert_ne.
Qed.

(** [moveAfter] of an element of the list to the element that ends [ys1], or
    to the sentinel when [ys1] is empty. *)
Lemma moveAfter_at h l zs1 zs2 ys1 ys2 e :
  repr h l (zs1 ++ e :: zs2) -> zs1 ++ zs2 = ys1 ++ ys2 ->
  exists h',
    moveAfter l (Some e) (Some (default (Sentinel l) (last ys1))) h
      = Some (tt, h') /\
    repr h' l (ys1 ++ e :: ys2) /\ preserved h h' l e.
Proof.
  intros Hrepr Heq.
  pose proof (repr_neighbours _ _ _ _ _ Hrepr)
    as (Hp & Hn & Haep & Haen & Hnep & Hnen & HeS & Hle & Hlep & Hlen').
  pose proof Hrepr as [Hlen Hb Hring Hnd Hown].
  set (ep := default (Sentinel l) (last zs1)) in *.
  set (en := default (Sentinel l) (head zs2)) in *.
  set (loc := default (Sentinel l) (last ys1)).
  set (r := default (Sentinel l) (head ys2)).
  assert (alloc h e) as He by (by eapply listOf_alloc).
  assert (Sentinel l :: zs1 ++ e :: zs2 ≡ₚ e :: Sentinel l :: ys1 ++ ys2)
    as Hperm by (rewrite <- Heq; solve_Permutation).
  pose proof Hnd as Hnd0.
  rewrite Hperm in Hnd. apply NoDup_cons in Hnd as [Hein Hnd'].
  assert (loc ∈ Sentinel l :: ys1 ++ ys2) as Hloc.
  { pose proof (default_last_elem_of (Sentinel l) ys1). set_solver. }
  assert (r ∈ Sentinel l :: ys1 ++ ys2) as Hrin.
  { pose proof (default_head_elem_of (Sentinel l) ys2). set_solver. }
  assert (e <> loc) as Hneloc by (by intros ->).
  assert (e <> r) as Hner by (by intros ->).
  assert (listOf h loc = Some l) as Hlloc by (apply Hown; rewrite Hperm; set_solver).
  assert (listOf h r = Some l) as Hlr by (apply Hown; rewrite Hperm; set_solver).
  assert (alloc h loc) as Haloc by (by eapply listOf_alloc).
  assert (alloc h r) as Har by (by eapply listOf_alloc).
  set (h2 := unlinked h ep en).
  assert (seg h2 (Sentinel l) (ys1 ++ ys2) (Sentinel l)) as Hring2.
  { rewrite <- Heq. apply (ring_unlink h _ _ _ _ e ep en); try done.
    - intros q _. by apply nextOf_unlinked.
    - intros q _. by apply prevOf_unlinked. }
  assert (nextOf h2 loc = Some r) as Hr by (by apply seg_next_mid).
  unfold moveAfter.
  rewrite run_load_list, Hle by done.
  rewrite decide_False by (by intros ?).
  rewrite run_load_list, Hlloc by done.
  rewrite decide_False by (by intros ?).
  rewrite decide_False by congruence.
  rewrite (run_unlink _ h e ep en) by done. fold h2.
  rewrite (run_link _ h2 e loc r) by (done || by apply alloc_unlinked).
  rewrite end_store by (rewrite !alloc_upd; by apply alloc_unlinked).
  fold (linked h2 e loc r).
  eexists. split; [reflexivity|].
  assert (forall q, nextOf (linked h2 e loc r) q
            = if decide (q = loc) then Some e
              else if decide (q = e) then Some r else nextOf h2 q) as Hnext.
  { intros q. apply nextOf_linked; by apply alloc_unlinked. }
  assert (forall q, prevOf (linked h2 e loc r) q
            = if decide (q = r) then Some e
              else if decide (q = e) then Some loc else prevOf h2 q) as Hprev.
  { intros q. apply prevOf_linked; by apply alloc_unlinked. }
  split.
  - split.
    + change (lengths h !! l = Some (Z.of_nat (length (ys1 ++ e :: ys2)))).
      rewrite Hlen. f_equal. f_equal.
      apply (f_equal length) in Heq. rewrite !length_app in *.
      cbn [length]. lia.
    + apply (f_equal length) in Heq. rewrite !length_app in *.
      cbn [length] in *. lia.
    + by apply (ring_link h2 _ _ _ _ _ r).
    + eapply NoDup_Permutation_proper;
        [|apply (NoDup_cons_2 e (Sentinel l :: ys1 ++ ys2)); done].
      solve_Permutation.
    + intros p. rewrite listOf_linked. unfold h2. rewrite listOf_unlinked.
      rewrite Hown, Hperm.
      assert (Sentinel l :: ys1 ++ e :: ys2 ≡ₚ e :: Sentinel l :: ys1 ++ ys2)
        as -> by solve_Permutation.
      done.
  - apply preserved_intro.
    + intros p. unfold h2. by rewrite valueOf_linked, valueOf_unlinked.
    + intros p _. unfold h2. by rewrite listOf_linked, listOf_unlinked.
    + intros l2 Hl2. rewrite Hle. congruence.
    + intros l2 Hl2. unfold h2.
      rewrite listOf_linked, listOf_unlinked, Hle. congruence.
    + intros p Hpe Hpl. rewrite Hnext, Hprev. unfold h2.
      rewrite nextOf_unlinked, prevOf_unlinked by done.
      assert (p <> ep) by (intros ->; by apply Hpl).
      assert (p <> en) by (intros ->; by apply Hpl).
      assert (p <> loc) by (intros ->; by apply Hpl).
      assert (p <> r) by (intros ->; by apply Hpl).
      by rewrite !decide_False.
    + done.
Qed.

Lemma segb_seg h p ps q : segb h p ps q = true -> seg h p ps q.
Proof.
  revert p. induction ps as [|r ps IH]; intros p; simpl;
    rewrite ?andb_true_iff, ?bool_decide_eq_true; naive_solver.
Qed.

Lemma check_repr_sound h l xs : check_repr h l xs = true -> repr h l xs.
Proof.
  unfold check_repr. rewrite !andb_true_iff, !bool_decide_eq_true.
  intros (((((Hlen & Hb) & Hseg) & Hnd) & Hin) & Hout). split; try done.
  - by apply segb_seg.
  - intros p. split.
    + unfold listOf. destruct (elems h !! p) as [c|] eqn:Hc; [|done].
      cbn. by apply (Hout p c).
    + by apply (proj1 (Forall_forall _ _) Hin).
Qed.

Lemma preserved_refl h l e : preserved h h l e.
Proof. by split. Qed.

End LinkedLemmas.

Section LinkedProperties.
Import Linked.

Example exampleHeap_lists :
  repr exampleHeap 0 [Node 0; Node 1] /\ repr exampleHeap 1 [Node 3] /\
  listOf exampleHeap (Node 2) = None /\ listOf exampleHeap (Node 4) = None /\
  prevOf exampleHeap (Node 4) = None /\
  valueOf exampleHeap <$> [Node 0; Node 1; Node 2; Node 3; Node 4]
  = [Some 10; Some 20; Some 30; Some 40; Some 50].
Proof.
  split; [apply check_repr_sound; vm_compute; reflexivity|].
  split; [apply check_repr_sound; vm_compute; reflexivity|].
  vm_compute. done.
Qed.

(** X1: PushFront of an element that is in no list puts it before the
    elements of the list; the values, the other elements and the other lists
    stay as they were. *)
Theorem PushFront_spec {T} (h : Heap T) l xs e :
  repr h l xs -> alloc h e -> listOf h e = None ->
  Z.of_nat (length xs) < MaxInt ->
  exists h',
    PushFront l (Some e) h = Some (tt, h') /\
    repr h' l (e :: xs) /\ preserved h h' l e.
Proof.
  intros Hrepr He Hlist Hlt. unfold PushFront.
  by apply (insertAfter_at h l [] xs e).
Qed.

Lemma PushFront_spec_witness :
  exists h',
    PushFront 0 (Some (Node 2)) exampleHeap = Some (tt, h') /\
    repr h' 0 [Node 2; Node 0; Node 1] /\ preserved exampleHeap h' 0 (Node 2).
Proof.
  apply (PushFront_spec exampleHeap 0 [Node 0; Node 1] (Node 2)).
  - apply check_repr_sound. vm_compute. reflexivity.
  - vm_compute. eexists. reflexivity.
  - vm_compute. reflexivity.
  - vm_compute. reflexivity.
Defined.

(** X2: PushBack of an element that is in no list puts it after the elements
    of the list. *)
Theorem PushBack_spec {T} (h : Heap T) l xs e :
  repr h l xs -> alloc h e -> listOf h e = None ->
  Z.of_nat (length xs) < MaxInt ->
  exists h',
    PushBack l (Some e) h = Some (tt, h') /\
    repr h' l (xs ++ [e]) /\ preserved h h' l e.
Proof.
  intros Hrepr He Hlist Hlt. unfold PushBack.
  rewrite run_load_prev by (eapply repr_alloc; [done | set_solver]).
  rewrite (seg_prev_last _ _ _ _ (repr_ring _ _ _ Hrepr)).
  apply (insertAfter_at h l xs [] e); rewrite ?app_nil_r; done.
Qed.

Lemma PushBack_spec_witness :
  exists h',
    PushBack 0 (Some (Node 2)) exampleHeap = Some (tt, h') /\
    repr h' 0 [Node 0; Node 1; Node 2] /\ preserved exampleHeap h' 0 (Node 2).
Proof.
  apply (PushBack_spec exampleHeap 0 [Node 0; Node 1] (Node 2)).
  - apply check_repr_sound. vm_compute. reflexivity.
  - vm_compute. eexists. reflexivity.
  - vm_compute. reflexivity.
  - vm_compute. reflexivity.
Defined.

(** X3: InsertAfter of an element that is in no list, at an element [b] of
    the list, puts it right after [b]. *)
Theorem InsertAfter_spec {T} (h : Heap T) l xs1 b xs2 e :
  repr h l (xs1 ++ b :: xs2) -> alloc h e -> listOf h e = None ->
  Z.of_nat (length (xs1 ++ b :: xs2)) < MaxInt ->
  exists h',
    InsertAfter l (Some e) (Some b) h = Some (tt, h') /\
    repr h' l (xs1 ++ b :: e :: xs2) /\ preserved h h' l e.
Proof.
  intros Hrepr He Hlist Hlt. unfold InsertAfter.
  pose proof (repr_neighbours _ _ _ _ _ Hrepr) as (_ & Hn & _ & _ & _ & _ & _ & Hlb & _).
  rewrite run_load_list, Hlb by (by eapply nextOf_alloc).
  rewrite decide_True by done.
  destruct (insertAfter_at h l (xs1 ++ [b]) xs2 e) as (h' & Hrun & Hrepr' & Hpres);
    rewrite <- ?app_assoc; try done.
  exists h'. rewrite last_snoc in Hrun. rewrite <- app_assoc in Hrepr'. done.
Qed.

Lemma InsertAfter_spec_witness :
  exists h',
    InsertAfter 0 (Some (Node 2)) (Some (Node 0)) exampleHeap = Some (tt, h') /\
    repr h' 0 [Node 0; Node 2; Node 1] /\ preserved exampleHeap h' 0 (Node 2).
Proof.
  apply (InsertAfter_spec exampleHeap 0 [] (Node 0) [Node 1] (Node 2)).
  - apply check_repr_sound. vm_compute. reflexivity.
  - vm_compute. eexists. reflexivity.
  - vm_compute. reflexivity.
  - vm_compute. reflexivity.
Defined.

(** X4: InsertBefore of an element that is in no list, at an element [b] of
    the list, puts it right before [b]. *)
Theorem InsertBefore_spec {T} (h : Heap T) l xs1 b xs2 e :
  repr h l (xs1 ++ b :: xs2) -> alloc h e -> listOf h e = None ->
  Z.of_nat (length (xs1 ++ b :: xs2)) < MaxInt ->
  exists h',
    InsertBefore l (Some e) (Some b) h = Some (tt, h') /\
    repr h' l (xs1 ++ e :: b :: xs2) /\ preserved h h' l e.
Proof.
  intros Hrepr He Hlist Hlt. unfold InsertBefore.
  pose proof (repr_neighbours _ _ _ _ _ Hrepr) as (Hp & Hn & _ & _ & _ & _ & _ & Hlb & _).
  assert (alloc h b) by (by eapply nextOf_alloc).
  rewrite run_load_list, Hlb by done.
  rewrite decide_True by done.
  rewrite run_load_prev, Hp by done.
  by apply (insertAfter_at h l xs1 (b :: xs2) e).
Qed.

Lemma InsertBefore_spec_witness :
  exists h',
    InsertBefore 0 (Some (Node 2)) (Some (Node 1)) exampleHeap = Some (tt, h') /\
    repr h' 0 [Node 0; Node 2; Node 1] /\ preserved exampleHeap h' 0 (Node 2).
Proof.
  apply (InsertBefore_spec exampleHeap 0 [Node 0] (Node 1) [] (Node 2)).
  - apply check_repr_sound. vm_compute. reflexivity.
  - vm_compute. eexists. reflexivity.
  - vm_compute. reflexivity.
  - vm_compute. reflexivity.
Defined.

(** X5: an insertion the code refuses leaves the memory as it was: every
    insertion of an element that is already in a list (this one or another),
    and InsertAfter and InsertBefore at a location that is not in the
    list. *)
Theorem insert_refused {T} (h : Heap T) l xs e loc :
  repr h l xs -> alloc h e -> alloc h loc ->
  listOf h e <> None \/ listOf h loc <> Some l ->
  (listOf h e <> None ->
     PushFront l (Some e) h = Some (tt, h) /\
     PushBack l (Some e) h = Some (tt, h)) /\
  InsertAfter l (Some e) (Some loc) h = Some (tt, h) /\
  InsertBefore l (Some e) (Some loc) h = Some (tt, h).
Proof.
  intros Hrepr He Hloc Hcase.
  assert (listOf h e <> None -> forall q,
            insertAfter l (Some e) q h = Some (tt, h)) as Hins.
  { intros Hl q. unfold insertAfter. rewrite run_load_list by done.
    by rewrite decide_True. }
  split; [|split].
  - intros Hl. unfold PushFront, PushBack. split; [by apply Hins|].
    rewrite run_load_prev by (eapply repr_alloc; [done | set_solver]).
    by apply Hins.
  - unfold InsertAfter. rewrite run_load_list by done.
    case_decide as Hd; [|done]. apply Hins. by destruct Hcase.
  - unfold InsertBefore. rewrite run_load_list by done.
    case_decide as Hd; [|done]. rewrite run_load_prev by done.
    apply Hins. by destruct Hcase.
Qed.

Lemma insert_refused_witness :
  (listOf exampleHeap (Node 3) <> None ->
     PushFront 0 (Some (Node 3)) exampleHeap = Some (tt, exampleHeap) /\
     PushBack 0 (Some (Node 3)) exampleHeap = Some (tt, exampleHeap)) /\
  InsertAfter 0 (Some (Node 3)) (Some (Node 0)) exampleHeap
    = Some (tt, exampleHeap) /\
  InsertBefore 0 (Some (Node 3)) (Some (Node 0)) exampleHeap
    = Some (tt, exampleHeap).
Proof.
  apply (insert_refused exampleHeap 0 [Node 0; Node 1] (Node 3) (Node 0)).
  - apply check_repr_sound. vm_compute. reflexivity.
  - vm_compute. eexists. reflexivity.
  - vm_compute. eexists. reflexivity.
  - left. vm_compute. discriminate.
Defined.

(** X6: Remove of an element of the list takes it out, keeps the order of
    the others, and clears the element's links and list. *)
Theorem Remove_spec {T} (h : Heap T) l xs1 e xs2 :
  repr h l (xs1 ++ e :: xs2) ->
  exists h',
    Remove l (Some e) h = Some (tt, h') /\
    repr h' l (xs1 ++ xs2) /\
    nextOf h' e = None /\ prevOf h' e = None /\ listOf h' e = None /\
    preserved h h' l e.
Proof.
  intros Hrepr. by apply Remove_at.
Qed.

Lemma Remove_spec_witness :
  exists h',
    Remove 0 (Some (Node 0)) exampleHeap = Some (tt, h') /\
    repr h' 0 [Node 1] /\
    nextOf h' (Node 0) = None /\ prevOf h' (Node 0) = None /\
    listOf h' (Node 0) = None /\
    preserved exampleHeap h' 0 (Node 0).
Proof.
  apply (Remove_spec exampleHeap 0 [] (Node 0) [Node 1]).
  apply check_repr_sound. vm_compute. reflexivity.
Defined.

(** X7: Remove of an element that is not in the list, and every move of
    such an element, leaves the memory as it was; so does MoveAfter to a
    location that is not in the list, or to the element itself. *)
Theorem remove_move_refused {T} (h : Heap T) l xs e loc :
  repr h l xs -> alloc h e -> alloc h loc ->
  (listOf h e <> Some l ->
     Remove l (Some e) h = Some (tt, h) /\
     MoveToFront l (Some e) h = Some (tt, h) /\
     MoveToBack l (Some e) h = Some (tt, h) /\
     MoveBefore l (Some e) (Some loc) h = Some (tt, h) /\
     MoveAfter l (Some e) (Some loc) h = Some (tt, h)) /\
  (listOf h loc <> Some l \/ e = loc ->
     MoveAfter l (Some e) (Some loc) h = Some (tt, h)).
Proof.
  intros Hrepr He Hloc.
  assert (alloc h (Sentinel l)) as HS by (eapply repr_alloc; [done | set_solver]).
  split.
  - intros Hl.
    assert (forall q, moveAfter l (Some e) q h = Some (tt, h)) as Hmove.
    { intros q. unfold moveAfter. rewrite run_load_list by done.
      by rewrite decide_True. }
    split; [|split; [|split; [|split]]].
    + unfold Remove. rewrite run_load_list by done. by rewrite decide_True.
    + unfold MoveToFront. rewrite run_load_next by done. by case_decide.
    + unfold MoveToBack. by rewrite run_load_prev.
    + unfold MoveBefore. case_decide; [|done]. by rewrite run_load_prev.
    + apply Hmove.
  - intros Hcase. unfold MoveAfter, moveAfter.
    rewrite run_load_list by done. case_decide; [done|].
    rewrite run_load_list by done. case_decide; [done|].
    case_decide; [done|]. destruct Hcase; congruence.
Qed.

Lemma remove_move_refused_witness :
  (listOf exampleHeap (Node 3) <> Some 0%nat ->
     Remove 0 (Some (Node 3)) exampleHeap = Some (tt, exampleHeap) /\
     MoveToFront 0 (Some (Node 3)) exampleHeap = Some (tt, exampleHeap) /\
     MoveToBack 0 (Some (Node 3)) exampleHeap = Some (tt, exampleHeap) /\
     MoveBefore 0 (Some (Node 3)) (Some (Node 0)) exampleHeap
       = Some (tt, exampleHeap) /\
     MoveAfter 0 (Some (Node 3)) (Some (Node 0)) exampleHeap
       = Some (tt, exampleHeap)) /\
  (listOf exampleHeap (Node 0) <> Some 0%nat \/ Node 3 = Node 0 ->
     MoveAfter 0 (Some (Node 3)) (Some (Node 0)) exampleHeap
       = Some (tt, exampleHeap)).
Proof.
  apply (remove_move_refused exampleHeap 0 [Node 0; Node 1] (Node 3) (Node 0)).
  - apply check_repr_sound. vm_compute. reflexivity.
  - vm_compute. eexists. reflexivity.
  - vm_compute. eexists. reflexivity.
Defined.

(** X8: MoveToFront of an element of the list makes it the first element and
    keeps the order of the others. *)
Theorem MoveToFront_spec {T} (h : Heap T) l xs1 e xs2 :
  repr h l (xs1 ++ e :: xs2) ->
  exists h',
    MoveToFront l (Some e) h = Some (tt, h') /\
    repr h' l (e :: xs1 ++ xs2) /\ preserved h h' l e.
Proof.
  intros Hrepr. unfold MoveToFront.
  rewrite run_load_next by (eapply repr_alloc; [done | set_solver]).
  rewrite (seg_next_head _ _ _ _ (repr_ring _ _ _ Hrepr)).
  destruct xs1 as [|x xs1]; cbn [app head].
  - change (default (Sentinel l) (Some e)) with e.
    rewrite decide_False by (by intros ?).
    exists h. split; [done|]. split; [done | apply preserved_refl].
  - change (default (Sentinel l) (Some x)) with x. rewrite decide_True.
    + by apply (moveAfter_at h l (x :: xs1) xs2 [] (x :: xs1 ++ xs2) e).
    + intros [= ->]. pose proof (repr_nodup _ _ _ Hrepr) as Hnd.
      apply NoDup_cons in Hnd as [_ Hnd]. apply NoDup_cons in Hnd as [Hx _].
      set_solver.
Qed.

Lemma MoveToFront_spec_witness :
  exists h',
    MoveToFront 0 (Some (Node 1)) exampleHeap = Some (tt, h') /\
    repr h' 0 [Node 1; Node 0] /\ preserved exampleHeap h' 0 (Node 1).
Proof.
  apply (MoveToFront_spec exampleHeap 0 [Node 0] (Node 1) []).
  apply check_repr_sound. vm_compute. reflexivity.
Defined.

(** X9: MoveToBack of an element of the list makes it the last element and
    keeps the order of the others. *)
Theorem MoveToBack_spec {T} (h : Heap T) l xs1 e xs2 :
  repr h l (xs1 ++ e :: xs2) ->
  exists h',
    MoveToBack l (Some e) h = Some (tt, h') /\
    repr h' l (xs1 ++ xs2 ++ [e]) /\ preserved h h' l e.
Proof.
  intros Hrepr. unfold MoveToBack.
  pose proof (repr_neighbours _ _ _ _ _ Hrepr)
    as (_ & _ & _ & _ & _ & _ & _ & Hle & _).
  rewrite run_load_prev by (eapply repr_alloc; [done | set_solver]).
  rewrite (seg_prev_last _ _ _ _ (repr_ring _ _ _ Hrepr)).
  destruct xs2 as [|x xs2 _] using rev_ind.
  - rewrite last_snoc. change (default (Sentinel l) (Some e)) with e.
    assert (alloc h e) by (by eapply listOf_alloc).
    unfold moveAfter. rewrite run_load_list, Hle by done.
    rewrite decide_False by (by intros ?).
    rewrite run_load_list, Hle by done.
    rewrite decide_False by (by intros ?).
    rewrite decide_True by done.
    exists h. split; [done|]. split; [done | apply preserved_refl].
  - destruct (moveAfter_at h l xs1 (xs2 ++ [x]) (xs1 ++ xs2 ++ [x]) [] e)
      as (h' & Hrun & Hrepr' & Hpres); [done | by rewrite app_nil_r |].
    exists h'. split; [|split; [|done]].
    + rewrite <- Hrun. f_equal.
      change (xs1 ++ e :: xs2 ++ [x]) with (xs1 ++ (e :: xs2) ++ [x]).
      by rewrite !app_assoc, !last_snoc.
    + rewrite <- !app_assoc in Hrepr'. by rewrite <- !app_assoc.
Qed.

Lemma MoveToBack_spec_witness :
  exists h',
    MoveToBack 0 (Some (Node 0)) exampleHeap = Some (tt, h') /\
    repr h' 0 [Node 1; Node 0] /\ preserved exampleHeap h' 0 (Node 0).
Proof.
  apply (MoveToBack_spec exampleHeap 0 [] (Node 0) [Node 1]).
  apply check_repr_sound. vm_compute. reflexivity.
Defined.

(** X10: MoveAfter of an element [e] of the list to another element [b] of
    the list puts [e] right after [b] and keeps the order of the others:
    with [ys1 ++ b :: ys2] the list without [e], the list becomes
    [ys1 ++ b :: e :: ys2]. *)
Theorem MoveAfter_spec {T} (h : Heap T) l zs1 e zs2 ys1 b ys2 :
  repr h l (zs1 ++ e :: zs2) -> zs1 ++ zs2 = ys1 ++ b :: ys2 ->
  exists h',
    MoveAfter l (Some e) (Some b) h = Some (tt, h') /\
    repr h' l (ys1 ++ b :: e :: ys2) /\ preserved h h' l e.
Proof.
  intros Hrepr Heq. unfold MoveAfter.
  destruct (moveAfter_at h l zs1 zs2 (ys1 ++ [b]) ys2 e)
    as (h' & Hrun & Hrepr' & Hpres); [done | by rewrite <- app_assoc |].
  exists h'. rewrite last_snoc in Hrun. rewrite <- app_assoc in Hrepr'. done.
Qed.

Lemma MoveAfter_spec_witness :
  exists h',
    MoveAfter 0 (Some (Node 0)) (Some (Node 1)) exampleHeap = Some (tt, h') /\
    repr h' 0 [Node 1; Node 0] /\ preserved exampleHeap h' 0 (Node 0).
Proof.
  apply (MoveAfter_spec exampleHeap 0 [] (Node 0) [Node 1] [] (Node 1) []).
  - apply check_repr_sound. vm_compute. reflexivity.
  - reflexivity.
Defined.

(** X11: MoveBefore of an element [e] of the list to another element [b] of
    the list puts [e] right before [b] and keeps the order of the others:
    with [ys1 ++ b :: ys2] the list without [e], the list becomes
    [ys1 ++ e :: b :: ys2]. *)
Theorem MoveBefore_spec {T} (h : Heap T) l zs1 e zs2 ys1 b ys2 :
  repr h l (zs1 ++ e :: zs2) -> zs1 ++ zs2 = ys1 ++ b :: ys2 ->
  exists h',
    MoveBefore l (Some e) (Some b) h = Some (tt, h') /\
    repr h' l (ys1 ++ e :: b :: ys2) /\ preserved h h' l e.
Proof.
  intros Hrepr Heq. unfold MoveBefore.
  pose proof (repr_neighbours _ _ _ _ _ Hrepr)
    as (_ & _ & _ & _ & _ & _ & _ & Hle & _).
  assert (alloc h e) as He by (by eapply listOf_alloc).
  pose proof (repr_nodup _ _ _ Hrepr) as Hnd.
  assert (e <> b) as Hne.
  { intros ->. apply NoDup_cons in Hnd as [_ Hnd].
    apply NoDup_app in Hnd as (_ & Hd & Hnd). apply NoDup_cons in Hnd as [Hb _].
    assert (b ∈ zs1 ++ zs2) as Hin by (rewrite Heq; set_solver).
    apply elem_of_app in Hin as [Hin|Hin]; [|done].
    apply (Hd b Hin). set_solver. }
  rewrite decide_True by congruence.
  assert (alloc h b) as Hb.
  { eapply repr_alloc; [done|].
    assert (b ∈ zs1 ++ zs2) as Hin by (rewrite Heq; set_solver). set_solver. }
  rewrite run_load_prev by done.
  assert (prevOf h b = Some e /\ zs1 = ys1 /\ zs2 = b :: ys2 \/
          prevOf h b = Some (default (Sentinel l) (last ys1))) as [Hcase|Hcase].
  { pose proof (repr_ring _ _ _ Hrepr) as Hring.
    apply app_eq_inv in Heq as [(k & -> & Hk)|(k & -> & ->)].
    - destruct k as [|b' k]; cbn [app] in Hk.
      + left. subst zs2. rewrite app_nil_r in *.
        apply seg_app in Hring as [_ (_ & Hp & _)]. done.
      + injection Hk as <- ->. right.
        rewrite <- app_assoc in Hring. cbn [app] in Hring.
        apply seg_app in Hring as [Hs _]. by apply seg_prev_last.
    - destruct k as [|x k _] using rev_ind; cbn [app] in *.
      + left. rewrite app_nil_r.
        apply seg_app in Hring as [_ (_ & Hp & _)]. done.
      + right. rewrite (app_assoc zs1), last_snoc.
        change (default (Sentinel l) (Some x)) with x.
        replace (zs1 ++ e :: (k ++ [x]) ++ b :: ys2)
          with (((zs1 ++ e :: k) ++ [x]) ++ b :: ys2) in Hring
          by (by rewrite <- !app_assoc).
        apply seg_app in Hring as [Hs _]. apply seg_prev_last in Hs.
        by rewrite last_snoc in Hs. }
  - destruct Hcase as (Hp & -> & ->). rewrite Hp.
    unfold moveAfter. rewrite run_load_list, Hle by done.
    rewrite decide_False by (by intros ?).
    rewrite run_load_list, Hle by done.
    rewrite decide_False by (by intros ?).
    rewrite decide_True by done.
    exists h. split; [done|]. split; [done | apply preserved_refl].
  - rewrite Hcase. by apply (moveAfter_at h l zs1 zs2 ys1 (b :: ys2) e).
Qed.

Lemma MoveBefore_spec_witness :
  exists h',
    MoveBefore 0 (Some (Node 1)) (Some (Node 0)) exampleHeap = Some (tt, h') /\
    repr h' 0 [Node 1; Node 0] /\ preserved exampleHeap h' 0 (Node 1).
Proof.
  apply (MoveBefore_spec exampleHeap 0 [Node 0] (Node 1) [] [] (Node 0) []).
  - apply check_repr_sound. vm_compute. reflexivity.
  - reflexivity.
Defined.

(** X12: the observers agree with the order of the list: Len is the number
    of elements, Front and Back are the first and the last element (nil for
    the empty list), Next and Prev of an element are its neighbours (nil at
    the ends). *)
Theorem observers_spec {T} (h : Heap T) l xs :
  repr h l xs ->
  Len l h = Some (Z.of_nat (length xs), h) /\
  Front l h = Some (head xs, h) /\
  Back l h = Some (last xs, h) /\
  forall i e, xs !! i = Some e ->
    Next (Some e) h = Some (xs !! S i, h) /\
    Prev (Some e) h = Some (match i with O => None | S j => xs !! j end, h).
Proof.
  intros Hrepr. pose proof Hrepr as [Hlen Hb Hring Hnd Hown].
  assert (alloc h (Sentinel l)) as HS by (eapply repr_alloc; [done | set_solver]).
  split; [|split; [|split]].
  - unfold Len, loadLength. by rewrite Hlen.
  - unfold Front. erewrite run_loadLength by exact Hlen.
    destruct xs as [|x xs]; [done|].
    destruct (Z.eqb_spec (Z.of_nat (length (x :: xs))) 0) as [Hz|_];
      [cbn [length] in Hz; lia|].
    rewrite end_load_next by done.
    by rewrite (seg_next_head _ _ _ _ Hring).
  - unfold Back. erewrite run_loadLength by exact Hlen.
    destruct xs as [|x xs _] using rev_ind; [done|].
    destruct (Z.eqb_spec (Z.of_nat (length (xs ++ [x]))) 0) as [Hz|_];
      [rewrite length_app in Hz; cbn [length] in Hz; lia|].
    rewrite end_load_prev by done.
    rewrite (seg_prev_last _ _ _ _ Hring). by rewrite last_snoc.
  - intros i e Hi.
    apply list_elem_of_split_length in Hi as (xs1 & xs2 & -> & ->).
    pose proof (repr_neighbours _ _ _ _ _ Hrepr)
      as (Hp & Hn & _ & _ & _ & _ & _ & Hle & _).
    assert (alloc h e) as He by (by eapply listOf_alloc).
    apply NoDup_cons in Hnd as [HSin _].
    split.
    + unfold Next. rewrite run_load_next, Hn by done.
      rewrite run_load_list, Hle by done.
      destruct xs2 as [|y xs2]; cbn [head].
      * change (default (Sentinel l) None) with (Sentinel l).
        rewrite decide_False by (by intros ?).
        rewrite lookup_ge_None_2; [done|].
        rewrite length_app. cbn [length]. lia.
      * change (default (Sentinel l) (Some y)) with y.
        rewrite decide_True by (intros [= ->]; set_solver).
        replace (xs1 ++ e :: y :: xs2) with ((xs1 ++ [e]) ++ y :: xs2)
          by (by rewrite <- app_assoc).
        rewrite list_lookup_middle; [done|].
        rewrite length_app. cbn [length]. lia.
    + unfold Prev. rewrite run_load_prev, Hp by done.
      rewrite run_load_list, Hle by done.
      destruct xs1 as [|y xs1 _] using rev_ind.
      * change (default (Sentinel l) (last [])) with (Sentinel l).
        by rewrite decide_False by (by intros ?).
      * rewrite last_snoc. change (default (Sentinel l) (Some y)) with y.
        rewrite decide_True by (intros [= ->]; set_solver).
        rewrite length_app. cbn [length].
        replace (length xs1 + 1)%nat with (S (length xs1)) by lia.
        rewrite <- app_assoc. cbn [app].
        by rewrite list_lookup_middle.
Qed.

Lemma observers_spec_witness :
  Len 0 exampleHeap = Some (2, exampleHeap) /\
  Front 0 exampleHeap = Some (Some (Node 0), exampleHeap) /\
  Back 0 exampleHeap = Some (Some (Node 1), exampleHeap) /\
  forall i e, [Node 0; Node 1] !! i = Some e ->
    Next (Some e) exampleHeap = Some ([Node 0; Node 1] !! S i, exampleHeap) /\
    Prev (Some e) exampleHeap
      = Some (match i with O => None | S j => [Node 0; Node 1] !! j end,
              exampleHeap).
Proof.
  apply (observers_spec exampleHeap 0 [Node 0; Node 1]).
  apply check_repr_sound. vm_compute. reflexivity.
Defined.

(** X13: NewList returns the address of a new, empty list; the elements and
    the lists that were there stay as they were. It needs a memory in which
    no element names a list that was never created. *)
Theorem NewList_spec {T} (zero : T) (h : Heap T) :
  (forall p l, listOf h p = Some l -> is_Some (lengths h !! l)) ->
  exists l h',
    NewList zero h = Some (l, h') /\
    lengths h !! l = None /\ ~ alloc h (Sentinel l) /\
    repr h' l [] /\
    (forall p, p <> Sentinel l -> elems h' !! p = elems h !! p) /\
    (forall l2 ys, repr h l2 ys -> repr h' l2 ys).
Proof.
  intros Hwf. unfold NewList.
  set (X := dom (lengths h) ∪ (set_omap sentinelAddr (dom (elems h)) : gset nat)).
  pose proof (is_fresh X) as Hfresh. set (l := fresh X) in *.
  assert (lengths h !! l = None) as Hlen.
  { apply not_elem_of_dom. set_solver. }
  assert (elems h !! Sentinel l = None) as HS.
  { apply not_elem_of_dom. intros Hin. apply Hfresh, elem_of_union_r.
    apply elem_of_set_omap. by exists (Sentinel l). }
  eexists l, _. split; [reflexivity|].
  split; [done|]. split; [by intros [c Hc]; congruence|].
  assert (forall p, p <> Sentinel l ->
            listOf h p <> Some l) as Hnone.
  { intros p _ Hp. apply Hwf in Hp as [n Hn]. congruence. }
  split; [|split].
  - split.
    + cbn. by rewrite lookup_insert_eq.
    + cbn. unfold MaxInt. lia.
    + cbn. unfold nextOf, prevOf. cbn. by rewrite lookup_insert_eq.
    + apply NoDup_singleton.
    + intros p. unfold listOf. cbn.
      destruct (decide (p = Sentinel l)) as [->|Hne].
      * rewrite lookup_insert_eq. set_solver.
      * rewrite lookup_insert_ne by done. split; [|set_solver].
        intros Hp. by apply Hnone in Hp.
  - intros p Hne. cbn. by rewrite lookup_insert_ne.
  - intros l2 ys Hrepr.
    assert (forall p, listOf h p = Some l2 -> p <> Sentinel l) as Hne.
    { intros p Hp ->. unfold listOf in Hp. by rewrite HS in Hp. }
    apply (repr_frame h); [done | | |].
    + intros p Hp. unfold nextOf, prevOf. cbn.
      rewrite lookup_insert_ne; [done|]. intros <-. by apply (Hne _ Hp).
    + intros p. unfold listOf. cbn.
      destruct (decide (p = Sentinel l)) as [->|Hp].
      * rewrite lookup_insert_eq, HS. cbn.
        pose proof (repr_length _ _ _ Hrepr). split; [|done].
        intros [= ->]. congruence.
      * by rewrite lookup_insert_ne.
    + cbn. rewrite lookup_insert_ne; [done|].
      intros <-. pose proof (repr_length _ _ _ Hrepr). congruence.
Qed.

Lemma NewList_spec_witness :
  exists l h',
    NewList 0 exampleHeap = Some (l, h') /\
    lengths exampleHeap !! l = None /\ ~ alloc exampleHeap (Sentinel l) /\
    repr h' l [] /\
    (forall p, p <> Sentinel l -> elems h' !! p = elems exampleHeap !! p) /\
    (forall l2 ys, repr exampleHeap l2 ys -> repr h' l2 ys).
Proof.
  apply (NewList_spec 0 exampleHeap).
  intros p l Hl.
  assert (bool_decide (map_Forall (fun _ c =>
            from_option (fun l => bool_decide (is_Some (lengths exampleHeap !! l)))
                        true (list_ c) = true)
            (elems exampleHeap)) = true) as Hall by (vm_compute; reflexivity).
  apply bool_decide_eq_true in Hall.
  unfold listOf in Hl. destruct (elems exampleHeap !! p) as [c|] eqn:Hc; [|done].
  specialize (Hall p c Hc). cbn in Hl, Hall. rewrite Hl in Hall.
  by apply bool_decide_eq_true in Hall.
Defined.

(** X14: MoveBefore of an element of the list to a location that is in no
    list (its [prev] is nil) does not return: it dereferences nil. *)
Theorem MoveBefore_detached_location {T} (h : Heap T) l xs e loc :
  repr h l xs -> e ∈ xs -> alloc h loc -> prevOf h loc = None ->
  MoveBefore l (Some e) (Some loc) h = None.
Proof.
  intros Hrepr He Hloc Hprev.
  apply list_elem_of_split in He as (xs1 & xs2 & ->).
  pose proof (repr_neighbours _ _ _ _ _ Hrepr)
    as (Hp & _ & _ & _ & _ & _ & _ & Hle & _).
  unfold MoveBefore.
  rewrite decide_True by (intros [= ->]; congruence).
  rewrite run_load_prev, Hprev by done.
  unfold moveAfter.
  rewrite run_load_list, Hle by (by eapply listOf_alloc).
  by rewrite decide_False by (by intros ?).
Qed.

Lemma MoveBefore_detached_location_witness :
  MoveBefore 0 (Some (Node 0)) (Some (Node 4)) exampleHeap = None.
Proof.
  apply (MoveBefore_detached_location exampleHeap 0 [Node 0; Node 1]
           (Node 0) (Node 4)).
  - apply check_repr_sound. vm_compute. reflexivity.
  - set_solver.
  - vm_compute. eexists. reflexivity.
  - vm_compute. reflexivity.
Defined.

(** X15: PushBack followed by Remove of the same element gives the list
    back: the same elements in the same order, the element in no list, the
    values and the other lists as they were. *)
Theorem PushBack_Remove_roundtrip {T} (h : Heap T) l xs e :
  repr h l xs -> alloc h e -> listOf h e = None ->
  Z.of_nat (length xs) < MaxInt ->
  exists h1 h2,
    PushBack l (Some e) h = Some (tt, h1) /\
    Remove l (Some e) h1 = Some (tt, h2) /\
    repr h2 l xs /\ listOf h2 e = None /\
    (forall p, valueOf h2 p = valueOf h p) /\
    (forall p, listOf h2 p = listOf h p) /\
    (forall l2 ys, l2 <> l -> repr h l2 ys -> repr h2 l2 ys).
Proof.
  intros Hrepr He Hlist Hlt.
  destruct (insertAfter_at h l xs [] e) as (h1 & Hrun1 & Hrepr1 & Hpres1);
    rewrite ?app_nil_r; try done.
  destruct (Remove_at h1 l xs [] e Hrepr1)
    as (h2 & Hrun2 & Hrepr2 & _ & _ & Hlist2 & Hpres2).
  exists h1, h2. split; [|split; [done|]].
  - unfold PushBack.
    rewrite run_load_prev by (eapply repr_alloc; [done | set_solver]).
    by rewrite (seg_prev_last _ _ _ _ (repr_ring _ _ _ Hrepr)).
  - rewrite app_nil_r in Hrepr2.
    destruct Hpres1 as [Hv1 Hl1 Hr1], Hpres2 as [Hv2 Hl2 Hr2].
    split; [done|]. split; [done|]. split; [|split].
    + intros p. by rewrite Hv2, Hv1.
    + intros p. destruct (decide (p = e)) as [->|Hne]; [congruence|].
      by rewrite Hl2, Hl1.
    + intros l2 ys Hne Hys. by apply Hr2, Hr1.
Qed.

Lemma PushBack_Remove_roundtrip_witness :
  exists h1 h2,
    PushBack 0 (Some (Node 2)) exampleHeap = Some (tt, h1) /\
    Remove 0 (Some (Node 2)) h1 = Some (tt, h2) /\
    repr h2 0 [Node 0; Node 1] /\ listOf h2 (Node 2) = None /\
    (forall p, valueOf h2 p = valueOf exampleHeap p) /\
    (forall p, listOf h2 p = listOf exampleHeap p) /\
    (forall l2 ys, l2 <> 0%nat -> repr exampleHeap l2 ys -> repr h2 l2 ys).
Proof.
  apply (PushBack_Remove_roundtrip exampleHeap 0 [Node 0; Node 1] (Node 2)).
  - apply check_repr_sound. vm_compute. reflexivity.
  - vm_compute. eexists. reflexivity.
  - vm_compute. reflexivity.
  - vm_compute. reflexivity.
Defined.

End LinkedProperties.

(** ** Gossip tracker: who was told about whom *)

Section GossipPeers.
Import Gossip.

Lemma bsContains_swapTail idx tail k j :
  bsContains (swapTail idx tail k) j
  = negb (bool_decide (tail = j))
    && (if decide (idx ≠ tail)
        then if bool_decide (idx = j) then bsContains k tail else bsContains k j
        else bsContains k j).
Proof.
  unfold swapTail. rewrite bsContains_bsRemove, andb_comm. f_equal.
  destruct (decide (idx ≠ tail)); [|done].
  destruct (bsContains k tail) eqn:Ht.
  - rewrite bsContains_bsAdd. by case_bool_decide.
  - rewrite bsContains_bsRemove. case_bool_decide; [|by rewrite andb_true_r].
    by rewrite andb_false_r.
Qed.

Lemma wf_injective g p q i :
  wf g -> peersToIndices g !! p = Some i -> peersToIndices g !! q = Some i ->
  p = q.
Proof.
  intros W Hp Hq. apply (wf_inverse g W) in Hp, Hq. congruence.
Qed.

Lemma Contains_tracked g p :
  wf g -> Contains g p = true <-> is_Some (peersToIndices g !! p).
Proof.
  intros W. unfold Contains. rewrite bool_decide_eq_true. apply (wf_tracked g W).
Qed.

(** What [Remove] leaves in the two maps that [knows] reads. *)
Lemma Remove_lookups g id idx :
  wf g -> peersToIndices g !! id = Some idx ->
  exists q,
    peersToIndices g !! q = Some (size (peersToIndices g) - 1)%nat /\
    (forall p, peersToIndices (fst (Remove g id)) !! p
               = if decide (p = id) then None
                 else if decide (p = q) then Some idx
                      else peersToIndices g !! p) /\
    (forall p, knownPeers (fst (Remove g id)) !! p
               = if decide (p = id) then None
                 else swapTail idx (size (peersToIndices g) - 1)%nat
                        <$> knownPeers g !! p).
Proof.
  intros W Hid. unfold Remove. rewrite Hid. cbn [fst].
  pose proof (wf_inverse g W) as Hinv.
  pose proof (wf_dense g W) as Hdense.
  pose proof (wf_index_lt g id idx W Hid) as Hlt.
  set (n := size (peersToIndices g)) in *.
  assert (Hev : indicesToPeers g !! idx = Some id) by (by apply Hinv).
  replace (default EmptyNodeID (indicesToPeers g !! idx)) with id
    by (by rewrite Hev).
  destruct (proj2 (Hdense (n - 1)%nat)) as [q Hq]; [lia|].
  assert (Hq' : peersToIndices g !! q = Some (n - 1)%nat) by (by apply Hinv).
  replace (default EmptyNodeID (indicesToPeers g !! (n - 1)%nat)) with q
    by (by rewrite Hq).
  exists q. split; [done|]. cbn [peersToIndices knownPeers]. split.
  - intros p. destruct (decide (p = id)) as [->|Hp];
      [by rewrite lookup_delete_eq|].
    rewrite lookup_delete_ne by done.
    destruct (decide (idx ≠ n - 1)%nat) as [Hne|Heq%dec_stable].
    + rewrite lookup_insert. repeat case_decide; congruence.
    + case_decide; [|done]. subst. congruence.
  - intros p. rewrite lookup_fmap.
    destruct (decide (p = id)) as [->|Hp]; [by rewrite lookup_delete_eq|].
    by rewrite lookup_delete_ne.
Qed.

(** X16: Remove of a tracked peer, in a tracker reached by any sequence of
    operations, returns true and stops tracking the peer; the other peers
    stay tracked, and what each of them was told about each other one is
    kept, although the indices change. *)
Theorem Remove_keeps_knowledge ops id :
  Contains (run ops NewGossipTracker) id = true ->
  snd (Remove (run ops NewGossipTracker) id) = true /\
  Contains (fst (Remove (run ops NewGossipTracker) id)) id = false /\
  count (fst (Remove (run ops NewGossipTracker) id))
    = (count (run ops NewGossipTracker) - 1)%nat /\
  (forall p, p <> id ->
     Contains (fst (Remove (run ops NewGossipTracker) id)) p
     = Contains (run ops NewGossipTracker) p) /\
  (forall p q, p <> id -> q <> id ->
     knows (fst (Remove (run ops NewGossipTracker) id)) p q
     = knows (run ops NewGossipTracker) p q) /\
  (forall p q, p = id \/ q = id ->
     knows (fst (Remove (run ops NewGossipTracker) id)) p q = false).
Proof.
  set (g := run ops NewGossipTracker).
  assert (W : wf g) by apply wf_run, wf_New.
  intros Hc. apply (Contains_tracked g id W) in Hc as [idx Hid].
  destruct (Remove_lookups g id idx W Hid) as (q & Hq & Hp2i & Hknown).
  set (n := size (peersToIndices g)) in *.
  split; [|split; [|split; [|split; [|split]]]].
  - unfold Remove. by rewrite Hid.
  - unfold Contains. rewrite Hknown, decide_True by done.
    apply bool_decide_eq_false. by intros [? ?].
  - assert (wf (fst (Remove g id))) as W' by (by apply wf_Remove).
    unfold Remove. rewrite Hid. unfold count. cbn [fst knownPeers].
    rewrite map_size_fmap.
    replace (default EmptyNodeID (indicesToPeers g !! idx)) with id
      by (apply (wf_inverse g W) in Hid; by rewrite Hid).
    rewrite map_size_delete_Some; [lia|].
    apply (wf_tracked g W). eauto.
  - intros p Hp. unfold Contains. rewrite Hknown, decide_False by done.
    apply bool_decide_ext. by rewrite fmap_is_Some.
  - intros p r Hp Hr. unfold knows.
    rewrite Hknown, Hp2i, !decide_False by done.
    destruct (knownPeers g !! p) as [k|] eqn:Hk; [|done]. cbn [fmap option_fmap option_map].
    destruct (decide (r = q)) as [->|Hrq].
    + rewrite Hq, bsContains_swapTail.
      assert (idx <> n - 1)%nat as Hne.
      { intros ->. apply Hr. by apply (wf_injective g q id (n - 1)%nat). }
      rewrite decide_True by done.
      rewrite (bool_decide_eq_true_2 (idx = idx)) by done.
      rewrite bool_decide_eq_false_2 by congruence. done.
    + destruct (peersToIndices g !! r) as [i|] eqn:Hi; [|done].
      rewrite bsContains_swapTail.
      assert (i <> n - 1)%nat as Hne.
      { intros ->. apply Hrq. by apply (wf_injective g r q (n - 1)%nat). }
      assert (i <> idx) as Hne'.
      { intros ->. apply Hr. by apply (wf_injective g r id idx). }
      rewrite bool_decide_eq_false_2 by congruence.
      case_decide; [|done].
      by rewrite bool_decide_eq_false_2 by congruence.
  - intros p r [->| ->]; unfold knows.
    + by rewrite Hknown, decide_True.
    + rewrite Hp2i, decide_True by done. by destruct (knownPeers _ !! p).
Qed.

Lemma Remove_keeps_knowledge_witness :
  snd (Remove scenario 1%N) = true /\
  Contains (fst (Remove scenario 1%N)) 1%N = false /\
  count (fst (Remove scenario 1%N)) = (count scenario - 1)%nat /\
  (forall p, p <> 1%N ->
     Contains (fst (Remove scenario 1%N)) p = Contains scenario p) /\
  (forall p q, p <> 1%N -> q <> 1%N ->
     knows (fst (Remove scenario 1%N)) p q = knows scenario p q) /\
  (forall p q, p = 1%N \/ q = 1%N ->
     knows (fst (Remove scenario 1%N)) p q = false).
Proof.
  apply (Remove_keeps_knowledge
           [OpAdd 1%N; OpAdd 2%N; OpAdd 3%N;
            OpUpdateKnown 1%N [1%N; 2%N; 3%N];
            OpUpdateKnown 2%N [1%N; 2%N];
            OpUpdateKnown 3%N [1%N]] 1%N).
  vm_compute. reflexivity.
Defined.

(** X17: Add of a tracked peer returns false and changes nothing. Add of a
    peer that is not tracked returns true and starts tracking it; the tracker
    records that the new peer was told about nobody and nobody about it, and
    keeps everything it recorded about the others. *)
Theorem Add_spec ops id :
  (Contains (run ops NewGossipTracker) id = true ->
   Add (run ops NewGossipTracker) id = (run ops NewGossipTracker, false)) /\
  (Contains (run ops NewGossipTracker) id = false ->
   snd (Add (run ops NewGossipTracker) id) = true /\
   Contains (fst (Add (run ops NewGossipTracker) id)) id = true /\
   count (fst (Add (run ops NewGossipTracker) id))
     = S (count (run ops NewGossipTracker)) /\
   (forall p, p <> id ->
      Contains (fst (Add (run ops NewGossipTracker) id)) p
      = Contains (run ops NewGossipTracker) p) /\
   (forall p q, p <> id -> q <> id ->
      knows (fst (Add (run ops NewGossipTracker) id)) p q
      = knows (run ops NewGossipTracker) p q) /\
   (forall p q, p = id \/ q = id ->
      knows (fst (Add (run ops NewGossipTracker) id)) p q = false)).
Proof.
  set (g := run ops NewGossipTracker).
  assert (W : wf g) by apply wf_run, wf_New.
  split.
  - intros Hc. apply (Contains_tracked g id W) in Hc as [idx Hid].
    unfold Add. by rewrite Hid.
  - intros Hc.
    assert (peersToIndices g !! id = None) as Hid.
    { destruct (peersToIndices g !! id) eqn:E; [|done].
      assert (Contains g id = true) by (apply (Contains_tracked g id W); eauto).
      congruence. }
    assert (knownPeers g !! id = None) as Hk.
    { destruct (knownPeers g !! id) eqn:E; [|done].
      assert (is_Some (peersToIndices g !! id)) as [? ?]
        by (apply (wf_tracked g W); eauto).
      congruence. }
    unfold Add. rewrite Hid. cbn [fst snd].
    split; [done|]. split; [|split; [|split; [|split]]].
    + unfold Contains. cbn [knownPeers]. rewrite lookup_insert_eq.
      apply bool_decide_eq_true. eauto.
    + unfold count. cbn [knownPeers]. by rewrite map_size_insert_None.
    + intros p Hp. unfold Contains. cbn [knownPeers].
      by rewrite lookup_insert_ne.
    + intros p q Hp Hq. unfold knows. cbn [knownPeers peersToIndices].
      by rewrite !lookup_insert_ne.
    + intros p q Hpq. unfold knows. cbn [knownPeers peersToIndices].
      destruct (decide (p = id)) as [->|Hp].
      * rewrite lookup_insert_eq.
        destruct (<[id:=_]> (peersToIndices g) !! q); [|done].
        apply bsContains_New.
      * destruct Hpq as [->| ->]; [done|].
        rewrite lookup_insert_ne, lookup_insert_eq by done.
        destruct (knownPeers g !! p) as [k|] eqn:Hkp; [|done].
        destruct (bsContains k (size (peersToIndices g))) eqn:Hb; [|done].
        pose proof (wf_known g W p k _ Hkp Hb). lia.
Qed.

Lemma learnedBits_None g learned bs :
  learnedBits g learned bs = None <->
  exists q, q ∈ learned /\ peersToIndices g !! q = None.
Proof.
  revert bs. induction learned as [|x learned IH]; intros bs; simpl.
  - split; [done|]. intros (q & Hq & _). by apply elem_of_nil in Hq.
  - destruct (peersToIndices g !! x) as [idx|] eqn:Hx.
    + rewrite IH. split; intros (q & Hq & Hn).
      * exists q. split; [by right | done].
      * apply elem_of_cons in Hq as [->|Hq]; [congruence|]. eauto.
    + split; [|done]. intros _. exists x. split; [by left | done].
Qed.

Lemma learnedBits_Some g learned bs bs' i :
  learnedBits g learned bs = Some bs' ->
  bsContains bs' i = true <->
  bsContains bs i = true \/ exists q, q ∈ learned /\ peersToIndices g !! q = Some i.
Proof.
  revert bs. induction learned as [|x learned IH]; intros bs; simpl.
  - intros [= ->]. split; [by left|].
    intros [?|(q & Hq & _)]; [done | by apply elem_of_nil in Hq].
  - destruct (peersToIndices g !! x) as [idx|] eqn:Hx; [|done].
    intros Hl. rewrite (IH _ Hl).
    rewrite bsContains_bsAdd, orb_true_iff, bool_decide_eq_true.
    split.
    + intros [[<-|Hb]|(q & Hq & Hi)].
      * right. exists x. split; [by left | done].
      * by left.
      * right. exists q. split; [by right | done].
    + intros [Hb|(q & Hq & Hi)]; [by left; right|].
      apply elem_of_cons in Hq as [->|Hq].
      * left. left. congruence.
      * right. eauto.
Qed.

(** X18: UpdateKnown returns true exactly when the peer and every learned
    peer are tracked; otherwise it changes nothing. When it returns true the
    same peers are tracked, and the tracker records in addition, and only in
    addition, that the peer was told about the learned peers. *)
Theorem UpdateKnown_spec ops id learned :
  snd (UpdateKnown (run ops NewGossipTracker) id learned)
    = Contains (run ops NewGossipTracker) id
      && forallb (Contains (run ops NewGossipTracker)) learned /\
  (snd (UpdateKnown (run ops NewGossipTracker) id learned) = false ->
   fst (UpdateKnown (run ops NewGossipTracker) id learned)
   = run ops NewGossipTracker) /\
  (snd (UpdateKnown (run ops NewGossipTracker) id learned) = true ->
   (forall p, Contains (fst (UpdateKnown (run ops NewGossipTracker) id learned)) p
              = Contains (run ops NewGossipTracker) p) /\
   (forall p q,
      knows (fst (UpdateKnown (run ops NewGossipTracker) id learned)) p q
      = knows (run ops NewGossipTracker) p q
        || bool_decide (p = id) && bool_decide (q ∈ learned))).
Proof.
  set (g := run ops NewGossipTracker).
  assert (W : wf g) by apply wf_run, wf_New.
  assert (forallb (Contains g) learned = true <->
          forall q, q ∈ learned -> is_Some (peersToIndices g !! q)) as Hall.
  { rewrite forallb_forall. split; intros H q Hq.
    - apply (Contains_tracked g q W), H. by apply list_elem_of_In.
    - apply (Contains_tracked g q W), H. by apply list_elem_of_In. }
  unfold UpdateKnown.
  destruct (knownPeers g !! id) as [known|] eqn:Hid.
  - assert (Contains g id = true) as ->
      by (unfold Contains; rewrite Hid; apply bool_decide_eq_true; eauto).
    cbn [andb].
    destruct (learnedBits g learned NewBigBitSet) as [bs|] eqn:Hbs.
    + cbn [fst snd].
      assert (forallb (Contains g) learned = true) as Hf.
      { apply Hall. intros q Hq.
        destruct (peersToIndices g !! q) eqn:E; [eauto|].
        assert (learnedBits g learned NewBigBitSet = None)
          by (apply learnedBits_None; eauto).
        congruence. }
      split; [done|]. split; [done|]. intros _. split.
      * intros p. unfold Contains. cbn [knownPeers].
        destruct (decide (p = id)) as [->|Hp].
        -- rewrite lookup_insert_eq, Hid. apply bool_decide_ext.
           split; eauto.
        -- by rewrite lookup_insert_ne.
      * intros p q. unfold knows. cbn [knownPeers peersToIndices].
        destruct (decide (p = id)) as [->|Hp].
        -- rewrite lookup_insert_eq, Hid, bool_decide_eq_true_2 by done.
           cbn [andb].
           destruct (peersToIndices g !! q) as [i|] eqn:Hq.
           ++ rewrite bsContains_bsUnion. f_equal.
              apply eq_true_iff_eq. rewrite bool_decide_eq_true.
              rewrite (learnedBits_Some _ _ _ _ i Hbs), bsContains_New.
              split.
              ** intros [?|(q' & Hq' & Hi)]; [done|].
                 by rewrite (wf_injective g q q' i W Hq Hi).
              ** intros Hin. right. eauto.
           ++ symmetry. apply bool_decide_eq_false. intros Hin.
              destruct (proj1 Hall Hf q Hin). congruence.
        -- rewrite lookup_insert_ne, bool_decide_eq_false_2 by done.
           cbn [andb]. by rewrite orb_false_r.
    + cbn [fst snd].
      apply learnedBits_None in Hbs as (q & Hq & Hn).
      assert (forallb (Contains g) learned = false) as ->.
      { apply not_true_is_false. intros Hf.
        destruct (proj1 Hall Hf q Hq). congruence. }
      done.
  - assert (Contains g id = false) as ->
      by (unfold Contains; rewrite Hid; apply bool_decide_eq_false;
          by intros [? ?]).
    done.
Qed.

Lemma map_list_fmap {A B} (f : A -> B) (l : list A) : map f l = f <$> l.
Proof. induction l as [|x l IH]; [done|]. simpl. by rewrite IH. Qed.

Lemma peerAt_tracked g i :
  wf g -> (i < size (peersToIndices g))%nat ->
  peersToIndices g !! peerAt g i = Some i.
Proof.
  intros W Hi. apply (wf_dense g W) in Hi as [q Hq]. unfold peerAt.
  rewrite Hq. by apply (wf_inverse g W).
Qed.

(** X19: for a tracked peer and a positive limit, in a tracker reached by
    any sequence of operations, GetUnknown returns at most [limit] distinct
    tracked peers, none of which the peer was told about; when the limit is
    at least the number of tracked peers, it returns every such peer. *)
Theorem GetUnknown_peers ops id limit :
  Contains (run ops NewGossipTracker) id = true -> 1 <= limit ->
  exists res,
    GetUnknown (run ops NewGossipTracker) id limit
      = (run ops NewGossipTracker, Some res, true) /\
    NoDup res /\ Z.of_nat (length res) <= limit /\
    (forall q, q ∈ res ->
       Contains (run ops NewGossipTracker) q = true /\
       knows (run ops NewGossipTracker) id q = false) /\
    (Z.of_nat (count (run ops NewGossipTracker)) <= limit ->
     forall q, Contains (run ops NewGossipTracker) q = true ->
               knows (run ops NewGossipTracker) id q = false -> q ∈ res).
Proof.
  set (g := run ops NewGossipTracker).
  assert (W : wf g) by apply wf_run, wf_New.
  intros Hc Hlimit.
  apply bool_decide_eq_true in Hc as [known Hknown].
  set (unknown := bsDifference (bsUnion NewBigBitSet (local g)) known).
  set (idxs := filter (fun j => bsContains unknown j = true)
                      (seq 0 (bsLen unknown))).
  set (n := size (peersToIndices g)).
  assert (Hu : forall i, bsContains unknown i = true <->
                         (i < n)%nat /\ bsContains known i = false).
  { intros i. unfold unknown.
    rewrite bsContains_bsDifference, bsContains_bsUnion, bsContains_New.
    rewrite orb_false_l, andb_true_iff, negb_true_iff.
    by rewrite (wf_local g W). }
  assert (Hidxs : forall i, i ∈ idxs <->
                            (i < n)%nat /\ bsContains known i = false).
  { intros i. unfold idxs. rewrite list_elem_of_filter, elem_of_seq, Hu.
    split; [tauto|]. intros Hi. split; [done|]. split; [lia|].
    rewrite Nat.add_0_l. apply bsContains_lt_bsLen. by apply Hu. }
  assert (Hnd : NoDup idxs) by (apply NoDup_filter, NoDup_seq).
  assert (Hndp : NoDup (peerAt g <$> idxs)).
  { apply NoDup_fmap_2_strong; [|done].
    intros i j Hi Hj Heq. apply Hidxs in Hi as [Hi _], Hj as [Hj _].
    pose proof (peerAt_tracked g i W Hi) as Hpi.
    pose proof (peerAt_tracked g j W Hj) as Hpj.
    rewrite Heq in Hpi. congruence. }
  exists (take (Z.to_nat limit) (peerAt g <$> idxs)).
  split; [|split; [|split; [|split]]].
  - unfold GetUnknown. destruct (Z.leb_spec limit 0); [lia|].
    rewrite Hknown. fold unknown.
    rewrite unknownLoop_take by (simpl; lia). cbn [app].
    by rewrite map_list_fmap.
  - eapply sublist_NoDup; [exact Hndp | apply sublist_take].
  - rewrite length_take. lia.
  - intros q Hq. apply subseteq_take in Hq.
    apply list_elem_of_fmap in Hq as (i & -> & Hi).
    apply Hidxs in Hi as [Hi Hb].
    pose proof (peerAt_tracked g i W Hi) as Hp.
    split.
    + apply (Contains_tracked g _ W). eauto.
    + unfold knows. by rewrite Hknown, Hp.
  - intros Hcount q Hq Hk.
    apply (Contains_tracked g q W) in Hq as [i Hi].
    rewrite take_ge.
    + apply list_elem_of_fmap. exists i. split.
      * pose proof (wf_index_lt g q i W Hi) as Hlt.
        pose proof (peerAt_tracked g i W Hlt) as Hp.
        by apply (wf_injective g q (peerAt g i) i W).
      * apply Hidxs. split; [by eapply wf_index_lt|].
        unfold knows in Hk. by rewrite Hknown, Hi in Hk.
    + rewrite length_fmap.
      assert (idxs ⊆+ seq 0 n) as Hsub.
      { apply NoDup_submseteq; [done|]. intros i' Hi'.
        apply Hidxs in Hi' as [Hi' _]. apply elem_of_seq. lia. }
      apply submseteq_length in Hsub. rewrite length_seq in Hsub.
      rewrite (wf_count g W) in Hcount. fold n in Hcount. lia.
Qed.

Lemma GetUnknown_peers_witness :
  exists res,
    GetUnknown scenario 3%N 8 = (scenario, Some res, true) /\
    NoDup res /\ Z.of_nat (length res) <= 8 /\
    (forall q, q ∈ res ->
       Contains scenario q = true /\ knows scenario 3%N q = false) /\
    (Z.of_nat (count scenario) <= 8 ->
     forall q, Contains scenario q = true ->
               knows scenario 3%N q = false -> q ∈ res).
Proof.
  apply (GetUnknown_peers
           [OpAdd 1%N; OpAdd 2%N; OpAdd 3%N;
            OpUpdateKnown 1%N [1%N; 2%N; 3%N];
            OpUpdateKnown 2%N [1%N; 2%N];
            OpUpdateKnown 3%N [1%N]] 3%N 8).
  - vm_compute. reflexivity.
  - lia.
Defined.

Lemma bsRemove_absent b i : bsContains b i = false -> bsRemove b i = b.
Proof.
  unfold bsContains, bsRemove. intros Hb. apply N.bits_inj. intros j.
  rewrite N.clearbit_eqb.
  destruct (N.eqb_spec (N.of_nat i) j) as [<-|_]; [|by rewrite andb_true_r].
  by rewrite Hb.
Qed.

Lemma bsRemove_bsAdd b i : bsContains b i = false -> bsRemove (bsAdd b i) i = b.
Proof.
  unfold bsContains, bsRemove, bsAdd. intros Hb. apply N.bits_inj. intros j.
  rewrite N.clearbit_eqb, N.setbit_eqb.
  destruct (N.eqb_spec (N.of_nat i) j) as [<-|_]; cbn [negb orb andb].
  - by rewrite Hb.
  - by rewrite andb_true_r.
Qed.

(** X20: Add of a peer that is not tracked followed by Remove of the same
    peer gives back the tracker, in a tracker reached by any sequence of
    operations. *)
Theorem Add_Remove_roundtrip ops id :
  Contains (run ops NewGossipTracker) id = false ->
  Remove (fst (Add (run ops NewGossipTracker) id)) id
  = (run ops NewGossipTracker, true).
Proof.
  set (g := run ops NewGossipTracker).
  assert (W : wf g) by apply wf_run, wf_New.
  intros Hc.
  assert (peersToIndices g !! id = None) as Hid.
  { destruct (peersToIndices g !! id) eqn:E; [|done].
    assert (Contains g id = true) by (apply (Contains_tracked g id W); eauto).
    congruence. }
  assert (knownPeers g !! id = None) as Hk.
  { destruct (knownPeers g !! id) eqn:E; [|done].
    assert (is_Some (peersToIndices g !! id)) as [? ?]
      by (apply (wf_tracked g W); eauto).
    congruence. }
  set (n := size (peersToIndices g)).
  assert (indicesToPeers g !! n = None) as Hn.
  { destruct (indicesToPeers g !! n) eqn:E; [|done].
    assert (n < n)%nat; [|lia]. apply (wf_dense g W). eauto. }
  assert (bsContains (local g) n = false) as Hl.
  { apply not_true_is_false. intros Hb. apply (wf_local g W) in Hb. lia. }
  unfold Add. rewrite Hid. cbn [fst]. fold n.
  unfold Remove. cbn [peersToIndices indicesToPeers knownPeers local].
  rewrite lookup_insert_eq, map_size_insert_None by done. fold n.
  replace (S n - 1)%nat with n by lia.
  rewrite !lookup_insert_eq.
  destruct (decide (n ≠ n)) as [Hnn|_]; [done|].
  change (default EmptyNodeID (Some id)) with id.
  rewrite !delete_insert_eq, !delete_id by done.
  rewrite bsRemove_bsAdd by done.
  f_equal. destruct g as [lo kn p2i i2p]. cbn in *. f_equal.
  apply map_eq. intros p. rewrite lookup_fmap.
  destruct (kn !! p) as [k|] eqn:Hkp; [|done]. cbn. f_equal.
  unfold swapTail. rewrite decide_False by (by intros ?).
  apply bsRemove_absent. apply not_true_is_false. intros Hb.
  pose proof (wf_known _ W p k n Hkp Hb) as Hlt. cbn in Hlt. lia.
Qed.

Lemma Add_Remove_roundtrip_witness :
  Remove (fst (Add scenario 9%N)) 9%N = (scenario, true).
Proof.
  apply (Add_Remove_roundtrip
           [OpAdd 1%N; OpAdd 2%N; OpAdd 3%N;
            OpUpdateKnown 1%N [1%N; 2%N; 3%N];
            OpUpdateKnown 2%N [1%N; 2%N];
            OpUpdateKnown 3%N [1%N]] 9%N).
  vm_compute. reflexivity.
Defined.

End GossipPeers.

(** ** Fee calculator: the rest of the schedule, accumulation and errors *)

Section FeeVisitor.
Import Fee.

(** X21: before the E upgrade ComputeFee never fails, changes nothing but the
    fee, and returns a fee that does not depend on the fee computed before:
    the validator, delegator and subnet-validator fees for AddValidatorTx,
    AddDelegatorTx and AddSubnetValidatorTx, the transform fee for
    TransformSubnetTx, zero for AdvanceTimeTx and RewardValidatorTx, and for
    CreateChainTx and CreateSubnetTx the blockchain and subnet creation fees
    from the Apricot-Phase-3 time on and the asset creation fee before
    it. *)
Theorem static_fee_schedule_rest meterTx c tx :
  isEActive c = false ->
  ComputeFee meterTx c tx
    = (set_fee c (fst (snd (ComputeFee meterTx c tx))),
       (fst (snd (ComputeFee meterTx c tx)), None)) /\
  (forall f, fst (snd (ComputeFee meterTx (ResetFee c f) tx))
             = fst (snd (ComputeFee meterTx c tx))) /\
  fst (snd (ComputeFee meterTx c tx)) =
    match tx with
    | AddValidatorTx => AddPrimaryNetworkValidatorFee (staticCfg c)
    | AddDelegatorTx => AddPrimaryNetworkDelegatorFee (staticCfg c)
    | AddSubnetValidatorTx => AddSubnetValidatorFee (staticCfg c)
    | TransformSubnetTx => TransformSubnetTxFee (staticCfg c)
    | AdvanceTimeTx | RewardValidatorTx => 0
    | CreateChainTx =>
        if decide (ApricotPhase3Time (upgrades c) <= time c)
        then CreateBlockchainTxFee (staticCfg c)
        else CreateAssetTxFee (staticCfg c)
    | CreateSubnetTx =>
        if decide (ApricotPhase3Time (upgrades c) <= time c)
        then CreateSubnetTxFee (staticCfg c)
        else CreateAssetTxFee (staticCfg c)
    | _ => fst (snd (ComputeFee meterTx c tx))
    end.
Proof.
  intros HE. unfold ComputeFee, Visit, ResetFee. cbn [isEActive set_fee].
  rewrite HE. split; [|split].
  - by destruct tx.
  - intros f. by destruct tx.
  - unfold IsApricotPhase3Activated.
    destruct tx; try done; cbn [fst snd fee set_fee];
      destruct (Z.ltb_spec (time c) (ApricotPhase3Time (upgrades c)));
      case_decide; (done || lia).
Qed.

Lemma static_fee_schedule_rest_witness :
  ComputeFee noMeter exampleAP3 CreateChainTx
    = (set_fee exampleAP3 (fst (snd (ComputeFee noMeter exampleAP3 CreateChainTx))),
       (fst (snd (ComputeFee noMeter exampleAP3 CreateChainTx)), None)) /\
  (forall f, fst (snd (ComputeFee noMeter (ResetFee exampleAP3 f) CreateChainTx))
             = fst (snd (ComputeFee noMeter exampleAP3 CreateChainTx))) /\
  fst (snd (ComputeFee noMeter exampleAP3 CreateChainTx)) =
    if decide (ApricotPhase3Time (upgrades exampleAP3) <= time exampleAP3)
    then CreateBlockchainTxFee (staticCfg exampleAP3)
    else CreateAssetTxFee (staticCfg exampleAP3).
Proof.
  apply (static_fee_schedule_rest noMeter exampleAP3 CreateChainTx). reflexivity.
Defined.

Lemma addFeesFor_fee c x c1 charged :
  is_u64 (fee c) ->
  addFeesFor c x = (c1, Ok charged) ->
  fee c1 = wrap64 (fee c + charged) /\
  tipPercentage c1 = tipPercentage c /\ staticCfg c1 = staticCfg c /\
  isEActive c1 = isEActive c /\ blockMaxComplexity c1 = blockMaxComplexity c.
Proof.
  unfold is_u64, MaxUint64, wrap64. intros Hf. unfold addFeesFor.
  assert (fee c = (fee c + 0) mod 2 ^ 64) as H0
    by (rewrite Z.add_0_r, Z.mod_small; lia).
  destruct (feeManager c) as [m|]; [|by intros [= <- <-]].
  destruct (dims_eqb x Empty); [by intros [= <- <-]|].
  destruct (CumulateComplexity m x (blockMaxComplexity c)) as [m' [d|]];
    [done|].
  cbn [tipPercentage set_feeManager].
  destruct (CalculateFee m' x (tipPercentage c)) as [f|e]; [|done].
  by intros [= <- <-].
Qed.

Lemma addFeesFor_Err c x c1 e :
  addFeesFor c x = (c1, Err e) ->
  fee c1 = fee c /\ tipPercentage c1 = tipPercentage c /\
  staticCfg c1 = staticCfg c /\ isEActive c1 = isEActive c.
Proof.
  unfold addFeesFor.
  destruct (feeManager c) as [m|]; [|done].
  destruct (dims_eqb x Empty); [done|].
  destruct (CumulateComplexity m x (blockMaxComplexity c)) as [m' [d|]];
    [by intros [= <- <-]|].
  cbn [tipPercentage set_feeManager].
  destruct (CalculateFee m' x (tipPercentage c)) as [f|e']; [done|].
  by intros [= <- <-].
Qed.

(** X22: after the E upgrade the calculator accumulates: for every
    transaction but the four with a fixed fee, a successful ComputeFee
    returns the fee computed before plus the fee charged for the measured
    complexity of this transaction (modulo 2^64), not the fee of this
    transaction alone. The four others overwrite the fee with a fixed
    amount, whether the upgrade is active or not. *)
Theorem dynamic_fee_accumulates meterTx c tx :
  is_u64 (fee c) ->
  (unmetered tx = true ->
   ComputeFee meterTx c tx
   = (set_fee c (fst (snd (ComputeFee meterTx c tx))),
      (match tx with
       | AddValidatorTx => AddPrimaryNetworkValidatorFee (staticCfg c)
       | AddDelegatorTx => AddPrimaryNetworkDelegatorFee (staticCfg c)
       | _ => 0
       end, None))) /\
  (unmetered tx = false -> isEActive c = true ->
   forall c' f, ComputeFee meterTx c tx = (c', (f, None)) ->
     exists x charged c1,
       meterTx tx = Ok x /\ addFeesFor c x = (c1, Ok charged) /\
       c' = c1 /\ f = wrap64 (fee c + charged) /\ fee c' = f).
Proof.
  intros Hf. split.
  - intros Hu. by destruct tx.
  - intros Hu HE c' f. unfold ComputeFee, Visit. rewrite HE.
    assert (forall r : calculator * option FeeError,
              r = dynamicFee meterTx c tx ->
              (let '(c0, err) := r in (c0, (fee c0, err))) = (c', (f, None)) ->
              exists x charged c1,
                meterTx tx = Ok x /\ addFeesFor c x = (c1, Ok charged) /\
                c' = c1 /\ f = wrap64 (fee c + charged) /\ fee c' = f) as Hdyn.
    { intros [c0 err] Hr [= <- <- ->]. unfold dynamicFee in Hr.
      destruct (meterTx tx) as [x|e]; [|done].
      destruct (addFeesFor c x) as [c1 [charged|e]] eqn:Hadd; [|done].
      injection Hr as ->.
      destruct (addFeesFor_fee c x c1 charged Hf Hadd) as (Hfee & _).
      exists x, charged, c1. by rewrite Hfee. }
    destruct tx; try done; by apply Hdyn.
Qed.

Lemma dynamic_fee_accumulates_witness :
  (unmetered BaseTx = true ->
   ComputeFee exampleMeter (ResetFee exampleDynamic 5) BaseTx
   = (set_fee (ResetFee exampleDynamic 5)
        (fst (snd (ComputeFee exampleMeter (ResetFee exampleDynamic 5) BaseTx))),
      (0, None))) /\
  (unmetered BaseTx = false -> isEActive (ResetFee exampleDynamic 5) = true ->
   forall c' f,
     ComputeFee exampleMeter (ResetFee exampleDynamic 5) BaseTx = (c', (f, None)) ->
     exists x charged c1,
       exampleMeter BaseTx = Ok x /\
       addFeesFor (ResetFee exampleDynamic 5) x = (c1, Ok charged) /\
       c' = c1 /\ f = wrap64 (fee (ResetFee exampleDynamic 5) + charged) /\
       fee c' = f).
Proof.
  apply (dynamic_fee_accumulates exampleMeter (ResetFee exampleDynamic 5) BaseTx).
  vm_compute. split; discriminate.
Defined.

Example dynamic_fee_accumulates_example :
  ComputeFee exampleMeter (ResetFee exampleDynamic 5) BaseTx
  = (set_fee (set_feeManager exampleDynamic
                (mkManager (mkDimensions 1 2 3 4) (mkDimensions 100 0 0 0))) 105,
     (105, None)).
Proof. reflexivity. Qed.

(** X23: a ComputeFee that fails leaves the fee as it was and returns it;
    the tip percentage and the configuration are unchanged too. It can fail
    only after the E upgrade, and only for a transaction whose fee is
    measured. *)
Theorem ComputeFee_error_keeps_fee meterTx c tx c' f e :
  ComputeFee meterTx c tx = (c', (f, Some e)) ->
  f = fee c /\ fee c' = fee c /\ tipPercentage c' = tipPercentage c /\
  staticCfg c' = staticCfg c /\ isEActive c = true /\ unmetered tx = false.
Proof.
  unfold ComputeFee, Visit.
  assert (forall r : calculator * option FeeError,
            r = dynamicFee meterTx c tx ->
            (let '(c0, err) := r in (c0, (fee c0, err))) = (c', (f, Some e)) ->
            f = fee c /\ fee c' = fee c /\ tipPercentage c' = tipPercentage c /\
            staticCfg c' = staticCfg c) as Hdyn.
  { intros [c0 err] Hr [= <- <- ->]. unfold dynamicFee in Hr.
    destruct (meterTx tx) as [x|e0]; [|by injection Hr as <- _].
    destruct (addFeesFor c x) as [c1 [charged|e1]] eqn:Hadd; [done|].
    injection Hr as -> _.
    destruct (addFeesFor_Err c x c1 e1 Hadd) as (? & ? & ? & _). done. }
  destruct (isEActive c) eqn:HE.
  - destruct tx; try done; intros Hc;
      (destruct (Hdyn _ eq_refl Hc) as (? & ? & ? & ?); done).
  - by destruct tx.
Qed.

Lemma ComputeFee_error_keeps_fee_witness :
  5 = fee (ResetFee exampleDynamic 5) /\
  fee (ResetFee exampleDynamic 5) = fee (ResetFee exampleDynamic 5) /\
  tipPercentage (ResetFee exampleDynamic 5)
    = tipPercentage (ResetFee exampleDynamic 5) /\
  staticCfg (ResetFee exampleDynamic 5) = staticCfg (ResetFee exampleDynamic 5) /\
  isEActive (ResetFee exampleDynamic 5) = true /\ unmetered ExportTx = false.
Proof.
  apply (ComputeFee_error_keeps_fee noMeter (ResetFee exampleDynamic 5) ExportTx
           (ResetFee exampleDynamic 5) 5 errMeter).
  reflexivity.
Defined.

End FeeVisitor.

(** ** Executor: what an accepted staking transaction has passed *)

Section StakingAccepted.
Import Staking.

Lemma syntacticVerify_Ok backend sTx u :
  syntacticVerify backend sTx = Ok u -> SyntacticVerify backend sTx = None.
Proof. unfold syntacticVerify. by destruct (SyntacticVerify backend sTx). Qed.

Lemma verifySpend_Ok backend sTx st ins outs creds fee u :
  verifySpend backend sTx st ins outs creds fee = Ok u ->
  VerifySpend backend sTx st ins outs creds fee = None.
Proof. unfold verifySpend. by destruct (VerifySpend _ _ _ _ _ _ _). Qed.

Lemma check_ltb a b e u : check (a <? b) e = Ok u -> b <= a.
Proof. intros H%check_Ok. by apply Z.ltb_ge. Qed.

Lemma check_gtb a b e u : check (a >? b) e = Ok u -> a <= b.
Proof. intros H%check_Ok. rewrite Z.gtb_ltb in H. by apply Z.ltb_ge. Qed.

(** X24: an AddValidatorTx that the verifier accepts is well formed, stakes
    between the minimum and the maximum validator stake, asks at least the
    minimum delegation fee and stakes for a duration between the minimum and
    the maximum; on a bootstrapped node its node is, in addition, neither a
    current nor a pending validator of the primary network, and the flow
    check has passed. While the node is bootstrapping the first conditions
    are all that is checked. The executor refuses the empty node id before
    it verifies. *)
Theorem AddValidatorTx_accepted maxFutureStartTime backend st sTx tx :
  (forall outs,
     verifyAddValidatorTx maxFutureStartTime backend st sTx tx = Ok outs ->
     outs = Outs tx ++ StakeOuts tx /\
     SyntacticVerify backend sTx = None /\
     MinValidatorStake (Cfg backend) <= txWeight tx
       <= MaxValidatorStake (Cfg backend) /\
     MinDelegationFee (Cfg backend) <= DelegationShares tx /\
     MinStakeDuration (Cfg backend) <= StakingPeriod tx
       <= MaxStakeDuration (Cfg backend) /\
     (Bootstrapped backend = true ->
      GetValidator st PrimaryNetworkID (txNodeID tx) = Err ErrNotFound /\
      VerifySpend backend sTx st (Ins tx) outs (Creds sTx)
        (AddPrimaryNetworkValidatorFee (Cfg backend)) = None)) /\
  (Bootstrapped backend = false ->
   SyntacticVerify backend sTx = None ->
   MinValidatorStake (Cfg backend) <= txWeight tx
     <= MaxValidatorStake (Cfg backend) ->
   MinDelegationFee (Cfg backend) <= DelegationShares tx ->
   MinStakeDuration (Cfg backend) <= StakingPeriod tx
     <= MaxStakeDuration (Cfg backend) ->
   verifyAddValidatorTx maxFutureStartTime backend st sTx tx
     = Ok (Outs tx ++ StakeOuts tx)) /\
  (forall st',
     execAddValidatorTx maxFutureStartTime backend st sTx tx = Ok st' ->
     txNodeID tx <> EmptyNodeID /\
     exists outs,
       verifyAddValidatorTx maxFutureStartTime backend st sTx tx = Ok outs).
Proof.
  split; [|split].
  - intros outs H. unfold verifyAddValidatorTx in H.
    destruct (syntacticVerify backend sTx) eqn:Esyn; [|done].
    destruct (check (txWeight tx <? _) _) eqn:E1; [|done].
    destruct (check (txWeight tx >? _) _) eqn:E2; [|done].
    destruct (check (DelegationShares tx <? _) _) eqn:E3; [|done].
    destruct (check (StakingPeriod tx <? _) _) eqn:E4; [|done].
    destruct (check (StakingPeriod tx >? _) _) eqn:E5; [|done].
    cbn [bind] in H.
    apply syntacticVerify_Ok in Esyn.
    apply check_ltb in E1, E3, E4. apply check_gtb in E2, E5.
    assert (outs = Outs tx ++ StakeOuts tx /\
            (Bootstrapped backend = true ->
             GetValidator st PrimaryNetworkID (txNodeID tx) = Err ErrNotFound /\
             VerifySpend backend sTx st (Ins tx) outs (Creds sTx)
               (AddPrimaryNetworkValidatorFee (Cfg backend)) = None))
      as [Ho Hb];
      [|split; [done|]; split; [done|]; split; [lia|]; split; [lia|];
        split; [lia | done]].
    destruct (Bootstrapped backend); cbn [negb] in H.
    + destruct (check (startsAfter _ _ _) _); [|done]. cbn [bind] in H.
      destruct (GetValidator st PrimaryNetworkID (txNodeID tx)) as [|e] eqn:Eg;
        [done|].
      pose proof (GetValidator_Err _ _ _ _ Eg) as ->.
      cbn [isErrNotFound negb check bind] in H.
      destruct (verifySpend _ _ _ _ _ _ _) eqn:Ev; [|done]. cbn [bind] in H.
      destruct (check (startsTooFar _ _ _ _) _); [|done]. cbn [bind] in H.
      injection H as <-. apply verifySpend_Ok in Ev. done.
    + injection H as <-. done.
  - intros Hb Hsyn [Hw1 Hw2] Hf [Hd1 Hd2]. unfold verifyAddValidatorTx.
    unfold syntacticVerify. rewrite Hsyn, Hb. cbn [bind negb].
    rewrite (proj2 (Z.ltb_ge _ _) Hw1), (proj2 (Z.ltb_ge _ _) Hf),
      (proj2 (Z.ltb_ge _ _) Hd1).
    rewrite !Z.gtb_ltb.
    rewrite (proj2 (Z.ltb_ge _ _) Hw2), (proj2 (Z.ltb_ge _ _) Hd2).
    done.
  - intros st' H. unfold execAddValidatorTx in H.
    destruct (check (N.eqb (txNodeID tx) EmptyNodeID) _) eqn:E0; [|done].
    cbn [bind] in H. apply check_Ok in E0. apply N.eqb_neq in E0.
    destruct (verifyAddValidatorTx _ _ _ _ _) as [outs|]; [|done].
    split; [done|]. by exists outs.
Qed.

Lemma AddValidatorTx_accepted_witness :
  verifyAddValidatorTx 100 (exampleBackend false) (exampleState 1000)
    (exampleTx (exampleStakerTx AddValidatorTx 7 500 1500 200))
    (exampleStakerTx AddValidatorTx 7 500 1500 200)
  = Ok (Outs (exampleStakerTx AddValidatorTx 7 500 1500 200)
        ++ StakeOuts (exampleStakerTx AddValidatorTx 7 500 1500 200)).
Proof.
  apply (AddValidatorTx_accepted 100 (exampleBackend false) (exampleState 1000)
           (exampleTx (exampleStakerTx AddValidatorTx 7 500 1500 200))
           (exampleStakerTx AddValidatorTx 7 500 1500 200)).
  - reflexivity.
  - reflexivity.
  - vm_compute. split; discriminate.
  - vm_compute. discriminate.
  - vm_compute. split; discriminate.
Defined.

(** X25: on a bootstrapped node, an AddSubnetValidatorTx that the verifier
    accepts names a node that is not yet a validator of the subnet and that
    is a current or pending validator of the primary network, and the time
    it validates the subnet lies within the time it validates the primary
    network: from the stated start to the stated end before the
    continuous-staking fork, from the chain time for the staking period after
    it. The subnet authorization and the flow check have passed. *)
Theorem AddSubnetValidatorTx_accepted maxFutureStartTime backend st sTx tx :
  Bootstrapped backend = true ->
  verifyAddSubnetValidatorTx maxFutureStartTime backend st sTx tx = Ok tt ->
  MinStakeDuration (Cfg backend) <= StakingPeriod tx
    <= MaxStakeDuration (Cfg backend) /\
  GetValidator st (Subnet tx) (txNodeID tx) = Err ErrNotFound /\
  exists primaryNetworkValidator baseTxCreds,
    GetValidator st PrimaryNetworkID (txNodeID tx) = Ok primaryNetworkValidator /\
    (let stakerStart :=
       if IsContinuousStakingActivated (Cfg backend) (GetTimestamp st)
       then GetTimestamp st else txStartTime tx in
     let stakerEnd :=
       if IsContinuousStakingActivated (Cfg backend) (GetTimestamp st)
       then GetTimestamp st + StakingPeriod tx else txEndTime tx in
     StartTime primaryNetworkValidator <= stakerStart /\
     stakerStart <= stakerEnd /\
     stakerEnd <= EndTime primaryNetworkValidator) /\
    verifyPoASubnetAuthorization backend st sTx (Subnet tx) = Ok baseTxCreds /\
    VerifySpend backend sTx st (Ins tx) (Outs tx) baseTxCreds
      (AddSubnetValidatorFee (Cfg backend)) = None.
Proof.
  intros Hb H. unfold verifyAddSubnetValidatorTx in H. rewrite Hb in H.
  cbn [negb] in H.
  destruct (syntacticVerify backend sTx) eqn:Esyn; [|done].
  destruct (check (StakingPeriod tx <? _) _) eqn:E4; [|done].
  destruct (check (StakingPeriod tx >? _) _) eqn:E5; [|done].
  cbn [bind] in H. apply check_ltb in E4. apply check_gtb in E5.
  destruct (check (startsAfter _ _ _) _); [|done]. cbn [bind] in H.
  destruct (GetValidator st (Subnet tx) (txNodeID tx)) as [|e] eqn:Eg; [done|].
  pose proof (GetValidator_Err _ _ _ _ Eg) as ->.
  cbn [isErrNotFound negb check bind] in H.
  destruct (GetValidator st PrimaryNetworkID (txNodeID tx)) as [pv|e] eqn:Ep;
    [|by destruct (isErrNotFound e)].
  destruct (check (negb (BoundedBy _ _ _ _)) _) eqn:Ebound; [|done].
  cbn [bind] in H. apply check_Ok, negb_false_iff in Ebound.
  destruct (verifyPoASubnetAuthorization backend st sTx (Subnet tx))
    as [creds|] eqn:Eauth; [|done].
  destruct (verifySpend _ _ _ _ _ _ _) eqn:Ev; [|done]. cbn [bind] in H.
  apply verifySpend_Ok in Ev.
  split; [lia|]. split; [done|]. exists pv, creds.
  split; [done|]. split; [|done].
  unfold BoundedBy in Ebound.
  destruct (IsContinuousStakingActivated (Cfg backend) (GetTimestamp st));
    cbn [negb] in Ebound |- *;
    apply andb_true_iff in Ebound as [Hab Hc];
    apply andb_true_iff in Hab as [Ha Hb'];
    apply negb_true_iff in Ha, Hb', Hc;
    apply Z.ltb_ge in Ha, Hc; rewrite Z.gtb_ltb in Hb';
    apply Z.ltb_ge in Hb'; lia.
Qed.

Lemma AddSubnetValidatorTx_accepted_witness :
  MinStakeDuration (Cfg (exampleBackend true))
    <= StakingPeriod (mkStakerTx AddSubnetValidatorTx
                        (mkValidator 8 2000 3000 1) 9 0 [1%N] [] [])
    <= MaxStakeDuration (Cfg (exampleBackend true)) /\
  GetValidator (exampleState 1000) 9 8 = Err ErrNotFound /\
  exists primaryNetworkValidator baseTxCreds,
    GetValidator (exampleState 1000) PrimaryNetworkID 8
      = Ok primaryNetworkValidator /\
    (StartTime primaryNetworkValidator <= 2000 /\ 2000 <= 3000 /\
     3000 <= EndTime primaryNetworkValidator) /\
    verifyPoASubnetAuthorization (exampleBackend true) (exampleState 1000)
      (exampleTx (mkStakerTx AddSubnetValidatorTx
                    (mkValidator 8 2000 3000 1) 9 0 [1%N] [] [])) 9
      = Ok baseTxCreds /\
    VerifySpend (exampleBackend true)
      (exampleTx (mkStakerTx AddSubnetValidatorTx
                    (mkValidator 8 2000 3000 1) 9 0 [1%N] [] []))
      (exampleState 1000) [1%N] [] baseTxCreds
      (AddSubnetValidatorFee (Cfg (exampleBackend true))) = None.
Proof.
  apply (AddSubnetValidatorTx_accepted 86400 (exampleBackend true)
           (exampleState 1000)
           (exampleTx (mkStakerTx AddSubnetValidatorTx
                         (mkValidator 8 2000 3000 1) 9 0 [1%N] [] []))
           (mkStakerTx AddSubnetValidatorTx
              (mkValidator 8 2000 3000 1) 9 0 [1%N] [] [])).
  - reflexivity.
  - vm_compute. reflexivity.
Defined.

(** The three ways [addStakerFromStakerTx] succeeds: before the fork a
    pending staker is put; after the fork a current staker is put, with no
    reward for a permissioned subnet validator, and otherwise with the
    calculated reward, which is added to the supply of the subnet. *)
Lemma addStaker_cases backend st sTx tx chainTime endTimeBound st1 :
  addStakerFromStakerTx backend st sTx tx chainTime endTimeBound = Ok st1 ->
  let put (current : bool) (st0 : State) (s : Staker) :=
    if current then
      if kindIsValidator (txStakerKind tx) then PutCurrentValidator st0 s
      else PutCurrentDelegator st0 s
    else
      if kindIsValidator (txStakerKind tx) then PutPendingValidator st0 s
      else PutPendingDelegator st0 s in
  let staker (reward : Z) :=
    mkStaker (txID sTx) (txNodeID tx) (txSubnetID tx) (txWeight tx)
      chainTime endTimeBound (chainTime + StakingPeriod tx) reward
      (mkPriority Current (txStakerKind tx)) in
  (IsContinuousStakingActivated (Cfg backend) chainTime = false /\
   st1 = put false st
           (mkStaker (txID sTx) (txNodeID tx) (txSubnetID tx) (txWeight tx)
              (txStartTime tx) (txEndTime tx) (txEndTime tx) 0
              (mkPriority Pending (txStakerKind tx)))) \/
  (IsContinuousStakingActivated (Cfg backend) chainTime = true /\
   txStakerKind tx = SubnetPermissionedValidator /\
   st1 = put true st (staker 0)) \/
  (IsContinuousStakingActivated (Cfg backend) chainTime = true /\
   txStakerKind tx <> SubnetPermissionedValidator /\
   exists supply,
     currentSupply st !! txSubnetID tx = Some supply /\
     st1 = put true
             (SetCurrentSupply st (txSubnetID tx)
                (wrap64 (supply + Calculate backend (txSubnetID tx)
                                    (StakingPeriod tx) (txWeight tx) supply)))
             (staker (Calculate backend (txSubnetID tx) (StakingPeriod tx)
                        (txWeight tx) supply))).
Proof.
  unfold addStakerFromStakerTx.
  destruct (IsContinuousStakingActivated (Cfg backend) chainTime) eqn:Hfork;
    cbn [negb].
  - unfold NewCurrentStaker. intros H. right.
    match type of H with
    | bind (bind ?r _) _ = _ => destruct r as [[st0 reward]|] eqn:Hr
    end; [|discriminate H].
    cbn [bind sPriority] in H.
    unfold IsCurrentValidator, IsCurrentDelegator, CurrentPriority in H.
    cbn [phase kind phaseIsCurrent negb andb] in H.
    assert (st1 = (if kindIsValidator (txStakerKind tx)
                   then PutCurrentValidator st0
                          (mkStaker (txID sTx) (txNodeID tx) (txSubnetID tx)
                             (txWeight tx) chainTime endTimeBound
                             (chainTime + StakingPeriod tx) reward
                             (mkPriority Current (txStakerKind tx)))
                   else PutCurrentDelegator st0
                          (mkStaker (txID sTx) (txNodeID tx) (txSubnetID tx)
                             (txWeight tx) chainTime endTimeBound
                             (chainTime + StakingPeriod tx) reward
                             (mkPriority Current (txStakerKind tx))))) as ->.
    { destruct (kindIsValidator (txStakerKind tx)); cbn [negb] in H;
        by injection H as <-. }
    clear H.
    destruct (negb (Priority_eqb _ _)) eqn:Hprio.
    + right. split; [done|]. unfold GetCurrentSupply in Hr.
      destruct (currentSupply st !! txSubnetID tx) as [supply|] eqn:Hs; [|done].
      cbn [bind] in Hr.
      destruct (GetRewardConfig backend st (txSubnetID tx)); [done|].
      injection Hr as <- <-. split; [|by exists supply].
      intros Hk. unfold CurrentPriority, Priority_eqb in Hprio.
      cbn [phase kind] in Hprio. rewrite Hk in Hprio.
      by rewrite bool_decide_eq_true_2 in Hprio.
    + left. injection Hr as <- <-. split; [done|]. split; [|done].
      apply negb_false_iff in Hprio. unfold CurrentPriority, Priority_eqb in Hprio.
      cbn [phase kind] in Hprio. apply andb_true_iff in Hprio as [_ Hk].
      by destruct (txStakerKind tx).
  - unfold NewPendingStaker. cbn [bind sPriority].
    unfold IsCurrentValidator, IsCurrentDelegator, IsPendingValidator,
      IsPendingDelegator, PendingPriority.
    cbn [phase kind phaseIsCurrent negb andb]. intros H. left. split; [done|].
    destruct (kindIsValidator (txStakerKind tx)); cbn [negb] in H;
      by injection H as <-.
Qed.

(** X26: the supply accounting of [addStakerFromStakerTx]. Before the
    continuous-staking fork, and for a permissioned subnet validator after
    it, the staker put has no potential reward and the supplies are
    unchanged. Otherwise the staker's potential reward is the one calculated
    from the staking period, the weight and the supply of the subnet, and the
    supply of the subnet grows by exactly this reward (modulo 2^64), the
    other supplies being unchanged; when the subnet has no recorded supply
    the transaction fails with the not-found error. *)
Theorem supply_accounting backend st sTx tx chainTime endTimeBound :
  (forall st1,
     addStakerFromStakerTx backend st sTx tx chainTime endTimeBound = Ok st1 ->
     exists s,
       TxID s = txID sTx /\ Weight s = txWeight tx /\
       SubnetID s = txSubnetID tx /\
       (s ∈ currentValidators st1 ++ currentDelegators st1
            ++ pendingValidators st1 ++ pendingDelegators st1) /\
       (IsContinuousStakingActivated (Cfg backend) chainTime = false \/
        txStakerKind tx = SubnetPermissionedValidator ->
        PotentialReward s = 0 /\ currentSupply st1 = currentSupply st) /\
       (IsContinuousStakingActivated (Cfg backend) chainTime = true ->
        txStakerKind tx <> SubnetPermissionedValidator ->
        exists supply,
          currentSupply st !! txSubnetID tx = Some supply /\
          PotentialReward s
            = Calculate backend (txSubnetID tx) (StakingPeriod tx)
                (txWeight tx) supply /\
          currentSupply st1
            = <[txSubnetID tx := wrap64 (supply + PotentialReward s)]>
                (currentSupply st))) /\
  (IsContinuousStakingActivated (Cfg backend) chainTime = true ->
   txStakerKind tx <> SubnetPermissionedValidator ->
   currentSupply st !! txSubnetID tx = None ->
   addStakerFromStakerTx backend st sTx tx chainTime endTimeBound
     = Err ErrNotFound).
Proof.
  split.
  - intros st1 H. apply addStaker_cases in H. cbv zeta in H.
    destruct H as [[Hf ->]|[(Hf & Hk & ->)|(Hf & Hk & supply & Hs & ->)]].
    + exists (mkStaker (txID sTx) (txNodeID tx) (txSubnetID tx) (txWeight tx)
                (txStartTime tx) (txEndTime tx) (txEndTime tx) 0
                (mkPriority Pending (txStakerKind tx))).
      split; [reflexivity|]. split; [reflexivity|].
      split; [reflexivity|]. split; [|split].
      * destruct (kindIsValidator (txStakerKind tx)); cbn; set_solver.
      * intros _. by destruct (kindIsValidator (txStakerKind tx)).
      * congruence.
    + exists (mkStaker (txID sTx) (txNodeID tx) (txSubnetID tx) (txWeight tx)
                chainTime endTimeBound (chainTime + StakingPeriod tx) 0
                (mkPriority Current (txStakerKind tx))).
      split; [reflexivity|]. split; [reflexivity|].
      split; [reflexivity|]. split; [|split].
      * destruct (kindIsValidator (txStakerKind tx)); cbn; set_solver.
      * intros _. by destruct (kindIsValidator (txStakerKind tx)).
      * congruence.
    + exists (mkStaker (txID sTx) (txNodeID tx) (txSubnetID tx) (txWeight tx)
                chainTime endTimeBound (chainTime + StakingPeriod tx)
                (Calculate backend (txSubnetID tx) (StakingPeriod tx)
                   (txWeight tx) supply)
                (mkPriority Current (txStakerKind tx))).
      split; [reflexivity|]. split; [reflexivity|].
      split; [reflexivity|]. split; [|split].
      * destruct (kindIsValidator (txStakerKind tx)); cbn; set_solver.
      * intros [?|?]; congruence.
      * intros _ _. exists supply. split; [done|]. split; [done|].
        by destruct (kindIsValidator (txStakerKind tx)).
  - intros Hf Hk Hs. unfold addStakerFromStakerTx. rewrite Hf. cbn [negb].
    assert (Priority_eqb (CurrentPriority tx)
              SubnetPermissionedValidatorCurrentPriority = false) as ->.
    { unfold Priority_eqb, CurrentPriority. cbn [phase kind].
      apply andb_false_iff. right. by destruct (txStakerKind tx). }
    cbn [negb]. unfold GetCurrentSupply. by rewrite Hs.
Qed.

Lemma supply_accounting_witness :
  addStakerFromStakerTx (exampleBackend true) (exampleState 6000)
    (exampleTx (mkStakerTx AddPermissionlessValidatorTx
                  (mkValidator 30 0 100 500) 9 2 [1%N] [] []))
    (mkStakerTx AddPermissionlessValidatorTx
       (mkValidator 30 0 100 500) 9 2 [1%N] [] [])
    6000 6100
  = Err ErrNotFound.
Proof.
  apply (supply_accounting (exampleBackend true) (exampleState 6000)
           (exampleTx (mkStakerTx AddPermissionlessValidatorTx
                         (mkValidator 30 0 100 500) 9 2 [1%N] [] []))
           (mkStakerTx AddPermissionlessValidatorTx
              (mkValidator 30 0 100 500) 9 2 [1%N] [] [])
           6000 6100).
  - reflexivity.
  - vm_compute. discriminate.
  - vm_compute. reflexivity.
Defined.

Example supply_accounting_example :
  bind (addStakerFromStakerTx
    (mkBackend exampleConfig 0%N true (fun _ => None) (fun _ _ _ _ _ _ => None)
       (fun _ _ _ _ => Ok true) (fun _ sTx _ => Ok (Creds sTx))
       (fun _ _ _ _ => None) (fun _ _ => None)
       (fun _ duration weight _ => duration * weight))
    (exampleState 6000)
    (exampleTx (exampleStakerTx AddValidatorTx 30 0 100 500))
    (exampleStakerTx AddValidatorTx 30 0 100 500) 6000 6100)
    (fun st1 => Ok (currentSupply st1))
  = Ok {[PrimaryNetworkID := 1050000]}.
Proof. vm_compute. reflexivity. Qed.

(** X27: the UTXO writes of an executed Add* staking transaction: one UTXO
    is produced for each of the transaction's outputs (not the stake
    outputs), keyed by the transaction id and the position, and the inputs
    are consumed, except that AddSubnetValidatorTx consumes no input. *)
Theorem staker_tx_utxos maxFutureStartTime backend st sTx tx st' :
  execStakerTx maxFutureStartTime backend st sTx tx = Ok st' ->
  producedUTXOs st'
    = producedUTXOs st ++ imap (fun i out => (txID sTx, i, out)) (Outs tx) /\
  consumedUTXOs st'
    = consumedUTXOs st ++ match txKind tx with
                          | AddSubnetValidatorTx => []
                          | _ => Ins tx
                          end.
Proof.
  assert (forall chainTime endTimeBound st1,
            addStakerFromStakerTx backend st sTx tx chainTime endTimeBound = Ok st1 ->
            producedUTXOs st1 = producedUTXOs st /\
            consumedUTXOs st1 = consumedUTXOs st) as Hadd.
  { intros chainTime endTimeBound st1 H. apply addStaker_cases in H.
    cbv zeta in H.
    destruct H as [[_ ->]|[(_ & _ & ->)|(_ & _ & supply & _ & ->)]];
      by destruct (kindIsValidator (txStakerKind tx)). }
  unfold execStakerTx, execAddValidatorTx, execAddSubnetValidatorTx,
    execAddDelegatorTx, execAddPermissionlessValidatorTx,
    execAddPermissionlessDelegatorTx.
  intros H.
  destruct (txKind tx);
    repeat match type of H with
    | bind ?r _ = Ok _ =>
        let E := fresh "E" in
        destruct r as [?|?] eqn:E; cbn [bind] in H; [|discriminate H]
    | (let (_, _) := ?p in _) = Ok _ => destruct p
    end;
    try match goal with
    | E : (if ?c then _ else _) = Ok _ |- _ => destruct c
    end;
    injection H as <-;
    match goal with
    | E : addStakerFromStakerTx _ _ _ _ _ _ = Ok _ |- _ =>
        apply Hadd in E as [Hp Hc]
    end;
    cbn [Produce Consume producedUTXOs consumedUTXOs];
    rewrite Hp, Hc, ?app_nil_r; done.
Qed.

Lemma staker_tx_utxos_witness :
  producedUTXOs
    (PutPendingValidator (exampleState 1000)
       (mkStaker 99 8 9 1 2000 3000 3000 0
          (mkPriority Pending SubnetPermissionedValidator)))
    = producedUTXOs (exampleState 1000)
      ++ imap (fun i out => (99%N, i, out)) [] /\
  consumedUTXOs
    (PutPendingValidator (exampleState 1000)
       (mkStaker 99 8 9 1 2000 3000 3000 0
          (mkPriority Pending SubnetPermissionedValidator)))
    = consumedUTXOs (exampleState 1000) ++ [].
Proof.
  apply (staker_tx_utxos 86400 (exampleBackend true) (exampleState 1000)
           (exampleTx (mkStakerTx AddSubnetValidatorTx
                         (mkValidator 8 2000 3000 1) 9 0 [1%N] [] []))
           (mkStakerTx AddSubnetValidatorTx
              (mkValidator 8 2000 3000 1) 9 0 [1%N] [] [])).
  vm_compute. reflexivity.
Defined.

End StakingAccepted.

(** ** Executor: removing a subnet validator *)

Section RemoveSubnetValidator.
Import Staking.

Lemma find_validates subnetID nodeID l s :
  find (validates subnetID nodeID) l = Some s ->
  s ∈ l /\ SubnetID s = subnetID /\ sNodeID s = nodeID.
Proof.
  intros H. apply find_some in H as [Hin Hv]. split; [by apply list_elem_of_In|].
  unfold validates in Hv. apply andb_true_iff in Hv as [H1 H2].
  by apply N.eqb_eq in H1, H2.
Qed.

(** X28: RemoveSubnetValidatorTx removes the current validator of the subnet
    with the node id, and only when there is none the pending one; the
    validator must be a permissioned one. When neither exists the
    transaction fails with the not-a-validator error, and for a
    permissionless validator with the remove-permissionless-validator error,
    also while the node is bootstrapping. On a bootstrapped node the subnet
    authorization and the flow check for the flat fee have passed. The
    transaction's inputs are consumed and its outputs produced after the
    deletion. *)
Theorem RemoveSubnetValidatorTx_spec verifySubnetAuthorization
    DeleteCurrentValidator DeletePendingValidator backend st sTx tx :
  (forall st',
     execRemoveSubnetValidatorTx verifySubnetAuthorization
       DeleteCurrentValidator DeletePendingValidator backend st sTx tx = Ok st' ->
     exists staker,
       SubnetID staker = rmSubnet tx /\ sNodeID staker = rmNodeID tx /\
       IsPermissionedValidator (sPriority staker) = true /\
       (find (validates (rmSubnet tx) (rmNodeID tx)) (currentValidators st)
          = Some staker /\
        st' = Produce (Consume (DeleteCurrentValidator st staker) (rmIns tx))
                (txID sTx) (rmOuts tx)
        \/
        find (validates (rmSubnet tx) (rmNodeID tx)) (currentValidators st)
          = None /\
        find (validates (rmSubnet tx) (rmNodeID tx)) (pendingValidators st)
          = Some staker /\
        st' = Produce (Consume (DeletePendingValidator st staker) (rmIns tx))
                (txID sTx) (rmOuts tx)) /\
       (Bootstrapped backend = true ->
        exists baseTxCreds,
          verifySubnetAuthorization st sTx (rmSubnet tx) = Ok baseTxCreds /\
          VerifySpend backend sTx st (rmIns tx) (rmOuts tx) baseTxCreds
            (TxFee (Cfg backend)) = None)) /\
  (SyntacticVerify backend sTx = None ->
   (forall s, s ∈ currentValidators st ++ pendingValidators st ->
              SubnetID s = rmSubnet tx -> sNodeID s <> rmNodeID tx) ->
   execRemoveSubnetValidatorTx verifySubnetAuthorization
     DeleteCurrentValidator DeletePendingValidator backend st sTx tx
   = Err ErrNotValidator) /\
  (SyntacticVerify backend sTx = None ->
   forall s,
     GetValidator st (rmSubnet tx) (rmNodeID tx) = Ok s ->
     IsPermissionedValidator (sPriority s) = false ->
     execRemoveSubnetValidatorTx verifySubnetAuthorization
       DeleteCurrentValidator DeletePendingValidator backend st sTx tx
     = Err ErrRemovePermissionlessValidator).
Proof.
  split; [|split].
  - intros st' H. unfold execRemoveSubnetValidatorTx in H.
    destruct (removeSubnetValidatorValidation _ _ _ _ _)
      as [[staker isCurrent]|] eqn:Hv; [|done].
    cbn [bind] in H. injection H as <-.
    unfold removeSubnetValidatorValidation in Hv.
    destruct (syntacticVerify backend sTx); [|done]. cbn [bind] in Hv.
    unfold GetCurrentValidator, GetPendingValidator in Hv.
    assert (exists vdr cur,
              (cur = true /\
               find (validates (rmSubnet tx) (rmNodeID tx)) (currentValidators st)
                 = Some vdr \/
               cur = false /\
               find (validates (rmSubnet tx) (rmNodeID tx)) (currentValidators st)
                 = None /\
               find (validates (rmSubnet tx) (rmNodeID tx)) (pendingValidators st)
                 = Some vdr) /\
              (let* _ := check (negb (IsPermissionedValidator (sPriority vdr)))
                               ErrRemovePermissionlessValidator in
               if negb (Bootstrapped backend) then Ok (vdr, cur)
               else
                 match verifySubnetAuthorization st sTx (rmSubnet tx) with
                 | Err cause => Err (errSubnetAuthorization cause)
                 | Ok baseTxCreds =>
                     let* _ := verifySpend backend sTx st (rmIns tx) (rmOuts tx)
                                 baseTxCreds (TxFee (Cfg backend)) in
                     Ok (vdr, cur)
                 end) = Ok (staker, isCurrent))
      as (vdr & cur & Hfound & Hrest).
    { destruct (find _ (currentValidators st)) as [vdr|] eqn:Hc.
      - exists vdr, true. split; [by left | done].
      - cbn [isErrNotFound] in Hv.
        destruct (find _ (pendingValidators st)) as [vdr|] eqn:Hp; [|done].
        exists vdr, false. split; [by right | done]. }
    clear Hv.
    destruct (check (negb (IsPermissionedValidator (sPriority vdr))) _) eqn:Hperm;
      [|done].
    cbn [bind] in Hrest. apply check_Ok, negb_false_iff in Hperm.
    assert (vdr = staker /\ cur = isCurrent /\
            (Bootstrapped backend = true ->
             exists baseTxCreds,
               verifySubnetAuthorization st sTx (rmSubnet tx) = Ok baseTxCreds /\
               VerifySpend backend sTx st (rmIns tx) (rmOuts tx) baseTxCreds
                 (TxFee (Cfg backend)) = None)) as (-> & -> & Hboot).
    { destruct (Bootstrapped backend); cbn [negb] in Hrest.
      - destruct (verifySubnetAuthorization st sTx (rmSubnet tx))
          as [creds|]; [|done].
        unfold verifySpend in Hrest.
        destruct (VerifySpend _ _ _ _ _ _ _) eqn:Hs; [done|].
        cbn [bind] in Hrest. injection Hrest as <- <-.
        split; [done|]. split; [done|]. intros _. by exists creds.
      - injection Hrest as <- <-. done. }
    exists staker.
    destruct Hfound as [[-> Hc]|(-> & Hc & Hp)].
    + destruct (find_validates _ _ _ _ Hc) as (_ & ? & ?).
      split; [done|]. split; [done|]. split; [done|]. split; [by left | done].
    + destruct (find_validates _ _ _ _ Hp) as (_ & ? & ?).
      split; [done|]. split; [done|]. split; [done|]. split; [by right | done].
  - intros Hsyn Hnone.
    unfold execRemoveSubnetValidatorTx, removeSubnetValidatorValidation,
      syntacticVerify, GetCurrentValidator, GetPendingValidator.
    rewrite Hsyn. cbn [bind].
    assert (forall l, l ⊆ currentValidators st ++ pendingValidators st ->
              find (validates (rmSubnet tx) (rmNodeID tx)) l = None) as Hfind.
    { intros l Hl. destruct (find _ l) as [s|] eqn:Hf; [|done].
      destruct (find_validates _ _ _ _ Hf) as (Hin & Hs & Hn).
      exfalso. by apply (Hnone s (Hl s Hin)). }
    rewrite !Hfind by set_solver. done.
  - intros Hsyn s Hget Hperm.
    unfold execRemoveSubnetValidatorTx, removeSubnetValidatorValidation,
      syntacticVerify.
    rewrite Hsyn. cbn [bind]. unfold GetValidator in Hget.
    destruct (GetCurrentValidator st (rmSubnet tx) (rmNodeID tx)) as [c|e] eqn:Hc.
    + injection Hget as ->. cbn [bind]. by rewrite Hperm.
    + unfold GetCurrentValidator in Hc.
      destruct (find _ (currentValidators st)); [done|]. injection Hc as <-.
      cbn [isErrNotFound negb] in Hget |- *. rewrite Hget. cbn [bind].
      by rewrite Hperm.
Qed.

Lemma RemoveSubnetValidatorTx_spec_witness :
  execRemoveSubnetValidatorTx (fun _ sTx _ => Ok (Creds sTx))
    (fun st _ => st) (fun st _ => st) (exampleBackend true) exampleRemoveState
    exampleRemoveSignedTx (exampleRemoveTx 8)
  = Err ErrRemovePermissionlessValidator.
Proof.
  apply (RemoveSubnetValidatorTx_spec (fun _ sTx _ => Ok (Creds sTx))
           (fun st _ => st) (fun st _ => st) (exampleBackend true)
           exampleRemoveState exampleRemoveSignedTx (exampleRemoveTx 8))
    with (s := mkStaker 31 8 9 1 0 700000 700000 0
                 (mkPriority Current SubnetPermissionlessValidator)).
  - reflexivity.
  - vm_compute. reflexivity.
  - reflexivity.
Defined.

Example remove_prefers_current :
  removeSubnetValidatorValidation (fun _ sTx _ => Ok (Creds sTx))
    (exampleBackend true) exampleRemoveState exampleRemoveSignedTx
    (exampleRemoveTx 7)
  = Ok (exampleSubnetValidator, true).
Proof. vm_compute. reflexivity. Qed.

End RemoveSubnetValidator.

(** ** Validator manager: the set at the current height *)

Section ValidatorsCurrent.
Import Validators.




Example subnet_set_at_current_height :
  snd (GetValidatorSet exampleManager 5 9%N) =
    Ok {[1%N := mkGetValidatorOutput 1 (Some 77%N) 40]}.
Proof. vm_compute. reflexivity. Qed.

End ValidatorsCurrent.

(** ** Dynamic fees configuration *)

Section DynamicFeesProperties.
Import DynamicFees.

(** X30: whatever resets were made, before the E upgrade the configuration
    is the built-in one with empty unit fees; after it, it is the argument of
    the last reset that was made with a configuration and a network other
    than Mainnet and Fuji, and the built-in one when there was none, as is
    the case when every reset was made on Mainnet or Fuji. A reset returns
    an error exactly when it is given a configuration on Mainnet or Fuji,
    and then changes nothing. *)
Theorem dynamic_fees_config_resets MainnetID FujiID NanoAvax Max resets :
  GetDynamicFeesConfig NanoAvax Max (resetAll MainnetID FujiID resets None) false
    = preEUpgradeDynamicFeesConfig Max /\
  GetDynamicFeesConfig NanoAvax Max (resetAll MainnetID FujiID resets None) true
    = default (eUpgradeDynamicFeesConfig NanoAvax Max)
        (last (omap (accepted MainnetID FujiID) resets)) /\
  ((forall r, r ∈ resets -> r.1 = MainnetID \/ r.1 = FujiID) ->
   GetDynamicFeesConfig NanoAvax Max (resetAll MainnetID FujiID resets None) true
     = eUpgradeDynamicFeesConfig NanoAvax Max) /\
  (forall custom networkID customFeesConfig,
     (snd (ResetDynamicFeesConfig MainnetID FujiID custom networkID
             customFeesConfig) <> None
      <-> customFeesConfig <> None /\
          (networkID = MainnetID \/ networkID = FujiID)) /\
     (snd (ResetDynamicFeesConfig MainnetID FujiID custom networkID
             customFeesConfig) <> None ->
      fst (ResetDynamicFeesConfig MainnetID FujiID custom networkID
             customFeesConfig) = custom)).
Proof.
  assert (forall rs custom,
            resetAll MainnetID FujiID rs custom
            = match last (omap (accepted MainnetID FujiID) rs) with
              | Some c => Some c
              | None => custom
              end) as Hrun.
  { induction rs as [|r rs IH] using rev_ind; intros custom; [done|].
    unfold resetAll. rewrite fold_left_app. cbn [fold_left].
    fold (resetAll MainnetID FujiID rs custom). rewrite IH.
    rewrite omap_app, last_app.
    assert (omap (accepted MainnetID FujiID) [r]
            = option_list (accepted MainnetID FujiID r)) as ->
      by (simpl; by destruct (accepted MainnetID FujiID r)).
    unfold ResetDynamicFeesConfig, accepted.
    destruct r as [net [c|]]; cbn [fst snd].
    - by destruct (bool_decide (net = MainnetID) || bool_decide (net = FujiID)).
    - by destruct (bool_decide (net = MainnetID) || bool_decide (net = FujiID)). }
  split; [done|]. split; [|split].
  - rewrite Hrun. unfold GetDynamicFeesConfig. cbn [negb].
    by destruct (last _).
  - intros Hall. rewrite Hrun. unfold GetDynamicFeesConfig. cbn [negb].
    assert (omap (accepted MainnetID FujiID) resets = []) as ->; [|done].
    induction resets as [|r rs IH]; [done|].
    assert (accepted MainnetID FujiID r = None) as Hr.
    { unfold accepted. destruct (Hall r) as [E|E]; [set_solver| |].
      - by rewrite (bool_decide_eq_true_2 _ E).
      - rewrite (bool_decide_eq_true_2 _ E). by rewrite orb_true_r. }
    simpl. rewrite Hr. apply IH. intros r' Hr'. apply Hall. set_solver.
  - intros custom networkID customFeesConfig. unfold ResetDynamicFeesConfig.
    destruct customFeesConfig as [c|]; cbn [fst snd].
    + destruct (bool_decide (networkID = MainnetID)) eqn:Hm;
        destruct (bool_decide (networkID = FujiID)) eqn:Hf; cbn [orb fst snd];
        try apply bool_decide_eq_true in Hm; try apply bool_decide_eq_true in Hf;
        try apply bool_decide_eq_false in Hm;
        try apply bool_decide_eq_false in Hf;
        (split; [|done]); split; try done; try (intros _; split; [done|]; tauto).
      intros [_ [?|?]]; done.
    + split; [|done]. split; [done|]. by intros [? _].
Qed.

End DynamicFeesProperties.
